(** * OpenShell: the CLI bridge pipeline, embedded and verified

    A shallow embedding of the TypeScript sources of the bridge:

    - [Js]            the few JavaScript built-ins the code relies on
                      (String.prototype.trim, Array.prototype.slice, ...);
    - [Json]          the values JSON.parse produces;
    - [SessionStore]  src/chat/session-store.ts;
    - [ChatService]   src/chat/chat-service.ts (askStream, withChatLock);
    - [StreamEdit]    src/bots/stream-edit.ts (the edit coalescer);
    - [RunJsonlCli]   src/providers/run-jsonl-cli.ts (the executor);
    - [CodexCli]      src/providers/codex-cli-provider.ts;
    - [PlatformText]  src/bots/text-chunk.ts and truncateForPlatform;
    - [ChatCommands]  the other public methods of src/chat/chat-service.ts;
    - [CliInvocation] src/providers/render-cli-prompt.ts and the argument
                      lists of the two adapters;
    - [ClaudeCli]     src/providers/claude-cli-provider.ts;
    - [Config]        src/config.ts;
    - [OwnerStore]    src/bots/telegram-owner-store.ts;
    - [TelegramBot]   src/bots/telegram-bot.ts (the owner lock, the prompt of
                      the text handler).

    Asynchronous code is embedded as a transition system whose events are
    the points where the event loop hands control back to the code. *)

From Equations Require Import Equations.
From Stdlib Require Import ZArith Ascii String.
From stdpp Require Import gmap strings list pretty.

#[local] Set Warnings "-register-all".
Local Open Scope Z_scope.

(** How a promise settles, or how a call returns: with a value, or with
    the message of the error thrown. *)
Inductive Settled (A : Type) : Type :=
| Fulfilled (value : A)
| Rejected (message : string).
Arguments Fulfilled {A} value.
Arguments Rejected {A} message.

(* ===================================================================== *)
(** * JavaScript built-ins *)
(* ===================================================================== *)

Module Js.

(** A JS string is embedded as a [string]; its characters stand for code
    units below 256.  In that range the white space and line terminators
    that [trim] strips are TAB, LF, VT, FF, CR, SPACE and NBSP. *)
Definition isWhiteSpace (c : ascii) : bool :=
  match N_of_ascii c with
  | 9%N | 10%N | 11%N | 12%N | 13%N | 32%N | 160%N => true
  | _ => false
  end.

Fixpoint trimStartL (l : list ascii) : list ascii :=
  match l with
  | [] => []
  | c :: r => if isWhiteSpace c then trimStartL r else l
  end.

Definition trimL (l : list ascii) : list ascii :=
  rev (trimStartL (rev (trimStartL l))).

(** [s.trim()] *)
Definition trim (s : string) : string :=
  string_of_list_ascii (trimL (list_ascii_of_string s)).

(** Truthiness of a string: [Boolean(s)], [if (s)], [!s]. *)
Definition truthy (s : string) : bool :=
  match s with EmptyString => false | String _ _ => true end.

(** [s.length] *)
Definition strlen (s : string) : Z := Z.of_nat (String.length s).

(** The index clamping shared by [Array.prototype.slice] and
    [String.prototype.slice]: a negative index counts from the end. *)
Definition clampIndex (len i : Z) : Z :=
  if i <? 0 then Z.max (len + i) 0 else Z.min i len.

(** [a.slice(start)] on arrays. *)
Definition slice1 {A} (l : list A) (start : Z) : list A :=
  drop (Z.to_nat (clampIndex (Z.of_nat (length l)) start)) l.

(** [s.slice(start, end)] and [s.slice(start)] on strings. *)
Definition sslice (s : string) (start stop : Z) : string :=
  let len := strlen s in
  let k := clampIndex len start in
  let e := clampIndex len stop in
  String.substring (Z.to_nat k) (Z.to_nat (Z.max (e - k) 0)) s.

Definition sslice1 (s : string) (start : Z) : string :=
  sslice s start (strlen s).

(** [s.indexOf(c)] for a one-character needle; -1 when absent. *)
Fixpoint indexOf (s : string) (c : ascii) : Z :=
  match s with
  | EmptyString => -1
  | String a r =>
      if Ascii.eqb a c then 0
      else let i := indexOf r c in if i <? 0 then -1 else i + 1
  end.

(** [s.split(c)] for a one-character separator. *)
Fixpoint split (s : string) (c : ascii) : list string :=
  match s with
  | EmptyString => [EmptyString]
  | String a r =>
      if Ascii.eqb a c then EmptyString :: split r c
      else match split r c with
           | h :: t => String a h :: t
           | [] => [String a EmptyString]
           end
  end.

Definition LF : ascii := ascii_of_N 10.

(** [s.includes(needle)] *)
Fixpoint startsWith (s needle : string) : bool :=
  match needle, s with
  | EmptyString, _ => true
  | String _ _, EmptyString => false
  | String b n', String a s' => Ascii.eqb a b && startsWith s' n'
  end.

Fixpoint includes (s needle : string) : bool :=
  startsWith s needle ||
  match s with
  | EmptyString => false
  | String _ s' => includes s' needle
  end.

End Js.

(* ===================================================================== *)
(** * JSON values *)
(* ===================================================================== *)

Module Json.

(** What [JSON.parse] returns.  Numbers are kept to the integers (the code
    only ever compares a number with [1]); the fields of an object are its
    own properties in enumeration order, with distinct keys. *)
Inductive json : Type :=
| JNull
| JBool (b : bool)
| JNum (n : Z)
| JStr (s : string)
| JArr (items : list json)
| JObj (fields : list (string * json)).

Fixpoint assoc (k : string) (fs : list (string * json)) : option json :=
  match fs with
  | [] => None
  | (k', v) :: r => if String.eqb k' k then Some v else assoc k r
  end.

(** Property read [j.k] / [j[k]] on a non-null value; [None] is
    [undefined].  None of the property names the code reads is defined on a
    prototype, so only objects answer. *)
Definition get (j : json) (k : string) : option json :=
  match j with
  | JObj fs => assoc k fs
  | _ => None
  end.

(** [typeof value === "object" && value !== null && !Array.isArray(value)] *)
Definition isRecord (j : option json) : bool :=
  match j with
  | Some (JObj _) => true
  | _ => false
  end.

(** JS truthiness of a value ([undefined] is falsy). *)
Definition truthy (j : option json) : bool :=
  match j with
  | None | Some JNull => false
  | Some (JBool b) => b
  | Some (JNum n) => negb (n =? 0)
  | Some (JStr s) => Js.truthy s
  | Some (JArr _) | Some (JObj _) => true
  end.

End Json.

(* ===================================================================== *)
(** * Session store (src/chat/session-store.ts, src/types.ts) *)
(* ===================================================================== *)

Module SessionStore.
Import Json.

Inductive ProviderName : Type := codex | claude.

Definition providerNames : list ProviderName := [codex; claude].

(** The string a provider name is at run time. *)
Definition providerId (p : ProviderName) : string :=
  match p with codex => "codex" | claude => "claude" end.

#[global] Instance ProviderName_eq_dec : EqDecision ProviderName.
Proof. solve_decision. Defined.

#[global] Instance ProviderName_countable : Countable ProviderName.
Proof.
  refine (inj_countable' (fun p => match p with codex => false | claude => true end)
                         (fun b : bool => if b then claude else codex) _).
  intros []; reflexivity.
Defined.

Inductive MessageRole : Type := system | user | assistant.

#[global] Instance MessageRole_eq_dec : EqDecision MessageRole.
Proof. solve_decision. Defined.

Definition roleId (r : MessageRole) : string :=
  match r with system => "system" | user => "user" | assistant => "assistant" end.

Record ConversationMessage : Type := Message {
  role : MessageRole;
  content : string
}.

#[global] Instance ConversationMessage_eq_dec : EqDecision ConversationMessage.
Proof. solve_decision. Defined.

Record ChatSession : Type := Session {
  provider : ProviderName;
  history : list ConversationMessage;
  modelOverrides : gmap ProviderName string;
  reasoningEffortOverrides : gmap ProviderName string
}.

(** The file at [persistencePath]: absent, present but not readable as
    JSON ([readFileSync] or [JSON.parse] throws), or a JSON document. *)
Inductive DiskFile : Type :=
| NoFile
| Unreadable
| Parsed (raw : json).

(** The fields of the class. *)
Record Store : Type := MkStore {
  defaultProvider : ProviderName;
  maxHistory : Z;
  persistencePath : option string;
  sessions : gmap string ChatSession
}.

(** The store object together with the file it persists to. *)
Record World : Type := MkWorld {
  store : Store;
  disk : DiskFile
}.

(** What one call of [persist] takes from its environment: the clock, and
    whether mkdir / write / rename went through (a failure is caught and
    logged, and leaves the previous file in place). *)
Record PersistIO : Type := MkIO {
  savedAt : string;
  writeOk : bool
}.

Definition withSessions (s : Store) (m : gmap string ChatSession) : Store :=
  MkStore (defaultProvider s) (maxHistory s) (persistencePath s) m.

(** ** Normalisation of loaded values *)

Definition normalizeProvider (value : option json) (fallback : ProviderName)
  : ProviderName :=
  match value with
  | Some (JStr v) =>
      match List.find (fun p => String.eqb (providerId p) v) providerNames with
      | Some p => p
      | None => fallback
      end
  | _ => fallback
  end.

Definition normalizeOverrides (input : option json) : gmap ProviderName string :=
  match input with
  | Some (JObj _ as obj) =>
      foldl (fun output p =>
               match get obj (providerId p) with
               | Some (JStr value) =>
                   if Js.truthy (Js.trim value)
                   then <[p := Js.trim value]> output
                   else output
               | _ => output
               end) ∅ providerNames
  | _ => ∅
  end.

Definition normalizeMessage (item : json) : option ConversationMessage :=
  if negb (isRecord (Some item)) then None
  else
    match get item "role", get item "content" with
    | Some (JStr r), Some (JStr c) =>
        if (String.eqb r "user" || String.eqb r "assistant") && (0 <? Js.strlen c)
        then Some (Message (if String.eqb r "user" then user else assistant) c)
        else None
    | _, _ => None
    end.

Definition normalizeHistory (input : option json) : list ConversationMessage :=
  match input with
  | Some (JArr items) => omap normalizeMessage items
  | _ => []
  end.

(** [trimmed[0]?.role === "assistant"] then [trimmed.slice(1)] *)
Definition dropLeadingAssistant (trimmed : list ConversationMessage)
  : list ConversationMessage :=
  match trimmed with
  | m :: _ =>
      match role m with
      | assistant => Js.slice1 trimmed 1
      | _ => trimmed
      end
  | [] => trimmed
  end.

Definition trimHistory (s : Store) (h : list ConversationMessage)
  : list ConversationMessage :=
  if Z.of_nat (length h) <=? maxHistory s then h
  else dropLeadingAssistant (Js.slice1 h (- maxHistory s)).

(** ** Persistence *)

Definition messageJson (m : ConversationMessage) : json :=
  JObj [("role", JStr (roleId (role m))); ("content", JStr (content m))].

Definition overridesJson (o : gmap ProviderName string) : json :=
  JObj ((fun kv => (providerId kv.1, JStr kv.2)) <$> map_to_list o).

Definition sessionJson (c : ChatSession) : json :=
  JObj [("provider", JStr (providerId (provider c)));
        ("history", JArr (messageJson <$> history c));
        ("modelOverrides", overridesJson (modelOverrides c));
        ("reasoningEffortOverrides", overridesJson (reasoningEffortOverrides c))].

(** The document [persist] writes: [JSON.stringify(payload, null, 2)],
    read back by [JSON.parse]. *)
Definition payload (io : PersistIO) (m : gmap string ChatSession) : json :=
  JObj [("version", JNum 1);
        ("savedAt", JStr (savedAt io));
        ("sessions", JObj ((fun kv => (kv.1, sessionJson kv.2)) <$> map_to_list m))].

Definition persist (io : PersistIO) (w : World) : World :=
  match persistencePath (store w) with
  | None => w
  | Some _ =>
      if writeOk io
      then MkWorld (store w) (Parsed (payload io (sessions (store w))))
      else w
  end.

Definition loadSession (s : Store) (value : json) : ChatSession :=
  Session (normalizeProvider (get value "provider") (defaultProvider s))
          (trimHistory s (normalizeHistory (get value "history")))
          (normalizeOverrides (get value "modelOverrides"))
          (normalizeOverrides (get value "reasoningEffortOverrides")).

Definition loadEntries (s : Store) (entries : list (string * json))
  : gmap string ChatSession :=
  foldl (fun m kv =>
           if isRecord (Some kv.2) then <[kv.1 := loadSession s kv.2]> m else m)
        (sessions s) entries.

Definition loadFromDisk (s : Store) (d : DiskFile) : Store :=
  match persistencePath s, d with
  | Some _, Parsed raw =>
      match get raw "version", get raw "sessions" with
      | Some (JNum 1), Some (JObj entries) => withSessions s (loadEntries s entries)
      | _, _ => s
      end
  | _, _ => s
  end.

(** [new SessionStore(defaultProvider, maxHistory, persistencePath)]:
    [this.persistencePath = persistencePath?.trim() || undefined], then
    [loadFromDisk]. *)
Definition create (dp : ProviderName) (mh : Z) (path : option string)
  (d : DiskFile) : World :=
  let path' := match path with
               | Some p => if Js.truthy (Js.trim p) then Some (Js.trim p) else None
               | None => None
               end in
  MkWorld (loadFromDisk (MkStore dp mh path' ∅) d) d.

(** ** Operations *)

Definition getSessionCount (s : Store) : nat := size (sessions s).

Definition getOrCreate (chatKey : string) (s : Store) : ChatSession * Store :=
  match sessions s !! chatKey with
  | Some existing => (existing, s)
  | None =>
      let session := Session (defaultProvider s) [] ∅ ∅ in
      (session, withSessions s (<[chatKey := session]> (sessions s)))
  end.

(** A method that fetches the session object, mutates it in place and
    persists: the object is the one held by the map. *)
Definition mutate (chatKey : string) (f : ChatSession -> ChatSession)
  (io : PersistIO) (w : World) : World :=
  let '(session, s) := getOrCreate chatKey (store w) in
  persist io (MkWorld (withSessions s (<[chatKey := f session]> (sessions s))) (disk w)).

Definition getProvider (chatKey : string) (w : World) : ProviderName * World :=
  let '(session, s) := getOrCreate chatKey (store w) in
  (provider session, MkWorld s (disk w)).

Definition setProvider (chatKey : string) (p : ProviderName) :=
  mutate chatKey (fun c =>
    Session p (history c) (modelOverrides c) (reasoningEffortOverrides c)).

Definition reset (chatKey : string) (io : PersistIO) (w : World) : World :=
  persist io (MkWorld (withSessions (store w) (delete chatKey (sessions (store w))))
                      (disk w)).

Definition getModel (chatKey : string) (p : ProviderName) (w : World)
  : option string * World :=
  let '(session, s) := getOrCreate chatKey (store w) in
  (modelOverrides session !! p, MkWorld s (disk w)).

(** [!value?.trim()] for [value : string | undefined] *)
Definition isBlank (value : option string) : bool :=
  match value with
  | None => true
  | Some v => negb (Js.truthy (Js.trim v))
  end.

Definition setOverride (p : ProviderName) (value : option string)
  (o : gmap ProviderName string) : gmap ProviderName string :=
  match value with
  | Some v => if isBlank value then delete p o else <[p := Js.trim v]> o
  | None => delete p o
  end.

Definition setModel (chatKey : string) (p : ProviderName) (model : option string) :=
  mutate chatKey (fun c =>
    Session (provider c) (history c) (setOverride p model (modelOverrides c))
            (reasoningEffortOverrides c)).

Definition getReasoningEffort (chatKey : string) (p : ProviderName) (w : World)
  : option string * World :=
  let '(session, s) := getOrCreate chatKey (store w) in
  (reasoningEffortOverrides session !! p, MkWorld s (disk w)).

Definition setReasoningEffort (chatKey : string) (p : ProviderName)
  (effort : option string) :=
  mutate chatKey (fun c =>
    Session (provider c) (history c) (modelOverrides c)
            (setOverride p effort (reasoningEffortOverrides c))).

Definition buildPrompt (chatKey userText : string) (systemPrompt : option string)
  (w : World) : list ConversationMessage * World :=
  let '(session, s) := getOrCreate chatKey (store w) in
  let messages :=
    match systemPrompt with
    | Some sp => if Js.truthy sp then [Message system sp] else []
    | None => []
    end in
  (messages ++ history session ++ [Message user userText], MkWorld s (disk w)).

(** The body of [appendExchange] on the history array. *)
Definition pushExchange (mh : Z) (h : list ConversationMessage)
  (userText assistantText : string) : list ConversationMessage :=
  let h' := h ++ [Message user userText] ++ [Message assistant assistantText] in
  if Z.of_nat (length h') >? mh
  then dropLeadingAssistant (Js.slice1 h' (- mh))
  else h'.

Definition appendExchange (chatKey userText assistantText : string)
  (io : PersistIO) (w : World) : World :=
  mutate chatKey (fun c =>
    Session (provider c)
            (pushExchange (maxHistory (store w)) (history c) userText assistantText)
            (modelOverrides c) (reasoningEffortOverrides c)) io w.

(** The history a conversation has: a key without a session reads as the
    empty history [getOrCreate] would give it. *)
Definition historyOf (chatKey : string) (w : World) : list ConversationMessage :=
  match sessions (store w) !! chatKey with
  | Some c => history c
  | None => []
  end.

(** ** Reachable states

    The calls a client can make on the store, and a restart of the process
    (a new store object over the same configuration and the same file). *)
Inductive Op : Type :=
| OGetProvider (chatKey : string)
| OSetProvider (chatKey : string) (p : ProviderName)
| OReset (chatKey : string)
| OGetModel (chatKey : string) (p : ProviderName)
| OSetModel (chatKey : string) (p : ProviderName) (model : option string)
| OGetReasoningEffort (chatKey : string) (p : ProviderName)
| OSetReasoningEffort (chatKey : string) (p : ProviderName) (effort : option string)
| OBuildPrompt (chatKey userText : string) (systemPrompt : option string)
| OAppendExchange (chatKey userText assistantText : string)
| ORestart.

Definition restart (w : World) : World :=
  MkWorld (loadFromDisk (withSessions (store w) ∅) (disk w)) (disk w).

Definition applyOp (io : PersistIO) (op : Op) (w : World) : World :=
  match op with
  | OGetProvider k => (getProvider k w).2
  | OSetProvider k p => setProvider k p io w
  | OReset k => reset k io w
  | OGetModel k p => (getModel k p w).2
  | OSetModel k p m => setModel k p m io w
  | OGetReasoningEffort k p => (getReasoningEffort k p w).2
  | OSetReasoningEffort k p e => setReasoningEffort k p e io w
  | OBuildPrompt k u sp => (buildPrompt k u sp w).2
  | OAppendExchange k u a => appendExchange k u a io w
  | ORestart => restart w
  end.

Definition runOps (ops : list (Op * PersistIO)) (w : World) : World :=
  foldl (fun w oi => applyOp oi.2 oi.1 w) w ops.

(** The texts the orchestrator hands to [appendExchange] are never empty
    (the bot drops blank messages, the adapters reject an empty reply). *)
Definition nonEmptyExchange (op : Op) : bool :=
  match op with
  | OAppendExchange _ u a => Js.truthy u && Js.truthy a
  | _ => true
  end.

(** [history[0].role === "user"] whenever [history] is non-empty *)
Definition userFirst (h : list ConversationMessage) : bool :=
  match h with
  | [] => true
  | m :: _ => bool_decide (role m = user)
  end.

(** ** Invariants of the session map *)

(** The roles alternate, beginning with [user] when [expectUser], and the
    history ends on an assistant message. *)
Fixpoint alternates (expectUser : bool) (h : list ConversationMessage) : bool :=
  match h with
  | [] => expectUser
  | m :: r =>
      bool_decide (role m = if expectUser then user else assistant)
      && alternates (negb expectUser) r
  end.

(** An override as [setModel] / [setReasoningEffort] leave it: trimmed and
    not blank. *)
Definition normalOverrides (o : gmap ProviderName string) : Prop :=
  forall p v, o !! p = Some v -> Js.trim v = v /\ v <> "".

Definition storableMessage (m : ConversationMessage) : Prop :=
  role m <> system /\ content m <> "".

(** A session that [loadFromDisk] reads back as it is. *)
Definition storable (mh : Z) (c : ChatSession) : Prop :=
  Forall storableMessage (history c)
  /\ Z.of_nat (length (history c)) <= mh
  /\ normalOverrides (modelOverrides c)
  /\ normalOverrides (reasoningEffortOverrides c).

Definition wellFormed (mh : Z) (c : ChatSession) : Prop :=
  storable mh c /\ alternates true (history c) = true.

(** The file is absent or unreadable, or is one the store wrote from
    well-formed sessions. *)
Definition diskGood (mh : Z) (d : DiskFile) : Prop :=
  match d with
  | Parsed raw =>
      exists io m, raw = payload io m /\ map_Forall (fun _ c => wellFormed mh c) m
  | _ => True
  end.

Definition noSessionFile (d : DiskFile) : bool :=
  match d with
  | Parsed _ => false
  | _ => true
  end.

(** The session [getOrCreate] makes for a key it does not know. *)
Definition fresh (s : Store) : ChatSession := Session (defaultProvider s) [] ∅ ∅.

(** Two store objects over the same constructor arguments. *)
Definition sameConfig (s s' : Store) : Prop :=
  defaultProvider s' = defaultProvider s
  /\ maxHistory s' = maxHistory s
  /\ persistencePath s' = persistencePath s.

(** Every session is well formed and so is what the file holds. *)
Definition healthy (w : World) : Prop :=
  map_Forall (fun _ => wellFormed (maxHistory (store w))) (sessions (store w))
  /\ diskGood (maxHistory (store w)) (disk w).

(** [history.length <= maxHistory] *)
Definition bounded (mh : Z) (h : list ConversationMessage) : Prop :=
  Z.of_nat (length h) <= mh.

(** An operation whose appended texts are among the [allowed] ones. *)
Definition opAllowed (allowed : string -> string -> Prop) (op : Op) : Prop :=
  match op with
  | OAppendExchange _ u a => allowed u a
  | _ => True
  end.

(** The world a getter leaves behind: [getOrCreate] may have added the
    session. *)
Definition touch (chatKey : string) (w : World) : World :=
  MkWorld (getOrCreate chatKey (store w)).2 (disk w).

End SessionStore.

(* ===================================================================== *)
(** * Conversation orchestrator (src/chat/chat-service.ts) *)
(* ===================================================================== *)

Module ChatService.
Import SessionStore.

Record ProviderStreamOptions : Type := StreamOptions {
  model : option string;
  reasoningEffort : option string
}.

(** [LlmProvider.stream], by how the promise it returns settles. *)
Definition LlmProvider : Type :=
  list ConversationMessage -> ProviderStreamOptions -> Settled string.

(** The fields of the class; [providers] is a [Map], kept in insertion
    order with distinct keys. *)
Record Service : Type := MkService {
  providers : list (ProviderName * LlmProvider);
  systemPrompt : option string
}.

Definition providersGet (svc : Service) (p : ProviderName) : option LlmProvider :=
  snd <$> List.find (fun kv => bool_decide (kv.1 = p)) (providers svc).

Definition getAvailableProviders (svc : Service) : list ProviderName :=
  fst <$> providers svc.

(** What [askStream] holds while it awaits [provider.stream]. *)
Record InFlight : Type := MkInFlight {
  providerName : ProviderName;
  prompt : list ConversationMessage;
  options : ProviderStreamOptions;
  adapter : LlmProvider
}.

(** [askStream] up to the call of [provider.stream]. *)
Definition askStreamBegin (svc : Service) (chatKey userText : string)
  (io : PersistIO) (w : World) : Settled InFlight * World :=
  let '(name0, w1) := getProvider chatKey w in
  let resolved :=
    match providersGet svc name0 with
    | Some provider => (Fulfilled (name0, provider), w1)
    | None =>
        match getAvailableProviders svc with
        | [] => (Rejected "No LLM providers are available.", w1)
        | fallback :: _ =>
            let w2 := setProvider chatKey fallback io w1 in
            match providersGet svc fallback with
            | Some provider => (Fulfilled (fallback, provider), w2)
            | None =>
                (Rejected ("Provider '" +:+ providerId fallback +:+ "' is not available."),
                 w2)
            end
        end
    end in
  match resolved with
  | (Rejected e, w') => (Rejected e, w')
  | (Fulfilled (name, provider), w2) =>
      let '(prompt, w3) := buildPrompt chatKey userText (systemPrompt svc) w2 in
      let '(selectedModel, w4) := getModel chatKey name w3 in
      let '(selectedReasoningEffort, w5) := getReasoningEffort chatKey name w4 in
      (Fulfilled (MkInFlight name prompt
                    (StreamOptions selectedModel selectedReasoningEffort) provider),
       w5)
  end.

(** [askStream] from the point where [provider.stream] has settled. *)
Definition askStreamEnd (chatKey userText : string) (name : ProviderName)
  (streamed : Settled string) (io : PersistIO) (w : World)
  : Settled (ProviderName * string) * World :=
  match streamed with
  | Rejected e => (Rejected e, w)
  | Fulfilled reply =>
      (Fulfilled (name, reply), appendExchange chatKey userText reply io w)
  end.

(** One whole request with nothing else running in between. *)
Definition askStream (svc : Service) (chatKey userText : string)
  (io1 io2 : PersistIO) (w : World) : Settled (ProviderName * string) * World :=
  match askStreamBegin svc chatKey userText io1 w with
  | (Rejected e, w') => (Rejected e, w')
  | (Fulfilled f, w') =>
      askStreamEnd chatKey userText (providerName f)
                   (adapter f (prompt f) (options f)) io2 w'
  end.

(** ** The per-key lock, [withChatLock]

    Every call makes one [tail] promise; call number [i] is identified with
    its tail.  [previous] is the tail found in [chatLocks], or [None] for
    [Promise.resolve()]. *)
Inductive Status : Type := Waiting | Running | Finished.

#[global] Instance Status_eq_dec : EqDecision Status.
Proof. solve_decision. Defined.

Record Request : Type := MkRequest {
  key : string;
  previous : option nat;
  status : Status
}.

Record Locks : Type := MkLocks {
  chatLocks : gmap string nat;
  requests : list Request
}.

Definition noLocks : Locks := MkLocks ∅ [].

(** Whether the tail of call [i] has resolved:
    [previous.catch(..).then(() => current)] resolves once [previous] has
    settled and [current] has been released. *)
Fixpoint tailResolved (fuel : nat) (rs : list Request) (i : nat) : bool :=
  match fuel with
  | O => false
  | S fuel' =>
      match rs !! i with
      | None => false
      | Some r =>
          bool_decide (status r = Finished) &&
          match previous r with
          | None => true
          | Some j => tailResolved fuel' rs j
          end
      end
  end.

Definition previousSettled (rs : list Request) (r : Request) : bool :=
  match previous r with
  | None => true
  | Some j => tailResolved (S j) rs j
  end.

(** The three points at which a call of [withChatLock] runs. *)
Inductive LockEvent : Type :=
| Call (chatKey : string)      (* entry, down to the first [await] *)
| Resume (i : nat)             (* [await previous] is over: [task()] starts *)
| Settle (i : nat).            (* [task()] has settled: the [finally] block *)

Definition setStatus (i : nat) (st : Status) (rs : list Request) : list Request :=
  match rs !! i with
  | Some r => <[i := MkRequest (key r) (previous r) st]> rs
  | None => rs
  end.

Definition lockStep (l : Locks) (e : LockEvent) : option Locks :=
  match e with
  | Call chatKey =>
      let i := length (requests l) in
      Some (MkLocks (<[chatKey := i]> (chatLocks l))
                    (requests l ++ [MkRequest chatKey (chatLocks l !! chatKey) Waiting]))
  | Resume i =>
      match requests l !! i with
      | Some r =>
          if bool_decide (status r = Waiting) && previousSettled (requests l) r
          then Some (MkLocks (chatLocks l) (setStatus i Running (requests l)))
          else None
      | None => None
      end
  | Settle i =>
      match requests l !! i with
      | Some r =>
          if bool_decide (status r = Running)
          then Some (MkLocks
                       (if bool_decide (chatLocks l !! key r = Some i)
                        then delete (key r) (chatLocks l)
                        else chatLocks l)
                       (setStatus i Finished (requests l)))
          else None
      | None => None
      end
  end.

Fixpoint lockRun (l : Locks) (es : list LockEvent) : option Locks :=
  match es with
  | [] => Some l
  | e :: es' =>
      match lockStep l e with
      | Some l' => lockRun l' es'
      | None => None
      end
  end.

(** Call [i] is executing its task. *)
Definition inFlight (l : Locks) (i : nat) (chatKey : string) : Prop :=
  exists r, requests l !! i = Some r /\ key r = chatKey /\ status r = Running.

(** What the lock map and the calls made so far always satisfy.
    [previous] of a call is the call before it on the same key, or is
    [Promise.resolve()] when every earlier call on the key has finished;
    the map holds the last call of a key, and holds nothing for a key whose
    calls have all finished; a call that has started has every earlier call
    on its key finished. *)
Record lockInv (l : Locks) : Prop := MkLockInv {
  inv_prev_some : forall i r j,
    requests l !! i = Some r -> previous r = Some j ->
    (j < i)%nat
    /\ (exists rj, requests l !! j = Some rj /\ key rj = key r)
    /\ (forall m rm, (j < m < i)%nat -> requests l !! m = Some rm -> key rm <> key r);
  inv_prev_none : forall i r,
    requests l !! i = Some r -> previous r = None ->
    forall m rm, (m < i)%nat -> requests l !! m = Some rm -> key rm = key r ->
                 status rm = Finished;
  inv_tail : forall k n,
    chatLocks l !! k = Some n ->
    (exists r, requests l !! n = Some r /\ key r = k)
    /\ (forall m rm, (n < m)%nat -> requests l !! m = Some rm -> key rm <> k);
  inv_free : forall k,
    chatLocks l !! k = None ->
    forall m rm, requests l !! m = Some rm -> key rm = k -> status rm = Finished;
  inv_started : forall i r,
    requests l !! i = Some r -> status r <> Waiting ->
    forall m rm, (m < i)%nat -> requests l !! m = Some rm -> key rm = key r ->
                 status rm = Finished
}.

(** Every call on the key of [r] made before call [i] has finished. *)
Definition earlierFinished (l : Locks) (i : nat) (r : Request) : Prop :=
  forall m rm, (m < i)%nat -> requests l !! m = Some rm -> key rm = key r ->
               status rm = Finished.

End ChatService.

(* ===================================================================== *)
(** * Edit coalescer (src/bots/stream-edit.ts) *)
(* ===================================================================== *)

Module StreamEdit.

(** The closure variables of [createStreamEditController]. *)
Record Vars : Type := MkVars {
  pending : option string;
  lastApplied : string;
  lastEditAt : Z;
  processing : bool
}.

(** Whose call of [run] is the drain in progress: one made by [queue]
    ([void run()]) or the one a [flush] of the given text awaits. *)
Inductive Caller : Type :=
| ByQueue
| ByFlush (text : string).

(** Where the drain in progress is suspended. *)
Inductive Phase : Type :=
| Idle
| Sleeping (text : string) (wakeAt : Z) (c : Caller)   (* [await sleep(wait)] *)
| Editing (text : string) (c : Caller).                (* [await edit(text)]  *)

Record State : Type := MkState {
  vars : Vars;
  phase : Phase;
  clock : Z      (* the latest reading of [Date.now()] *)
}.

(** The points at which the event loop enters the controller; each carries
    the reading of [Date.now()] at that point. *)
Inductive Event : Type :=
| Queue (text : string) (now : Z)
| Flush (text : string) (now : Z)
| TimerFired (now : Z)                  (* the [setTimeout] of [sleep] *)
| EditSettled (ok : bool) (now : Z).    (* the promise of [edit(text)] *)

(** What can be observed from outside. *)
Inductive Obs : Type :=
| FlushCalled (text : string)
| Publish (text : string) (now : Z)     (* [edit(text)] is invoked *)
| Applied (text : string) (now : Z)     (* [edit(text)] fulfilled *)
| EditFailed (text : string) (now : Z)  (* [edit(text)] rejected *)
| FlushReturned (text : string) (ok : bool).

Definition eventTime (e : Event) : Z :=
  match e with
  | Queue _ now | Flush _ now | TimerFired now | EditSettled _ now => now
  end.

Definition initial : State := MkState (MkVars None "" 0 false) Idle 0.

Section Controller.

Variable intervalMs : Z.

(** [run] returns: the [finally] block, then the caller's continuation. *)
Definition finish (ok : bool) (c : Caller) (v : Vars) : Vars * Phase * list Obs :=
  (MkVars (pending v) (lastApplied v) (lastEditAt v) false,
   Idle,
   match c with
   | ByFlush text => [FlushReturned text ok]
   | ByQueue => []
   end).

(** One pass of [while (pending !== null)] down to the next [await].  A
    [continue] re-tests the condition right after [pending = null] and so
    leaves the loop. *)
Definition loop (now : Z) (c : Caller) (v : Vars) : Vars * Phase * list Obs :=
  match pending v with
  | None => finish true c v
  | Some text =>
      let v1 := MkVars None (lastApplied v) (lastEditAt v) (processing v) in
      if negb (Js.truthy text) || String.eqb text (lastApplied v1)
      then finish true c v1
      else
        let wait := intervalMs - (now - lastEditAt v1) in
        if wait >? 0
        then (v1, Sleeping text (now + wait) c, [])
        else (v1, Editing text c, [Publish text now])
  end.

(** [run()] called with the controller in phase [ph]. *)
Definition run (now : Z) (c : Caller) (v : Vars) (ph : Phase)
  : Vars * Phase * list Obs :=
  if processing v
  then (v, ph, match c with
               | ByFlush text => [FlushReturned text true]
               | ByQueue => []
               end)
  else loop now c (MkVars (pending v) (lastApplied v) (lastEditAt v) true).

Definition setPending (text : string) (v : Vars) : Vars :=
  MkVars (Some text) (lastApplied v) (lastEditAt v) (processing v).

Definition step (s : State) (e : Event) : option (State * list Obs) :=
  if eventTime e <? clock s then None
  else
    match e with
    | Queue text now =>
        let '(v, ph, obs) := run now ByQueue (setPending text (vars s)) (phase s) in
        Some (MkState v ph now, obs)
    | Flush text now =>
        let '(v, ph, obs) := run now (ByFlush text) (setPending text (vars s)) (phase s) in
        Some (MkState v ph now, FlushCalled text :: obs)
    | TimerFired now =>
        match phase s with
        | Sleeping text wakeAt c =>
            if now <? wakeAt then None
            else Some (MkState (vars s) (Editing text c) now, [Publish text now])
        | _ => None
        end
    | EditSettled true now =>
        match phase s with
        | Editing text c =>
            let v := vars s in
            let '(v', ph, obs) :=
              loop now c (MkVars (pending v) text now (processing v)) in
            Some (MkState v' ph now, Applied text now :: obs)
        | _ => None
        end
    | EditSettled false now =>
        match phase s with
        | Editing text c =>
            let '(v', ph, obs) := finish false c (vars s) in
            Some (MkState v' ph now, EditFailed text now :: obs)
        | _ => None
        end
    end.

Fixpoint exec (s : State) (es : list Event) : option (State * list Obs) :=
  match es with
  | [] => Some (s, [])
  | e :: es' =>
      match step s e with
      | Some (s1, o1) =>
          match exec s1 es' with
          | Some (s2, o2) => Some (s2, o1 ++ o2)
          | None => None
          end
      | None => None
      end
  end.

End Controller.

(** The texts [edit] was invoked with, in order. *)
Definition publishes (obs : list Obs) : list string :=
  omap (fun o => match o with Publish text _ => Some text | _ => None end) obs.

(** The times at which [edit] was invoked, in order. *)
Definition publishTimes (obs : list Obs) : list Z :=
  omap (fun o => match o with Publish _ now => Some now | _ => None end) obs.

(** A timer going off or an edit going through: what follows the last call
    made on the controller. *)
Definition isCompletion (e : Event) : bool :=
  match e with
  | TimerFired _ | EditSettled true _ => true
  | _ => false
  end.

Definition isQueue (e : Event) : bool :=
  match e with
  | Queue _ _ | TimerFired _ | EditSettled _ _ => true
  | Flush _ _ => false
  end.

(** The time an observation was made at. *)
Definition obsTime (o : Obs) : option Z :=
  match o with
  | Publish _ now | Applied _ now | EditFailed _ now => Some now
  | FlushCalled _ | FlushReturned _ _ => None
  end.

(** What holds of the controller between two events: [processing] is set
    exactly while a drain is suspended; the text a drain carries is not
    empty; a sleeping drain wakes no earlier than the interval after the
    last successful edit; and that edit is not in the future. *)
Record stateInv (intervalMs : Z) (s : State) : Prop := MkStateInv {
  inv_processing : processing (vars s) = false <-> phase s = Idle;
  inv_text : forall text,
    (exists wakeAt c, phase s = Sleeping text wakeAt c) \/ (exists c, phase s = Editing text c) ->
    text <> "";
  inv_wake : forall text wakeAt c,
    phase s = Sleeping text wakeAt c -> lastEditAt (vars s) + intervalMs <= wakeAt;
  inv_clock : lastEditAt (vars s) <= clock s
}.

(** What the caller of a drain sees when the drain ends normally. *)
Definition returned (c : Caller) : list Obs :=
  match c with
  | ByFlush text => [FlushReturned text true]
  | ByQueue => []
  end.

End StreamEdit.

(* ===================================================================== *)
(** * Subprocess streaming executor (src/providers/run-jsonl-cli.ts) *)
(* ===================================================================== *)

Module RunJsonlCli.

Record JsonlResult : Type := MkResult {
  code : Z;
  signal : option string;
  stderrTail : string
}.

(** What the child process does, as the listeners see it. *)
Inductive ChildEvent : Type :=
| StdoutData (chunk : string)
| StderrData (chunk : string)
| SpawnError (message : string)
| Close (exitCode : option Z) (sig : option string).

(** A callback invocation, as recorded by the model. *)
Inductive Invocation : Type :=
| LineCall (line : string)
| StderrCall (text : string).

Definition tailText (text : string) (size : Z) : string :=
  if Js.strlen text >? size then Js.sslice1 text (Js.strlen text - size) else text.

Section Executor.

(** The state the callbacks close over and update. *)
Context {H : Type}.

(** A callback takes that state to a new one, or throws (its promise
    rejects). *)
Record JsonlCallbacks : Type := MkCallbacks {
  onLine : string -> H -> Settled H;
  onStderr : option (string -> H -> Settled H)
}.

Variable callbacks : JsonlCallbacks.

(** The local variables of [runJsonlCli].  [callbackQueue] is the promise
    chain: [Fulfilled h] when every callback so far has completed, leaving
    [h]; [Rejected] once one has thrown.  [promise] is the promise
    [runJsonlCli] returned; [invoked] records the invocations made. *)
Record Exec : Type := MkExec {
  stderr : string;
  stdoutBuffer : string;
  callbackQueue : Settled H;
  failed : bool;
  promise : option (Settled JsonlResult);
  invoked : list Invocation
}.

Definition start (h : H) : Exec := MkExec "" "" (Fulfilled h) false None [].

(** [resolve] and [reject] only take effect on a pending promise. *)
Definition settle (r : Settled JsonlResult) (e : Exec) : Exec :=
  MkExec (stderr e) (stdoutBuffer e) (callbackQueue e) (failed e)
         (match promise e with None => Some r | Some r0 => Some r0 end)
         (invoked e).

(** [queue(fn)]: [fn] runs once the chain before it has completed, unless
    [failed]; when it throws, the chain rejects, [failed] is set and the
    promise is rejected.  A callback queued on a rejected chain never
    runs. *)
Definition queue (call : Invocation) (fn : H -> Settled H) (e : Exec) : Exec :=
  match callbackQueue e with
  | Rejected _ => e
  | Fulfilled h =>
      if failed e then e
      else
        match fn h with
        | Fulfilled h' =>
            MkExec (stderr e) (stdoutBuffer e) (Fulfilled h') (failed e)
                   (promise e) (invoked e ++ [call])
        | Rejected err =>
            settle (Rejected err)
                   (MkExec (stderr e) (stdoutBuffer e) (Rejected err) true
                           (promise e) (invoked e ++ [call]))
        end
  end.

Definition deliver (line : string) (e : Exec) : Exec :=
  if Js.truthy line then queue (LineCall line) (onLine callbacks line) e else e.

Definition setBuffer (buf : string) (e : Exec) : Exec :=
  MkExec (stderr e) buf (callbackQueue e) (failed e) (promise e) (invoked e).

(** The [while (newlineIndex >= 0)] loop of the stdout listener. *)
Equations? pump (buf : string) (e : Exec) : Exec by wf (String.length buf) lt :=
  pump buf e with Logic.inspect (0 <=? Js.indexOf buf Js.LF) := {
    | exist _ true _ =>
        pump (Js.sslice1 buf (Js.indexOf buf Js.LF + 1))
             (deliver (Js.trim (Js.sslice buf 0 (Js.indexOf buf Js.LF))) e)
    | exist _ false _ => setBuffer buf e }.
Proof.
  assert (Hsub : forall s n m, (String.length (String.substring n m s) <= m)%nat).
  { induction s as [|a s IH]; intros [|n] [|m]; simpl; try lia.
    - specialize (IH 0%nat m). lia.
    - apply IH.
    - apply IH. }
  assert (Hpos : (0 < String.length buf)%nat).
  { destruct buf; simpl in *; [discriminate | lia]. }
  unfold Js.sslice1, Js.sslice, Js.clampIndex, Js.strlen.
  set (i := Js.indexOf buf Js.LF) in *.
  apply Z.leb_le in e0.
  eapply Nat.le_lt_trans; [apply Hsub |].
  repeat match goal with |- context [if ?b then _ else _] => destruct b eqn:? end; lia.
Qed.

Definition step (e : Exec) (ev : ChildEvent) : Exec :=
  match ev with
  | StdoutData chunk => pump (stdoutBuffer e +:+ chunk) e
  | StderrData text =>
      let e1 := MkExec (tailText (stderr e +:+ text) 12000) (stdoutBuffer e)
                       (callbackQueue e) (failed e) (promise e) (invoked e) in
      match onStderr callbacks with
      | Some f => queue (StderrCall text) (f text) e1
      | None => e1
      end
  | SpawnError message =>
      settle (Rejected message)
             (MkExec (stderr e) (stdoutBuffer e) (callbackQueue e) true
                     (promise e) (invoked e))
  | Close exitCode sig =>
      if failed e then e
      else
        let e1 := deliver (Js.trim (stdoutBuffer e)) e in
        match callbackQueue e1 with
        | Fulfilled _ =>
            settle (Fulfilled (MkResult (default 1 exitCode) sig (Js.trim (stderr e1)))) e1
        | Rejected err => settle (Rejected err) e1
        end
  end.

(** The child's events, in order, from spawn on. *)
Definition runJsonlCli (h : H) (events : list ChildEvent) : Exec :=
  foldl step (start h) events.

End Executor.

(** The lines [onLine] was invoked with, in order. *)
Definition linesOf (calls : list Invocation) : list string :=
  omap (fun c => match c with LineCall l => Some l | StderrCall _ => None end) calls.

(** Everything the child wrote to its standard output. *)
Definition stdoutOf (events : list ChildEvent) : string :=
  foldr (fun ev acc => match ev with StdoutData c => c +:+ acc | _ => acc end)
        "" events.

Definition isData (ev : ChildEvent) : bool :=
  match ev with
  | StdoutData _ | StderrData _ => true
  | _ => false
  end.

(** The lines of [out] in the executor's sense: the pieces between line
    feeds, trimmed of surrounding white space, blank ones left out. *)
Definition trimmedLines (out : string) : list string :=
  List.filter Js.truthy (Js.trim <$> Js.split out Js.LF).

(** [out] cut at its line feeds: the complete lines, without their
    delimiter, and what follows the last line feed. *)
Fixpoint cut (out : string) : list string * string :=
  match out with
  | EmptyString => ([], EmptyString)
  | String a r =>
      let '(ls, rest) := cut r in
      if Ascii.eqb a Js.LF then (EmptyString :: ls, rest)
      else match ls with
           | [] => ([], String a rest)
           | l :: ls' => (String a l :: ls', rest)
           end
  end.


(** A line feed, as a string. *)
Definition nl : string := String Js.LF EmptyString.

Section Chain.

Context {H : Type}.
Variable callbacks : @JsonlCallbacks H.

(** One invocation, on the state the previous one left. *)
Definition invoke (call : Invocation) (h : H) : Settled H :=
  match call with
  | LineCall line => onLine callbacks line h
  | StderrCall text =>
      match onStderr callbacks with
      | Some f => f text h
      | None => Fulfilled h
      end
  end.

(** Invocations made one after the other, each on the state left by the
    one before, up to the first that throws. *)
Fixpoint feed (calls : list Invocation) (q : Settled H) : Settled H :=
  match calls with
  | [] => q
  | call :: rest =>
      match q with
      | Fulfilled h => feed rest (invoke call h)
      | Rejected err => Rejected err
      end
  end.

(** The chain is what the invocations made so far, run in order from the
    initial state, have come to. *)
Definition chained (h0 : H) (e : @Exec H) : Prop :=
  callbackQueue e = feed (invoked e) (Fulfilled h0).

(** Where the executor stands when the lines read so far are [lines]:
    either every callback has completed, nothing has failed, the promise is
    pending and the line handler has been invoked with exactly [lines]; or a
    callback has thrown, the promise is rejected with its error, and the
    line handler has been invoked with the first few of [lines]. *)
Definition tracking (e : @Exec H) (lines : list string) : Prop :=
  match callbackQueue e with
  | Fulfilled _ =>
      failed e = false /\ promise e = None /\ linesOf (invoked e) = lines
  | Rejected err =>
      failed e = true /\ promise e = Some (Rejected err)
      /\ linesOf (invoked e) `prefix_of` lines
  end.

(** The non-blank trimmed pieces among the complete lines of [out]. *)
Definition completeLines (out : string) : list string :=
  List.filter Js.truthy (Js.trim <$> (cut out).1).


End Chain.

End RunJsonlCli.

(* ===================================================================== *)
(** * Codex adapter (src/providers/codex-cli-provider.ts) *)
(* ===================================================================== *)

Module CodexCli.
Import Json RunJsonlCli.

(** [v?.trim()] on a value of any type: [undefined] for [undefined] and
    [null], a [TypeError] for a value that has no [trim]. *)
Definition optTrim (v : option json) : Settled (option string) :=
  match v with
  | None | Some JNull => Fulfilled None
  | Some (JStr s) => Fulfilled (Some (Js.trim s))
  | Some _ => Rejected "TypeError: trim is not a function"
  end.

(** [v?.k] *)
Definition optGet (v : option json) (k : string) : option json :=
  match v with
  | None | Some JNull => None
  | Some j => get j k
  end.

(** [event.type === t] *)
Definition typeIs (event : json) (t : string) : bool :=
  match get event "type" with
  | Some (JStr s) => String.eqb s t
  | _ => false
  end.

Definition noisyPattern : string :=
  "rollout::list: state db missing rollout path for thread".

Definition extractUsefulStderr (stderrTail : string) : string :=
  let lines :=
    List.filter (fun line => (0 <? Js.strlen line) && negb (Js.includes line noisyPattern))
                (Js.trim <$> Js.split stderrTail Js.LF) in
  default "" (last lines).

Section Provider.

(** The state the caller's callbacks close over. *)
Context {CB : Type}.

(** [JSON.parse]; [None] when it throws. *)
Variable JSON_parse : string -> option json.

(** [String(v)], as applied by a template literal or by [+=] to a value
    that is not a string. *)
Variable toDisplay : json -> string.

Record ProviderStreamCallbacks : Type := MkStreamCallbacks {
  onText : string -> CB -> Settled CB;
  onStatus : option (string -> CB -> Settled CB)
}.

Variable callbacks : ProviderStreamCallbacks.

(** The local variables of [stream] the line handler updates, with the
    state of the caller's callbacks. *)
Record Local : Type := MkLocal {
  reply : string;
  cliErrorMessage : string;
  cbState : CB
}.

Definition interpolate (j : json) : string :=
  match j with
  | JStr s => s
  | _ => toDisplay j
  end.

Definition extractCodexErrorMessage (raw : option json) : Settled string :=
  match optTrim raw with
  | Rejected e => Rejected e
  | Fulfilled None => Fulfilled ""
  | Fulfilled (Some trimmed) =>
      if negb (Js.truthy trimmed) then Fulfilled ""
      else
        Fulfilled
          match JSON_parse trimmed with
          | None | Some JNull => trimmed          (* thrown and caught *)
          | Some parsed =>
              match optTrim (get parsed "detail") with
              | Rejected _ => trimmed             (* thrown and caught *)
              | Fulfilled d =>
                  if Js.truthy (default "" d) then default "" d
                  else
                    match optTrim (get parsed "message") with
                    | Rejected _ => trimmed       (* thrown and caught *)
                    | Fulfilled m =>
                        if Js.truthy (default "" m) then default "" m else trimmed
                    end
              end
          end
  end.

Definition recordError (l : Local) (raw : option json) : Settled Local :=
  match extractCodexErrorMessage raw with
  | Rejected e => Rejected e
  | Fulfilled errorMessage =>
      Fulfilled (if Js.truthy errorMessage
                 then MkLocal (reply l) errorMessage (cbState l)
                 else l)
  end.

(** [reply = text; await callbacks.onText(reply)] *)
Definition emitText (l : Local) (text : string) : Settled Local :=
  match onText callbacks text (cbState l) with
  | Fulfilled c => Fulfilled (MkLocal text (cliErrorMessage l) c)
  | Rejected e => Rejected e
  end.

Definition isString (v : option json) : bool :=
  match v with
  | Some (JStr _) => true
  | _ => false
  end.

(** The [onLine] handler. *)
Definition handleLine (line : string) (l : Local) : Settled Local :=
  match JSON_parse line with
  | None => Fulfilled l
  | Some JNull => Rejected "TypeError: cannot read properties of null"
  | Some event =>
      let item := get event "item" in
      if typeIs event "item.started" then
        if match optGet item "type" with
           | Some (JStr t) => String.eqb t "command_execution"
           | _ => false
           end && truthy (optGet item "command")
        then
          match onStatus callbacks, optGet item "command" with
          | Some f, Some command =>
              match f ("실행 중: " +:+ interpolate command) (cbState l) with
              | Fulfilled c => Fulfilled (MkLocal (reply l) (cliErrorMessage l) c)
              | Rejected e => Rejected e
              end
          | _, _ => Fulfilled l
          end
        else Fulfilled l
      else if typeIs event "error" then
        recordError l (get event "message")
      else if typeIs event "turn.failed" then
        recordError l (optGet (get event "error") "message")
      else if (typeIs event "item.completed" || typeIs event "item.updated")
              && match optGet item "type" with
                 | Some (JStr t) => String.eqb t "agent_message"
                 | _ => false
                 end
              && isString (optGet item "text") then
        match optGet item "text" with
        | Some (JStr text) => emitText l text
        | _ => Fulfilled l
        end
      else if typeIs event "response.output_text.delta" && truthy (get event "delta") then
        match get event "delta" with
        | Some delta => emitText l (reply l +:+ interpolate delta)
        | None => Fulfilled l
        end
      else if typeIs event "response.completed" && isString (get event "output_text") then
        match get event "output_text" with
        | Some (JStr text) => emitText l text
        | _ => Fulfilled l
        end
      else Fulfilled l
  end.

(** [stream] after [runJsonlCli] has resolved with [result]. *)
Definition conclude (result : JsonlResult) (l : Local) : Settled string :=
  let finalReply := Js.trim (reply l) in
  if negb (code result =? 0) then
    if Js.truthy finalReply && negb (Js.truthy (cliErrorMessage l))
    then Fulfilled finalReply
    else
      let structuredError := Js.trim (cliErrorMessage l) in
      let stderrMessage := extractUsefulStderr (stderrTail result) in
      let detail := if Js.truthy structuredError then structuredError else stderrMessage in
      Rejected ("codex CLI exited with code " +:+ pretty (code result) +:+
                (if Js.truthy detail then ": " +:+ detail else ""))
  else if negb (Js.truthy finalReply)
  then Rejected "codex CLI 응답이 비어 있습니다."
  else Fulfilled finalReply.

(** [stream], over what the child process does; [None] while the promise
    stays pending.  The prompt and the argument list only shape what the
    child is started with. *)
Definition stream (cb0 : CB) (events : list ChildEvent) : option (Settled string) :=
  let e := runJsonlCli (MkCallbacks handleLine None) (MkLocal "" "" cb0) events in
  match promise e with
  | None => None
  | Some (Rejected err) => Some (Rejected err)
  | Some (Fulfilled result) =>
      match callbackQueue e with
      | Fulfilled l => Some (conclude result l)
      | Rejected err => Some (Rejected err)
      end
  end.

(** A line that carries the final text of the reply: a completed agent
    message, or a completed response. *)
Definition finalText (line : string) : option string :=
  match JSON_parse line with
  | Some (JObj _ as event) =>
      if typeIs event "item.completed" then
        match optGet (get event "item") "type", optGet (get event "item") "text" with
        | Some (JStr t), Some (JStr text) =>
            if String.eqb t "agent_message" then Some text else None
        | _, _ => None
        end
      else if typeIs event "response.completed" then
        match get event "output_text" with
        | Some (JStr text) => Some text
        | _ => None
        end
      else None
  | _ => None
  end.

(** A line that is not a structured error and does not make the handler
    throw. *)
Definition harmless (line : string) : bool :=
  match JSON_parse line with
  | None => true
  | Some JNull => false
  | Some event => negb (typeIs event "error" || typeIs event "turn.failed")
  end.

(** A line that changes neither the reply nor the recorded error, and does
    not make the handler throw: one that is not JSON, or an event of a type
    that carries neither text nor an error. *)
Definition inert (line : string) : bool :=
  match JSON_parse line with
  | None => true
  | Some JNull => false
  | Some event =>
      negb (typeIs event "error" || typeIs event "turn.failed"
            || typeIs event "item.completed" || typeIs event "item.updated"
            || typeIs event "response.output_text.delta"
            || typeIs event "response.completed")
  end.

(** The caller's callbacks never throw. *)
Definition quiet : Prop :=
  (forall text c, exists c', onText callbacks text c = Fulfilled c')
  /\ (forall f status c, onStatus callbacks = Some f -> exists c', f status c = Fulfilled c').

(** The line handler, as the callbacks the executor is given. *)
Definition lineCallbacks : @JsonlCallbacks Local := MkCallbacks handleLine None.

End Provider.

(** ** Sample output of the child

    Three lines a codex process writes, and what [JSON.parse] makes of
    them; any other line is taken not to be JSON. *)
Definition dq : string := String (ascii_of_N 34) EmptyString.

Definition quoted (s : string) : string := dq +:+ s +:+ dq.

(** [{"type":"error","message":"boom"}] *)
Definition errorLine : string :=
  "{" +:+ quoted "type" +:+ ":" +:+ quoted "error" +:+ ","
      +:+ quoted "message" +:+ ":" +:+ quoted "boom" +:+ "}".

(** [{"type":"item.completed","item":{"type":"agent_message","text":"done"}}] *)
Definition finalLine : string :=
  "{" +:+ quoted "type" +:+ ":" +:+ quoted "item.completed" +:+ ","
      +:+ quoted "item" +:+ ":{" +:+ quoted "type" +:+ ":" +:+ quoted "agent_message"
      +:+ "," +:+ quoted "text" +:+ ":" +:+ quoted "done" +:+ "}}".

(** [{"type":"item.started","item":{"type":"command_execution","command":"ls"}}] *)
Definition startedLine : string :=
  "{" +:+ quoted "type" +:+ ":" +:+ quoted "item.started" +:+ ","
      +:+ quoted "item" +:+ ":{" +:+ quoted "type" +:+ ":" +:+ quoted "command_execution"
      +:+ "," +:+ quoted "command" +:+ ":" +:+ quoted "ls" +:+ "}}".

(** [{"type":"turn.completed"}] *)
Definition turnCompletedLine : string :=
  "{" +:+ quoted "type" +:+ ":" +:+ quoted "turn.completed" +:+ "}".

Definition sampleParse (line : string) : option json :=
  if String.eqb line errorLine then
    Some (JObj [("type", JStr "error"); ("message", JStr "boom")])
  else if String.eqb line finalLine then
    Some (JObj [("type", JStr "item.completed");
                ("item", JObj [("type", JStr "agent_message"); ("text", JStr "done")])])
  else if String.eqb line startedLine then
    Some (JObj [("type", JStr "item.started");
                ("item", JObj [("type", JStr "command_execution"); ("command", JStr "ls")])])
  else if String.eqb line turnCompletedLine then
    Some (JObj [("type", JStr "turn.completed")])
  else None.

(** Callbacks that record what they are called with. *)
Definition recorder : @ProviderStreamCallbacks (list string) :=
  MkStreamCallbacks (fun text c => Fulfilled (c ++ [text]))
                    (Some (fun status c => Fulfilled (c ++ [status]))).

End CodexCli.

(* ===================================================================== *)
(** * More JavaScript built-ins *)
(* ===================================================================== *)

Module JsText.

(** The string that holds one line feed. *)
Definition lf : string := String Js.LF EmptyString.

(** [a.join(sep)] on an array of strings. *)
Fixpoint join (sep : string) (l : list string) : string :=
  match l with
  | [] => EmptyString
  | x :: r =>
      match r with
      | [] => x
      | _ :: _ => x +:+ sep +:+ join sep r
      end
  end.

(** [s.toLowerCase()] on code units below 256: the letters A to Z, and the
    Latin-1 capitals U+00C0 to U+00DE other than the multiplication sign. *)
Definition lowerChar (c : ascii) : ascii :=
  let n := N_of_ascii c in
  if ((65 <=? n)%N && (n <=? 90)%N)
     || ((192 <=? n)%N && (n <=? 222)%N && negb (n =? 215)%N)
  then ascii_of_N (n + 32) else c.

Definition toLowerCase (s : string) : string :=
  string_of_list_ascii (lowerChar <$> list_ascii_of_string s).

Definition digitValue (c : ascii) : option Z :=
  let n := N_of_ascii c in
  if (48 <=? n)%N && (n <=? 57)%N then Some (Z.of_N n - 48) else None.

(** The value of the longest run of decimal digits [l] starts with, on top
    of the digits read so far; [None] when no digit has been read. *)
Fixpoint digitsPrefix (l : list ascii) (acc : option Z) : option Z :=
  match l with
  | [] => acc
  | c :: r =>
      match digitValue c with
      | Some d => digitsPrefix r (Some (10 * default 0 acc + d))
      | None => acc
      end
  end.

(** [Number.parseInt(s, 10)]; [None] is [NaN].  Leading white space is
    skipped, a sign is read, then the longest run of digits; what follows is
    ignored.  (A run of more than fifteen digits is rounded by JavaScript to
    the nearest double; it is kept exact here.) *)
Definition parseInt10 (s : string) : option Z :=
  let l := Js.trimStartL (list_ascii_of_string s) in
  let '(sign, digits) :=
    match l with
    | c :: r =>
        if Ascii.eqb c "-" then (-1, r)
        else if Ascii.eqb c "+" then (1, r)
        else (1, l)
    | [] => (1, l)
    end in
  match digitsPrefix digits None with
  | Some n => Some (sign * n)
  | None => None
  end.

(** A string that holds no white space: [trim] leaves it as it is. *)
Definition solid (s : string) : Prop :=
  Forall (fun c => Js.isWhiteSpace c = false) (list_ascii_of_string s).

End JsText.

(* ===================================================================== *)
(** * Text sized for the platform
      (src/bots/text-chunk.ts, truncateForPlatform of src/bots/stream-edit.ts) *)
(* ===================================================================== *)

Module PlatformText.
Import JsText.

(** The default of the [suffix] parameter: two line feeds, then the
    marker. *)
Definition defaultSuffix : string := lf +:+ lf +:+ "...[truncated]".

(** [truncateForPlatform(text, limit, suffix)]; [suffix] is [None] when the
    argument is left out. *)
Definition truncateForPlatform (text : string) (limit : Z) (suffix : option string)
  : string :=
  let suffix := default defaultSuffix suffix in
  if Js.strlen text <=? limit then text
  else
    let head := Z.max 0 (limit - Js.strlen suffix) in
    Js.sslice text 0 head +:+ suffix.

(** The variables [chunks] and [current] of [splitTextForPlatform]. *)
Record Acc : Type := MkAcc {
  chunks : list string;
  current : string
}.

Definition pushCurrent (a : Acc) : Acc :=
  if Js.truthy (current a) then MkAcc (chunks a ++ [current a]) "" else a.

(** [for (let i = ...; i < line.length; i += limit) chunks.push(line.slice(i, i + limit))],
    entered with the given [i].  The loop does not end when [limit] is not
    positive; [None] is a run that has not ended within [fuel] rounds. *)
Fixpoint hardSplit (fuel : nat) (line : string) (limit i : Z) (out : list string)
  : option (list string) :=
  if i <? Js.strlen line then
    match fuel with
    | O => None
    | S fuel' =>
        hardSplit fuel' line limit (i + limit) (out ++ [Js.sslice line i (i + limit)])
    end
  else Some out.

(** The body of [for (const line of lines)]. *)
Definition addLine (fuel : nat) (limit : Z) (a : Acc) (line : string) : option Acc :=
  let candidate :=
    if Js.truthy (current a) then current a +:+ lf +:+ line else line in
  if Js.strlen candidate <=? limit then Some (MkAcc (chunks a) candidate)
  else
    let a1 := pushCurrent a in
    if Js.strlen line <=? limit then Some (MkAcc (chunks a1) line)
    else
      match hardSplit fuel line limit 0 (chunks a1) with
      | Some out => Some (MkAcc out (current a1))
      | None => None
      end.

Fixpoint addLines (fuel : nat) (limit : Z) (a : Acc) (lines : list string)
  : option Acc :=
  match lines with
  | [] => Some a
  | line :: rest =>
      match addLine fuel limit a line with
      | Some a' => addLines fuel limit a' rest
      | None => None
      end
  end.

(** [splitTextForPlatform(text, limit)]; every inner loop is given [fuel]
    rounds. *)
Definition splitTextForPlatform (fuel : nat) (text : string) (limit : Z)
  : option (list string) :=
  if Js.strlen text <=? limit then Some [text]
  else
    match addLines fuel limit (MkAcc [] "") (Js.split text Js.LF) with
    | Some a => Some (chunks (pushCurrent a))
    | None => None
    end.

(** The characters of [s] other than line feeds. *)
Definition withoutLF (s : string) : list ascii :=
  List.filter (fun c => negb (Ascii.eqb c Js.LF)) (list_ascii_of_string s).

(** A chunk that fits and is not empty. *)
Definition fits (limit : Z) (c : string) : Prop := c <> "" /\ Js.strlen c <= limit.

(** What the accumulator holds, line feeds apart. *)
Definition held (a : Acc) : list ascii :=
  List.concat (withoutLF <$> chunks a) ++ withoutLF (current a).

(** Every chunk pushed so far fits, and so does the one being built. *)
Definition fitting (limit : Z) (a : Acc) : Prop :=
  Forall (fits limit) (chunks a) /\ Js.strlen (current a) <= limit.

End PlatformText.

(* ===================================================================== *)
(** * Session store: the calls by conversation, and the file read at start *)
(* ===================================================================== *)

Module StoreOps.
Import Json SessionStore.

(** The conversation a call is made on; a restart is made on none. *)
Definition opKey (op : Op) : option string :=
  match op with
  | OGetProvider k | OSetProvider k _ | OReset k | OGetModel k _ | OSetModel k _ _
  | OGetReasoningEffort k _ | OSetReasoningEffort k _ _ | OBuildPrompt k _ _
  | OAppendExchange k _ _ => Some k
  | ORestart => None
  end.


(** The session of a conversation, as [getOrCreate] gives it. *)
Definition sessionOf (chatKey : string) (w : World) : ChatSession :=
  default (fresh (store w)) (sessions (store w) !! chatKey).

(** The same calls, whatever the clock and the writes did. *)
Definition sameCalls (ops ops' : list (Op * PersistIO)) : Prop :=
  ops.*1 = ops'.*1.

Definition isRestart (op : Op) : bool :=
  match op with
  | ORestart => true
  | _ => false
  end.


(** No message of the history has the system role. *)
Definition noSystemMessage (c : ChatSession) : Prop :=
  Forall (fun m => role m <> system) (history c).

(** Both override maps hold trimmed, non-blank values only. *)
Definition overridesNormal (c : ChatSession) : Prop :=
  normalOverrides (modelOverrides c) /\ normalOverrides (reasoningEffortOverrides c).

End StoreOps.

(* ===================================================================== *)
(** * Conversation orchestrator: the other public methods
      (src/chat/chat-service.ts) *)
(* ===================================================================== *)

Module ChatCommands.
Import SessionStore ChatService.

(** [this.providers.has(provider)] *)
Definition providersHas (svc : Service) (p : ProviderName) : bool :=
  match providersGet svc p with
  | Some _ => true
  | None => false
  end.

(** [providerNames.includes(provider)], and the value the cast
    [provider as ProviderName] then stands for. *)
Definition asProviderName (provider : string) : option ProviderName :=
  List.find (fun p => String.eqb (providerId p) provider) providerNames.

Definition notConfigured (provider : string) : string :=
  "Provider '" +:+ provider +:+ "' is not configured.".

Definition getProvider (chatKey : string) (w : World) : ProviderName * World :=
  SessionStore.getProvider chatKey w.

Definition setProvider (svc : Service) (chatKey provider : string)
  (io : PersistIO) (w : World) : Settled ProviderName * World :=
  match asProviderName provider with
  | None => (Rejected "Supported providers: codex, claude.", w)
  | Some typedProvider =>
      if negb (providersHas svc typedProvider)
      then (Rejected (notConfigured (providerId typedProvider)), w)
      else (Fulfilled typedProvider, SessionStore.setProvider chatKey typedProvider io w)
  end.

Definition reset (chatKey : string) (io : PersistIO) (w : World) : World :=
  SessionStore.reset chatKey io w.

Definition getModel (chatKey : string) (p : ProviderName) (w : World)
  : option string * World :=
  SessionStore.getModel chatKey p w.

Definition setModel (svc : Service) (chatKey : string) (p : ProviderName)
  (model : option string) (io : PersistIO) (w : World) : Settled unit * World :=
  if negb (providersHas svc p) then (Rejected (notConfigured (providerId p)), w)
  else (Fulfilled tt, SessionStore.setModel chatKey p model io w).

Definition getReasoningEffort (chatKey : string) (p : ProviderName) (w : World)
  : option string * World :=
  SessionStore.getReasoningEffort chatKey p w.

Definition setReasoningEffort (svc : Service) (chatKey : string) (p : ProviderName)
  (effort : option string) (io : PersistIO) (w : World) : Settled unit * World :=
  if negb (providersHas svc p) then (Rejected (notConfigured (providerId p)), w)
  else (Fulfilled tt, SessionStore.setReasoningEffort chatKey p effort io w).

(** The provider [askStream] settles on: the one of the session when it is
    configured, the first configured one otherwise. *)
Definition chosenProvider (svc : Service) (recorded : ProviderName)
  : option ProviderName :=
  if providersHas svc recorded then Some recorded
  else head (getAvailableProviders svc).

(** The messages [buildPrompt] puts before the history. *)
Definition systemMessages (systemPrompt : option string) : list ConversationMessage :=
  match systemPrompt with
  | Some sp => if Js.truthy sp then [Message system sp] else []
  | None => []
  end.

(** The tail entry of the lock map is a call that has not finished. *)
Definition tailsLive (l : Locks) : Prop :=
  forall k n, chatLocks l !! k = Some n ->
    exists r, requests l !! n = Some r /\ key r = k /\ status r <> Finished.

(** Conversation [k] has a call that has not finished. *)
Definition busy (l : Locks) (k : string) : Prop :=
  exists i r, requests l !! i = Some r /\ key r = k /\ status r <> Finished.

End ChatCommands.

(* ===================================================================== *)
(** * Edit coalescer: what a run of events shows *)
(* ===================================================================== *)

Module StreamEditRuns.
Import StreamEdit.

(** The text the message shows after the observations [obs], when it
    showed [shown] before: the text of the last edit that went through. *)
Definition shownAfter (shown : string) (obs : list Obs) : string :=
  foldl (fun acc o => match o with Applied text _ => text | _ => acc end) shown obs.

(** An invocation of [edit] opens an edit, its settling closes it. *)
Definition delta (o : Obs) : Z :=
  match o with
  | Publish _ _ => 1
  | Applied _ _ | EditFailed _ _ => -1
  | FlushCalled _ | FlushReturned _ _ => 0
  end.

(** The number of edits invoked and not yet settled after [obs]. *)
Definition inFlightAfter (obs : list Obs) : Z :=
  foldr (fun o acc => delta o + acc) 0 obs.

(** Whether the controller is awaiting [edit]. *)
Definition editing (s : State) : Z :=
  match phase s with
  | Editing _ _ => 1
  | _ => 0
  end.

(** The text last handed to [queue] or [flush]. *)
Definition submittedAfter (last : option string) (es : list Event) : option string :=
  foldl (fun acc e => match e with
                      | Queue text _ | Flush text _ => Some text
                      | _ => acc
                      end) last es.

(** Every edit goes through. *)
Definition noFailure (e : Event) : bool :=
  match e with
  | EditSettled false _ => false
  | _ => true
  end.

(** The text the drain in progress carries, if one is in progress. *)
Definition carried (s : State) : option string :=
  match phase s with
  | Idle => None
  | Sleeping text _ _ | Editing text _ => Some text
  end.

(** The text a drain carries differs from the one last applied. *)
Definition carriesNews (s : State) : Prop :=
  forall text, carried s = Some text -> text <> lastApplied (vars s).

(** Where the text last submitted is: at rest it has been applied (or was
    empty); while a drain is in progress it is pending, or is the text the
    drain carries. *)
Definition upToDate (s : State) (last : option string) : Prop :=
  match carried s with
  | None =>
      processing (vars s) = false
      /\ pending (vars s) = None
      /\ forall text, last = Some text -> text <> "" -> lastApplied (vars s) = text
  | Some text =>
      processing (vars s) = true
      /\ ((pending (vars s) = None /\ last = Some text)
          \/ (exists t, pending (vars s) = Some t /\ last = Some t))
  end.

End StreamEditRuns.

(* ===================================================================== *)
(** * Executor: the error stream and the settled promise *)
(* ===================================================================== *)

Module ExecutorRuns.
Import RunJsonlCli.


(** The promise has been rejected. *)
Definition isRejected {A} (p : option (Settled A)) : bool :=
  match p with
  | Some (Rejected _) => true
  | _ => false
  end.

(** A rejected chain and a rejected promise both come with [failed]. *)
Definition flagged {H} (e : @Exec H) : Prop :=
  (forall err, callbackQueue e = Rejected err -> failed e = true)
  /\ (isRejected (promise e) = true -> failed e = true).

End ExecutorRuns.

(* ===================================================================== *)
(** * The prompt and the arguments the CLIs are started with
      (src/providers/render-cli-prompt.ts, the head of [stream] in
      src/providers/codex-cli-provider.ts and claude-cli-provider.ts) *)
(* ===================================================================== *)

Module CliInvocation.
Import JsText SessionStore ChatService.

Definition roleLabel (r : MessageRole) : string :=
  match r with
  | system => "SYSTEM"
  | assistant => "ASSISTANT"
  | user => "USER"
  end.

(** One message of the prompt: the label, a colon, a line feed, the
    trimmed content. *)
Definition renderMessage (message : ConversationMessage) : string :=
  roleLabel (role message) +:+ ":" +:+ lf +:+ Js.trim (content message).

Definition renderCliPrompt (messages : list ConversationMessage) : string :=
  let body := join (lf +:+ lf) (renderMessage <$> messages) in
  body +:+ lf +:+ lf +:+ "ASSISTANT:" +:+ lf.

(** What the prompt holds before its last message: the messages before
    it, each followed by an empty line. *)
Definition renderedBefore (earlier : list ConversationMessage) : string :=
  match earlier with
  | [] => ""
  | _ :: _ => join (lf +:+ lf) (renderMessage <$> earlier) +:+ lf +:+ lf
  end.

(** The constructor arguments of [CodexCliProvider] and
    [ClaudeCliProvider]. *)
Record CliProvider : Type := MkCliProvider {
  command : string;
  cwd : string;
  configuredModel : option string;
  dangerouslyBypassApprovalsAndSandbox : bool
}.

(** [options?.model?.trim() || this.model] *)
Definition effectiveModel (self : CliProvider) (options : option ProviderStreamOptions)
  : option string :=
  match options with
  | Some o =>
      match model o with
      | Some m => if Js.truthy (Js.trim m) then Some (Js.trim m) else configuredModel self
      | None => configuredModel self
      end
  | None => configuredModel self
  end.

(** [options?.reasoningEffort?.trim().toLowerCase()] *)
Definition effectiveEffort (options : option ProviderStreamOptions) : option string :=
  match options with
  | Some o =>
      match reasoningEffort o with
      | Some e => Some (toLowerCase (Js.trim e))
      | None => None
      end
  | None => None
  end.

(** [if (value) args.push(...)] for [value : string | undefined] *)
Definition whenSet (value : option string) (args : string -> list string) : list string :=
  match value with
  | Some v => if Js.truthy v then args v else []
  | None => []
  end.

(** The argument list [CodexCliProvider.stream] builds. *)
Definition codexArgs (self : CliProvider) (options : option ProviderStreamOptions)
  : list string :=
  ["exec"; "--json"; "--skip-git-repo-check"]
  ++ (if dangerouslyBypassApprovalsAndSandbox self
      then ["--dangerously-bypass-approvals-and-sandbox"] else [])
  ++ whenSet (effectiveModel self options) (fun m => ["--model"; m])
  ++ whenSet (effectiveEffort options)
       (fun e => ["-c"; "model_reasoning_effort=" +:+ CodexCli.dq +:+ e +:+ CodexCli.dq])
  ++ ["-"].

(** The argument list [ClaudeCliProvider.stream] builds. *)
Definition claudeArgs (self : CliProvider) (options : option ProviderStreamOptions)
  : list string :=
  ["-p"; "--verbose"; "--output-format"; "stream-json"; "--include-partial-messages"]
  ++ (if dangerouslyBypassApprovalsAndSandbox self
      then ["--dangerously-skip-permissions"] else [])
  ++ whenSet (effectiveModel self options) (fun m => ["--model"; m]).

End CliInvocation.

(* ===================================================================== *)
(** * Claude adapter (src/providers/claude-cli-provider.ts) *)
(* ===================================================================== *)

Module ClaudeCli.
Import JsText Json RunJsonlCli CodexCli.

(** An element of [message.content] that passes
    [item.type === "text"]; reading [type] of [null] throws. *)
Definition isTextItem (item : json) : Settled bool :=
  match item with
  | JNull => Rejected "TypeError: cannot read properties of null"
  | _ => Fulfilled (typeIs item "text")
  end.

(** [items.filter(keep)] for a predicate that may throw. *)
Fixpoint filterM (keep : json -> Settled bool) (items : list json) : Settled (list json) :=
  match items with
  | [] => Fulfilled []
  | item :: rest =>
      match keep item with
      | Rejected e => Rejected e
      | Fulfilled b =>
          match filterM keep rest with
          | Rejected e => Rejected e
          | Fulfilled kept => Fulfilled (if b then item :: kept else kept)
          end
      end
  end.

(** [items.map(f)] for a function that may throw. *)
Fixpoint mapM {A} (f : json -> Settled A) (items : list json) : Settled (list A) :=
  match items with
  | [] => Fulfilled []
  | item :: rest =>
      match f item with
      | Rejected e => Rejected e
      | Fulfilled a =>
          match mapM f rest with
          | Rejected e => Rejected e
          | Fulfilled r => Fulfilled (a :: r)
          end
      end
  end.

(** [texts.filter((text) => Boolean(text))] *)
Definition present (texts : list (option string)) : list string :=
  omap (fun t => match t with
                 | Some s => if Js.truthy s then Some s else None
                 | None => None
                 end) texts.

Definition extractAssistantText (payload : json) : Settled string :=
  match optGet (get payload "message") "content" with
  | None | Some JNull => Fulfilled ""
  | Some (JArr items) =>
      match filterM isTextItem items with
      | Rejected e => Rejected e
      | Fulfilled textItems =>
          match mapM (fun item => optTrim (get item "text")) textItems with
          | Rejected e => Rejected e
          | Fulfilled texts => Fulfilled (join lf (present texts))
          end
      end
  | Some _ => Rejected "TypeError: filter is not a function"
  end.

Section Provider.

Context {CB : Type}.

(** [JSON.parse]; [None] when it throws. *)
Variable JSON_parse : string -> option json.

(** [String(v)] for a value that is not a string. *)
Variable toDisplay : json -> string.

Variable callbacks : @ProviderStreamCallbacks CB.

(** The local variables of [stream] the line handler updates, with the
    state of the caller's callbacks. *)
Record Local : Type := MkLocal {
  reply : string;
  finalResult : string;
  cbState : CB
}.

(** [await callbacks.onText(text)], with the two variables as they are to
    be afterwards. *)
Definition emit (reply' finalResult' text : string) (l : Local) : Settled Local :=
  match onText callbacks text (cbState l) with
  | Fulfilled c => Fulfilled (MkLocal reply' finalResult' c)
  | Rejected e => Rejected e
  end.

(** The [onLine] handler. *)
Definition handleLine (line : string) (l : Local) : Settled Local :=
  match JSON_parse line with
  | None => Fulfilled l
  | Some JNull => Rejected "TypeError: cannot read properties of null"
  | Some payload =>
      if typeIs payload "result" then
        if truthy (get payload "is_error") then
          Rejected (match get payload "result" with
                    | Some result =>
                        if truthy (Some result) then interpolate toDisplay result
                        else "claude CLI error"
                    | None => "claude CLI error"
                    end)
        else
          match get payload "result" with
          | Some (JStr result) => emit (reply l) result result l
          | _ => Fulfilled l
          end
      else if typeIs payload "assistant" then
        match extractAssistantText payload with
        | Rejected e => Rejected e
        | Fulfilled assistantText =>
            if Js.truthy assistantText
            then emit assistantText (finalResult l) assistantText l
            else Fulfilled l
        end
      else if typeIs payload "stream_event"
              && match optGet (get payload "event") "type" with
                 | Some (JStr t) => String.eqb t "content_block_delta"
                 | _ => false
                 end
              && match optGet (optGet (get payload "event") "delta") "type" with
                 | Some (JStr t) => String.eqb t "text_delta"
                 | _ => false
                 end
              && isString (optGet (optGet (get payload "event") "delta") "text") then
        match optGet (optGet (get payload "event") "delta") "text" with
        | Some (JStr text) => emit (reply l +:+ text) (finalResult l) (reply l +:+ text) l
        | _ => Fulfilled l
        end
      else Fulfilled l
  end.

(** [stream] after [runJsonlCli] has resolved with [result]. *)
Definition conclude (result : JsonlResult) (l : Local) : Settled string :=
  if negb (code result =? 0) then
    Rejected ("claude CLI exited with code " +:+ pretty (code result) +:+
              (if Js.truthy (stderrTail result) then ": " +:+ stderrTail result else ""))
  else
    let finalReply :=
      Js.trim (if Js.truthy (finalResult l) then finalResult l else reply l) in
    if negb (Js.truthy finalReply)
    then Rejected "claude CLI 응답이 비어 있습니다."
    else Fulfilled finalReply.

Definition lineCallbacks : @JsonlCallbacks Local := MkCallbacks handleLine None.

(** [stream], over what the child process does; [None] while the promise
    stays pending. *)
Definition stream (cb0 : CB) (events : list ChildEvent) : option (Settled string) :=
  let e := runJsonlCli lineCallbacks (MkLocal "" "" cb0) events in
  match promise e with
  | None => None
  | Some (Rejected err) => Some (Rejected err)
  | Some (Fulfilled result) =>
      match callbackQueue e with
      | Fulfilled l => Some (conclude result l)
      | Rejected err => Some (Rejected err)
      end
  end.

(** A line that reports an error of the CLI: a result event whose
    [is_error] is set.  The message it carries. *)
Definition errorResult (line : string) : option string :=
  match JSON_parse line with
  | Some (JObj _ as payload) =>
      if typeIs payload "result" && truthy (get payload "is_error")
      then Some (match get payload "result" with
                 | Some result =>
                     if truthy (Some result) then interpolate toDisplay result
                     else "claude CLI error"
                 | None => "claude CLI error"
                 end)
      else None
  | _ => None
  end.

End Provider.

(** ** Sample output of the child

    Three lines a claude process writes, and what [JSON.parse] makes of
    them; any other line is taken not to be JSON. *)

(** [{"type":"assistant","message":{"content":[{"type":"text","text":"hi"}]}}] *)
Definition assistantLine : string :=
  "{" +:+ quoted "type" +:+ ":" +:+ quoted "assistant" +:+ "," +:+ quoted "message"
      +:+ ":{" +:+ quoted "content" +:+ ":[{" +:+ quoted "type" +:+ ":" +:+ quoted "text"
      +:+ "," +:+ quoted "text" +:+ ":" +:+ quoted "hi" +:+ "}]}}".

(** [{"type":"result","result":" hi there "}] *)
Definition resultLine : string :=
  "{" +:+ quoted "type" +:+ ":" +:+ quoted "result" +:+ "," +:+ quoted "result"
      +:+ ":" +:+ quoted " hi there " +:+ "}".

(** [{"type":"result","is_error":true,"result":"overloaded"}] *)
Definition errorResultLine : string :=
  "{" +:+ quoted "type" +:+ ":" +:+ quoted "result" +:+ "," +:+ quoted "is_error"
      +:+ ":true," +:+ quoted "result" +:+ ":" +:+ quoted "overloaded" +:+ "}".

Definition sampleParse (line : string) : option json :=
  if String.eqb line assistantLine then
    Some (JObj [("type", JStr "assistant");
                ("message",
                 JObj [("content", JArr [JObj [("type", JStr "text"); ("text", JStr "hi")]])])])
  else if String.eqb line resultLine then
    Some (JObj [("type", JStr "result"); ("result", JStr " hi there ")])
  else if String.eqb line errorResultLine then
    Some (JObj [("type", JStr "result"); ("is_error", JBool true);
                ("result", JStr "overloaded")])
  else None.

End ClaudeCli.

(* ===================================================================== *)
(** * Codex adapter: lines that record an error *)
(* ===================================================================== *)

Module CodexLines.
Import Json CodexCli.

(** A line that is a structured error event with a message that is not
    blank: an event of type [error] with a string [message], or of type
    [turn.failed] with a string [error.message]. *)
Definition structuredError (JSON_parse : string -> option json) (line : string) : bool :=
  match JSON_parse line with
  | Some (JObj _ as event) =>
      match (if typeIs event "error" then get event "message"
             else if typeIs event "turn.failed" then optGet (get event "error") "message"
             else None) with
      | Some (JStr m) => Js.truthy (Js.trim m)
      | _ => false
      end
  | _ => false
  end.

End CodexLines.

(* ===================================================================== *)
(** * Configuration (src/config.ts) *)
(* ===================================================================== *)

Module Config.
Import JsText SessionStore.

Record CliConfig : Type := MkCliConfig {
  command : string;
  model : option string
}.

Record AppConfig : Type := MkAppConfig {
  telegramBotToken : string;
  defaultProvider : ProviderName;
  maxHistory : Z;
  systemPrompt : option string;
  cliWorkdir : string;
  sessionStorePath : string;
  streamEditIntervalMs : Z;
  codex : CliConfig;
  claude : CliConfig
}.

Definition normalizeProvider (value : option string) : ProviderName :=
  match value with
  | Some v => if String.eqb (toLowerCase v) "claude" then SessionStore.claude
              else SessionStore.codex
  | None => SessionStore.codex
  end.

Definition normalizeString (value : option string) : option string :=
  match value with
  | Some v => if Js.truthy (Js.trim v) then Some (Js.trim v) else None
  | None => None
  end.

(** [Number.parseInt(value ?? fallback, 10)], then the range test; a
    result that is not finite fails it. *)
Definition parseBounded (value : option string) (fallback : string) (lo hi : Z)
  (message : string) : Settled Z :=
  match parseInt10 (default fallback value) with
  | Some parsed =>
      if (parsed <? lo) || (parsed >? hi) then Rejected message else Fulfilled parsed
  | None => Rejected message
  end.

Definition parseMaxHistory (value : option string) : Settled Z :=
  parseBounded value "20" 2 200 "MAX_HISTORY must be an integer between 2 and 200.".

Definition parseEditInterval (value : option string) : Settled Z :=
  parseBounded value "900" 200 10000 "STREAM_EDIT_INTERVAL_MS must be 200-10000.".

Section Process.

(** [process.env], after [dotenv.config()]. *)
Variable env : string -> option string.

(** [process.cwd()] *)
Variable cwd : string.

(** [isAbsolute], [join] and [resolve] of [node:path]. *)
Variable isAbsolute : string -> bool.
Variable join : string -> string -> string.
Variable resolve : string -> string -> string.

Definition parseSessionStorePath (value : option string) : string :=
  let input := default ".openshell/session-store.json" (normalizeString value) in
  let expanded :=
    if String.eqb input "~" then default input (env "HOME")
    else if Js.startsWith input "~/" then
      match env "HOME" with
      | Some home => if Js.truthy home then join home (Js.sslice1 input 2) else input
      | None => input
      end
    else input in
  if isAbsolute expanded then expanded else resolve cwd expanded.

Definition loadConfig : Settled AppConfig :=
  match normalizeString (env "TELEGRAM_BOT_TOKEN") with
  | None => Rejected "TELEGRAM_BOT_TOKEN is required."
  | Some telegramBotToken =>
      let defaultProvider := normalizeProvider (env "DEFAULT_PROVIDER") in
      match parseMaxHistory (env "MAX_HISTORY") with
      | Rejected e => Rejected e
      | Fulfilled maxHistory =>
          match parseEditInterval (env "STREAM_EDIT_INTERVAL_MS") with
          | Rejected e => Rejected e
          | Fulfilled streamEditIntervalMs =>
              Fulfilled
                (MkAppConfig
                   telegramBotToken
                   defaultProvider
                   maxHistory
                   (normalizeString (env "SYSTEM_PROMPT"))
                   (default cwd (normalizeString (env "CLI_WORKDIR")))
                   (parseSessionStorePath (env "SESSION_STORE_PATH"))
                   streamEditIntervalMs
                   (MkCliConfig (default "codex" (normalizeString (env "CODEX_COMMAND")))
                                (normalizeString (env "CODEX_MODEL")))
                   (MkCliConfig (default "claude" (normalizeString (env "CLAUDE_COMMAND")))
                                (normalizeString (env "CLAUDE_MODEL"))))
          end
      end
  end.

End Process.

(** A sample environment. *)
Definition sampleEnv (name : string) : option string :=
  if String.eqb name "TELEGRAM_BOT_TOKEN" then Some " 123:abc "
  else if String.eqb name "MAX_HISTORY" then Some " 12 messages"
  else if String.eqb name "SYSTEM_PROMPT" then Some "   "
  else None.

End Config.

(* ===================================================================== *)
(** * Owner store (src/bots/telegram-owner-store.ts) *)
(* ===================================================================== *)

Module OwnerStore.
Import Json.

(** The fields of the class. *)
Record Store : Type := MkStore {
  persistencePath : string;
  ownerUserId : option string
}.

(** The store object together with the file it persists to. *)
Record World : Type := MkWorld {
  store : Store;
  disk : SessionStore.DiskFile
}.

Definition getOwnerUserId (w : World) : option string := ownerUserId (store w).

(** The document [persist] writes. *)
Definition payload (io : SessionStore.PersistIO) (owner : string) : json :=
  JObj [("version", JNum 1);
        ("savedAt", JStr (SessionStore.savedAt io));
        ("ownerUserId", JStr owner)].

Definition persist (io : SessionStore.PersistIO) (w : World) : World :=
  if negb (Js.truthy (persistencePath (store w))) then w
  else
    match ownerUserId (store w) with
    | Some owner =>
        if negb (Js.truthy owner) then w
        else if SessionStore.writeOk io
             then MkWorld (store w) (SessionStore.Parsed (payload io owner))
             else w
    | None => w
    end.

Definition loadFromDisk (s : Store) (d : SessionStore.DiskFile) : Store :=
  if negb (Js.truthy (persistencePath s)) then s
  else
    match d with
    | SessionStore.Parsed raw =>
        if negb (isRecord (Some raw)) then s
        else
          match get raw "version", get raw "ownerUserId" with
          | Some (JNum 1), Some (JStr owner) =>
              MkStore (persistencePath s)
                      (if Js.truthy (Js.trim owner) then Some (Js.trim owner) else None)
          | _, _ => s
          end
    | _ => s
    end.

(** [new TelegramOwnerStore(persistencePath)] *)
Definition create (path : string) (d : SessionStore.DiskFile) : World :=
  MkWorld (loadFromDisk (MkStore path None) d) d.

Definition setOwnerUserId (owner : string) (io : SessionStore.PersistIO) (w : World)
  : Settled unit * World :=
  let normalized := Js.trim owner in
  if negb (Js.truthy normalized) then (Rejected "ownerUserId must not be empty.", w)
  else
    (Fulfilled tt,
     persist io (MkWorld (MkStore (persistencePath (store w)) (Some normalized)) (disk w))).

(** A restart of the process: a new store object over the same path and
    the same file. *)
Definition restart (w : World) : World :=
  create (persistencePath (store w)) (disk w).

End OwnerStore.

(* ===================================================================== *)
(** * Telegram bot (src/bots/telegram-bot.ts) *)
(* ===================================================================== *)

Module TelegramBot.
Import JsText.

Definition HELP : string :=
  join lf
    ["OpenShell (Telegram)";
     "/init                    - 1회 초기화 (소유자 등록)";
     "/model codex|claude       - provider 전환";
     "/model [provider] <model|default> [effort|default] - 모델 변경";
     "/models                  - 지원 모델 목록 (매번 새로 조회)";
     "/reset                   - 현재 대화 기록 초기화";
     "/uid                     - 현재 사용자 UID 확인";
     "/help                    - 도움말"].

Definition DANGER_WARNING : string :=
  join lf
    ["주의: OpenShell은 codex/claude CLI를 승인/샌드박스 없이 실행하도록 구성되어 있습니다.";
     "악성 프롬프트는 로컬 파일 읽기/수정, 명령 실행 등 PC에 피해를 줄 수 있습니다.";
     "봇 토큰을 공유하지 말고, /init으로 소유자(1인) 잠금을 완료한 뒤 사용하세요."].

Definition RESET_KEYWORDS : list string := ["default"; "reset"; "none"].

Definition isResetKeyword (value : option string) : bool :=
  match value with
  | Some v =>
      Js.truthy v && bool_decide (toLowerCase v ∈ RESET_KEYWORDS)
  | None => false
  end.

(** [ctx.from] and [ctx.chat], as far as the handlers read them.  Ids are
    integers; [String(id)] is their decimal notation. *)
Record Sender : Type := MkSender {
  id : option Z;
  is_bot : bool
}.

Record Context : Type := MkContext {
  from : option Sender;
  chat : option Z
}.

Definition chatKeyFromContext (ctx : Context) : string :=
  "telegram:" +:+ match chat ctx with
                  | Some chatId => pretty chatId
                  | None => "unknown"
                  end.







(** ** Handlers

    What the handlers close over: the owner store and the session store
    behind the chat service. *)
Record Bot : Type := MkBot {
  owners : OwnerStore.World;
  sessions : SessionStore.World
}.

Definition getUserId (ctx : Context) : option string :=
  match from ctx with
  | Some sender =>
      match id sender with
      | Some i => Some (pretty i)
      | None => None
      end
  | None => None
  end.

(** [userId && userId === ownerUserId] *)
Definition isOwner (userId : option string) (ownerUserId : string) : bool :=
  match userId with
  | Some u => Js.truthy u && String.eqb u ownerUserId
  | None => false
  end.

(** [ensureOwner]: whether the sender may go on, and the reply sent when
    not. *)
Definition ensureOwner (ctx : Context) (b : Bot) : bool * list string :=
  match OwnerStore.getOwnerUserId (owners b) with
  | Some ownerUserId =>
      if negb (Js.truthy ownerUserId)
      then (false, ["아직 초기화되지 않았습니다. 먼저 /init 을 입력해 소유자를 등록하세요."])
      else if isOwner (getUserId ctx) ownerUserId then (true, [])
      else (false, ["접근이 거부되었습니다. (이 봇은 /init로 등록한 1명만 사용 가능)"])
  | None => (false, ["아직 초기화되지 않았습니다. 먼저 /init 을 입력해 소유자를 등록하세요."])
  end.

(** The commands whose handlers are embedded here. *)
Inductive Command : Type :=
| CmdStart
| CmdHelp
| CmdInit
| CmdReset
| CmdUid.

(** The owner as the handlers test it: [undefined] and the empty string
    are both "no owner". *)
Definition registeredOwner (b : Bot) : option string :=
  match OwnerStore.getOwnerUserId (owners b) with
  | Some o => if Js.truthy o then Some o else None
  | None => None
  end.

Definition personal : string := "이 봇은 개인용으로 초기화되어 있습니다.".

(** One handler, run to its end with every reply going through: the
    replies sent and the state left. *)
Definition handle (cmd : Command) (ctx : Context) (io : SessionStore.PersistIO) (b : Bot)
  : list string * Bot :=
  match cmd with
  | CmdStart =>
      match registeredOwner b with
      | None =>
          (["OpenShell Telegram 봇입니다." +:+ lf +:+ lf
              +:+ "처음 1회 /init 을 입력해 소유자(1인)를 등록하세요." +:+ lf +:+ lf
              +:+ DANGER_WARNING], b)
      | Some ownerUserId =>
          if isOwner (getUserId ctx) ownerUserId
          then (["OpenShell Telegram 봇입니다. 메시지를 보내면 답변합니다." +:+ lf +:+ lf
                   +:+ HELP +:+ lf +:+ lf +:+ DANGER_WARNING], b)
          else ([personal], b)
      end
  | CmdHelp =>
      match registeredOwner b with
      | None =>
          (["처음 1회 /init 을 입력해 소유자(1인)를 등록하세요." +:+ lf +:+ lf +:+ HELP], b)
      | Some ownerUserId =>
          if isOwner (getUserId ctx) ownerUserId
          then ([HELP +:+ lf +:+ lf +:+ DANGER_WARNING], b)
          else ([personal], b)
      end
  | CmdInit =>
      match getUserId ctx with
      | None => (["UID를 확인할 수 없습니다."], b)
      | Some userId =>
          if negb (Js.truthy userId) then (["UID를 확인할 수 없습니다."], b)
          else
            match registeredOwner b with
            | None =>
                match OwnerStore.setOwnerUserId userId io (owners b) with
                | (Rejected _, _) => ([], b)
                | (Fulfilled _, owners') =>
                    (["초기화 완료. 이제 UID " +:+ userId +:+ "만 사용할 수 있습니다."
                        +:+ lf +:+ lf +:+ HELP +:+ lf +:+ lf +:+ DANGER_WARNING],
                     MkBot owners' (sessions b))
                end
            | Some currentOwner =>
                if String.eqb currentOwner userId
                then (["이미 초기화되어 있습니다. (owner UID: " +:+ currentOwner +:+ ")"
                         +:+ lf +:+ lf +:+ HELP +:+ lf +:+ lf +:+ DANGER_WARNING], b)
                else (["이미 다른 사용자로 초기화되어 있습니다."], b)
            end
      end
  | CmdReset =>
      match ensureOwner ctx b with
      | (false, replies) => (replies, b)
      | (true, _) =>
          (["대화 기록을 초기화했습니다."],
           MkBot (owners b) (ChatCommands.reset (chatKeyFromContext ctx) io (sessions b)))
      end
  | CmdUid =>
      match ensureOwner ctx b with
      | (false, replies) => (replies, b)
      | (true, _) =>
          match from ctx with
          | Some sender =>
              match id sender with
              | Some userId =>
                  if userId =? 0 then (["UID를 확인할 수 없습니다."], b)
                  else (["현재 사용자 UID: " +:+ pretty userId], b)
              | None => (["UID를 확인할 수 없습니다."], b)
              end
          | None => (["UID를 확인할 수 없습니다."], b)
          end
      end
  end.

(** The middleware installed by [bot.use]: an update without a sender,
    from a bot or from the bot itself reaches no handler. *)
Definition dispatch (botUserId : Z) (cmd : Command) (ctx : Context)
  (io : SessionStore.PersistIO) (b : Bot) : list string * Bot :=
  match from ctx with
  | None => ([], b)
  | Some sender =>
      if is_bot sender || bool_decide (id sender = Some botUserId) then ([], b)
      else handle cmd ctx io b
  end.

(** A run of updates, a restart of the process among them. *)
Inductive Step : Type :=
| Update (cmd : Command) (ctx : Context) (io : SessionStore.PersistIO)
| Restart.

Definition step (botUserId : Z) (b : Bot) (s : Step) : Bot :=
  match s with
  | Update cmd ctx io => (dispatch botUserId cmd ctx io b).2
  | Restart => MkBot (OwnerStore.restart (owners b)) (SessionStore.restart (sessions b))
  end.

Definition run (botUserId : Z) (steps : list Step) (b : Bot) : Bot :=
  foldl (step botUserId) b steps.

Definition isUpdate (s : Step) : bool :=
  match s with
  | Update _ _ _ => true
  | Restart => false
  end.

(** The sender of the update is the registered owner. *)
Definition fromOwner (ctx : Context) (b : Bot) : bool :=
  match registeredOwner b with
  | Some ownerUserId => isOwner (getUserId ctx) ownerUserId
  | None => false
  end.

End TelegramBot.

(* ===================================================================== *)
(** * Facts about the built-ins *)
(* ===================================================================== *)

Module JsFacts.
Import Js.

Lemma trimStartL_idem l : trimStartL (trimStartL l) = trimStartL l.
Proof.
  induction l as [|c r IH]; simpl; [reflexivity |].
  destruct (isWhiteSpace c) eqn:E; [exact IH |].
  simpl. rewrite E. reflexivity.
Qed.

(** A list that does not start with white space keeps that property when
    white space is stripped from its end. *)
Lemma trimStartL_rev_prefix l :
  trimStartL l = l -> trimStartL (rev (trimStartL (rev l))) = rev (trimStartL (rev l)).
Proof.
  destruct l as [|c r]; [reflexivity |].
  simpl. destruct (isWhiteSpace c) eqn:E.
  - intros Heq. exfalso.
    assert (Hlen : (length (trimStartL r) <= length r)%nat).
    { clear. induction r as [|a r IH]; simpl; [lia |].
      destruct (isWhiteSpace a); simpl; lia. }
    rewrite Heq in Hlen. simpl in Hlen. lia.
  - intros _.
    assert (Hsuf : forall l', exists p, l' = p ++ trimStartL l').
    { induction l' as [|a l' [p Hp]]; simpl; [exists []; reflexivity |].
      destruct (isWhiteSpace a); [exists (a :: p); simpl; congruence | exists []; reflexivity]. }
    destruct (Hsuf (rev r ++ [c])) as [p Hp].
    remember (trimStartL (rev r ++ [c])) as t eqn:Ht.
    assert (Hrev : rev t ++ rev p = c :: r).
    { rewrite <- rev_app_distr, <- Hp, rev_app_distr, rev_involutive. reflexivity. }
    destruct (rev t) as [|a t'] eqn:Et; [reflexivity |].
    simpl in Hrev. injection Hrev as -> _.
    simpl. rewrite E. reflexivity.
Qed.

Lemma trimL_idem l : trimL (trimL l) = trimL l.
Proof.
  unfold trimL.
  rewrite (trimStartL_rev_prefix (trimStartL l)) by apply trimStartL_idem.
  rewrite rev_involutive, trimStartL_idem. reflexivity.
Qed.

Lemma trim_idem s : trim (trim s) = trim s.
Proof.
  unfold trim. rewrite list_ascii_of_string_of_list_ascii, trimL_idem. reflexivity.
Qed.

Lemma truthy_true s : truthy s = true <-> s <> "".
Proof. destruct s; simpl; split; congruence. Qed.

Lemma truthy_false s : truthy s = false <-> s = "".
Proof. destruct s; simpl; split; congruence. Qed.

Lemma strlen_pos s : (0 <? strlen s) = truthy s.
Proof. destruct s; unfold strlen; simpl; [reflexivity | apply Z.ltb_lt; lia]. Qed.

Lemma slice1_length {A} (l : list A) (n : Z) :
  0 < n -> n < Z.of_nat (length l) -> Z.of_nat (length (slice1 l (- n))) = n.
Proof.
  intros Hn Hl. unfold slice1, clampIndex.
  destruct (Z.ltb_spec (- n) 0); [| lia].
  rewrite length_drop. lia.
Qed.

Lemma slice1_drop {A} (l : list A) (n : Z) : exists k, slice1 l n = drop k l.
Proof. unfold slice1. eauto. Qed.

End JsFacts.

(* ===================================================================== *)
(** * Session store: bounded history, user first, round trip *)
(* ===================================================================== *)

Module StoreFacts.
Import Json SessionStore.

(** ** Histories *)

Lemma dropLeadingAssistant_drop h : exists k, dropLeadingAssistant h = drop k h.
Proof.
  destruct h as [|m r]; [exists 0%nat; reflexivity |].
  simpl. destruct (role m); try (exists 0%nat; reflexivity).
  apply JsFacts.slice1_drop.
Qed.

Lemma dropLeadingAssistant_length h :
  (length (dropLeadingAssistant h) <= length h)%nat.
Proof.
  destruct (dropLeadingAssistant_drop h) as [k ->]. rewrite length_drop. lia.
Qed.

Lemma trimmed_length (mh : Z) (h : list ConversationMessage) :
  1 <= mh -> mh < Z.of_nat (length h) ->
  Z.of_nat (length (dropLeadingAssistant (Js.slice1 h (- mh)))) <= mh.
Proof.
  intros H1 H2.
  pose proof (dropLeadingAssistant_length (Js.slice1 h (- mh))) as Hd.
  pose proof (JsFacts.slice1_length h mh ltac:(lia) H2). lia.
Qed.

Lemma pushExchange_length mh h u a :
  1 <= mh -> Z.of_nat (length (pushExchange mh h u a)) <= mh.
Proof.
  intros Hmh. unfold pushExchange.
  destruct (Z.gtb_spec (Z.of_nat (length (h ++ [Message user u] ++ [Message assistant a]))) mh).
  - apply trimmed_length; lia.
  - lia.
Qed.

Lemma trimHistory_length s h :
  1 <= maxHistory s -> Z.of_nat (length (trimHistory s h)) <= maxHistory s.
Proof.
  intros Hmh. unfold trimHistory.
  destruct (Z.leb_spec (Z.of_nat (length h)) (maxHistory s)); [lia |].
  apply trimmed_length; lia.
Qed.

Lemma trimHistory_id s h :
  Z.of_nat (length h) <= maxHistory s -> trimHistory s h = h.
Proof.
  intros Hl. unfold trimHistory.
  destruct (Z.leb_spec (Z.of_nat (length h)) (maxHistory s)); [reflexivity | lia].
Qed.

Lemma Forall_trimmed (P : ConversationMessage -> Prop) h n :
  Forall P h -> Forall P (dropLeadingAssistant (Js.slice1 h n)).
Proof.
  intros Hh.
  destruct (dropLeadingAssistant_drop (Js.slice1 h n)) as [k ->].
  destruct (JsFacts.slice1_drop h n) as [k' ->].
  by do 2 apply Forall_drop.
Qed.

Lemma alternates_app b h u a :
  alternates b h = true ->
  alternates b (h ++ [Message user u] ++ [Message assistant a]) = true.
Proof.
  revert b. induction h as [|m r IH]; intros b; simpl.
  - intros ->. reflexivity.
  - intros [Hm Hr]%andb_prop. rewrite Hm. simpl. by apply IH.
Qed.

Lemma alternates_drop b h k :
  alternates b h = true -> exists b', alternates b' (drop k h) = true.
Proof.
  revert b h. induction k as [|k IH]; intros b h Hh.
  - exists b. by rewrite drop_0.
  - destruct h as [|m r]; simpl.
    + exists true. reflexivity.
    + simpl in Hh. apply andb_prop in Hh as [_ Hr]. eapply IH, Hr.
Qed.

Lemma alternates_dropLeadingAssistant b h :
  alternates b h = true -> alternates true (dropLeadingAssistant h) = true.
Proof.
  destruct h as [|m r]; [reflexivity |].
  simpl. intros [Hm Hr]%andb_prop. apply bool_decide_eq_true in Hm.
  destruct b; simpl in *; rewrite Hm.
  - simpl. rewrite bool_decide_eq_true_2 by done. exact Hr.
  - unfold Js.slice1, Js.clampIndex. simpl.
    replace (Z.to_nat (Z.min 1 (Z.of_nat (S (length r))))) with 1%nat by lia.
    exact Hr.
Qed.

Lemma alternates_pushExchange mh h u a :
  alternates true h = true -> alternates true (pushExchange mh h u a) = true.
Proof.
  intros Hh. unfold pushExchange.
  pose proof (alternates_app true h u a Hh) as Happ.
  destruct (_ >? _); [| exact Happ].
  destruct (JsFacts.slice1_drop (h ++ [Message user u] ++ [Message assistant a]) (- mh))
    as [k ->].
  destruct (alternates_drop _ _ k Happ) as [b' Hb'].
  eapply alternates_dropLeadingAssistant, Hb'.
Qed.

Lemma alternates_userFirst h : alternates true h = true -> userFirst h = true.
Proof.
  destruct h as [|m r]; [reflexivity |].
  simpl. by intros [Hm _]%andb_prop.
Qed.

(** ** What is written is read back *)

Lemma normalizeMessage_json m :
  storableMessage m -> normalizeMessage (messageJson m) = Some m.
Proof.
  destruct m as [r c]. intros [Hr Hc]. simpl in *.
  unfold normalizeMessage. simpl.
  rewrite JsFacts.strlen_pos.
  apply JsFacts.truthy_true in Hc. rewrite Hc.
  destruct r; [done | reflexivity | reflexivity].
Qed.

Lemma normalizeHistory_json h :
  Forall storableMessage h ->
  normalizeHistory (Some (JArr (messageJson <$> h))) = h.
Proof.
  unfold normalizeHistory. induction 1 as [|m r Hm _ IH]; [reflexivity |].
  rewrite fmap_cons. cbn [omap list_omap]. rewrite (normalizeMessage_json m Hm).
  by rewrite IH.
Qed.

Lemma normalizeProvider_json p dp :
  normalizeProvider (Some (JStr (providerId p))) dp = p.
Proof. by destruct p. Qed.

Lemma providerId_eqb p q : String.eqb (providerId p) (providerId q) = bool_decide (p = q).
Proof. by destruct p, q. Qed.

Lemma assoc_overrides (l : list (ProviderName * string)) p :
  assoc (providerId p) ((fun kv => (providerId kv.1, JStr kv.2)) <$> l)
  = JStr <$> ((list_to_map l : gmap ProviderName string) !! p).
Proof.
  induction l as [|[q v] l IH]; [reflexivity |].
  simpl. rewrite providerId_eqb. case_bool_decide as Hq.
  - subst. by rewrite lookup_insert_eq.
  - by rewrite lookup_insert_ne.
Qed.

Lemma get_overridesJson o p :
  get (overridesJson o) (providerId p) = JStr <$> (o !! p).
Proof.
  unfold overridesJson. simpl. by rewrite assoc_overrides, list_to_map_to_list.
Qed.

Lemma normalizeOverrides_json o :
  normalOverrides o -> normalizeOverrides (Some (overridesJson o)) = o.
Proof.
  intros Ho.
  assert (Hstep : forall p (out : gmap ProviderName string),
    match get (overridesJson o) (providerId p) with
    | Some (JStr value) =>
        if Js.truthy (Js.trim value) then <[p := Js.trim value]> out else out
    | _ => out
    end = match o !! p with Some v => <[p := v]> out | None => out end).
  { intros p out. rewrite get_overridesJson.
    destruct (o !! p) as [v|] eqn:E; [| reflexivity]. simpl.
    destruct (Ho p v E) as [-> Hv]. apply JsFacts.truthy_true in Hv. by rewrite Hv. }
  unfold normalizeOverrides, overridesJson, providerNames. cbn [foldl].
  fold (overridesJson o). rewrite !Hstep.
  apply map_eq. intros [];
    destruct (o !! codex) eqn:E1, (o !! claude) eqn:E2; by simplify_map_eq.
Qed.

Lemma get_sessionJson c :
  get (sessionJson c) "provider" = Some (JStr (providerId (provider c)))
  /\ get (sessionJson c) "history" = Some (JArr (messageJson <$> history c))
  /\ get (sessionJson c) "modelOverrides" = Some (overridesJson (modelOverrides c))
  /\ get (sessionJson c) "reasoningEffortOverrides"
     = Some (overridesJson (reasoningEffortOverrides c)).
Proof. repeat split; reflexivity. Qed.

Lemma loadSession_json s c :
  storable (maxHistory s) c -> loadSession s (sessionJson c) = c.
Proof.
  intros (Hh & Hl & Hm & Hr).
  destruct (get_sessionJson c) as (E1 & E2 & E3 & E4).
  unfold loadSession. rewrite E1, E2, E3, E4.
  rewrite normalizeProvider_json, (normalizeHistory_json _ Hh),
    (trimHistory_id s _ Hl), (normalizeOverrides_json _ Hm),
    (normalizeOverrides_json _ Hr).
  by destruct c.
Qed.

Lemma loadEntries_lookup s (l : list (string * ChatSession)) acc k :
  NoDup l.*1 ->
  Forall (fun kv => loadSession s (sessionJson kv.2) = kv.2) l ->
  loadEntries (withSessions s acc) ((fun kv => (kv.1, sessionJson kv.2)) <$> l) !! k
  = match (list_to_map l : gmap string ChatSession) !! k with
    | Some c => Some c
    | None => acc !! k
    end.
Proof.
  unfold loadEntries.
  change (loadSession (withSessions s acc)) with (loadSession s).
  change (sessions (withSessions s acc)) with acc.
  revert acc. induction l as [|[k' c] l IH]; intros acc Hnd Hall; [reflexivity |].
  rewrite fmap_cons in Hnd. apply NoDup_cons in Hnd as [Hk' Hnd].
  apply Forall_cons in Hall as [Hc Hall].
  rewrite fmap_cons. cbn [foldl fst snd isRecord sessionJson].
  cbn [fst snd] in Hc, Hk'. fold (sessionJson c). rewrite Hc, (IH _ Hnd Hall).
  cbn [list_to_map foldr fst snd].
  destruct (decide (k' = k)) as [->|Hne].
  - rewrite lookup_insert_eq.
    rewrite (not_elem_of_list_to_map_1 (M := gmap string) l k Hk').
    by rewrite lookup_insert_eq.
  - rewrite (lookup_insert_ne (list_to_map l) k' k) by done.
    destruct (list_to_map l !! k); [reflexivity |]. by rewrite lookup_insert_ne.
Qed.

(** Loading the document [persist] wrote gives the session map back. *)
Lemma load_payload s io m :
  persistencePath s <> None ->
  map_Forall (fun _ c => storable (maxHistory s) c) m ->
  sessions (loadFromDisk (withSessions s ∅) (Parsed (payload io m))) = m.
Proof.
  intros Hp Hm. unfold loadFromDisk. simpl.
  destruct (persistencePath s); [| done]. simpl.
  apply map_eq. intros k.
  rewrite (loadEntries_lookup s (map_to_list m) ∅ k).
  - rewrite list_to_map_to_list. destruct (m !! k); [reflexivity | apply lookup_empty].
  - apply NoDup_fst_map_to_list.
  - apply Forall_forall. intros [k' c] Hin%elem_of_map_to_list.
    apply loadSession_json. exact (Hm k' c Hin).
Qed.

(** ** How the operations change the world *)

Lemma persist_store io w : store (persist io w) = store w.
Proof. unfold persist. destruct (persistencePath _), (writeOk io); reflexivity. Qed.

Lemma persist_disk io w :
  disk (persist io w) = disk w
  \/ disk (persist io w) = Parsed (payload io (sessions (store w))).
Proof. unfold persist. destruct (persistencePath _), (writeOk io); auto. Qed.

Lemma getOrCreate_fst k s : (getOrCreate k s).1 = default (fresh s) (sessions s !! k).
Proof. unfold getOrCreate. by destruct (sessions s !! k). Qed.

Lemma getOrCreate_sessions k s :
  sessions (getOrCreate k s).2
  = match sessions s !! k with
    | Some _ => sessions s
    | None => <[k := fresh s]> (sessions s)
    end.
Proof. unfold getOrCreate. by destruct (sessions s !! k). Qed.

Lemma getOrCreate_config k s : sameConfig s (getOrCreate k s).2.
Proof. unfold getOrCreate, sameConfig. by destruct (sessions s !! k). Qed.

Lemma mutate_sessions k f io w :
  sessions (store (mutate k f io w))
  = <[k := f (default (fresh (store w)) (sessions (store w) !! k))]> (sessions (store w)).
Proof.
  unfold mutate, getOrCreate.
  destruct (sessions (store w) !! k); rewrite persist_store; simpl; [reflexivity |].
  apply insert_insert_eq.
Qed.

Lemma mutate_config k f io w : sameConfig (store w) (store (mutate k f io w)).
Proof.
  unfold mutate, getOrCreate, sameConfig.
  destruct (sessions (store w) !! k); by rewrite persist_store.
Qed.

Lemma mutate_disk k f io w :
  disk (mutate k f io w) = disk w
  \/ disk (mutate k f io w) = Parsed (payload io (sessions (store (mutate k f io w)))).
Proof.
  unfold mutate, getOrCreate.
  destruct (sessions (store w) !! k);
    match goal with |- context [persist io ?w'] =>
      destruct (persist_disk io w') as [E|E]; rewrite persist_store; rewrite E; auto
    end.
Qed.

Lemma mutate_Forall (P : ChatSession -> Prop) k f io w :
  map_Forall (fun _ => P) (sessions (store w)) ->
  P (fresh (store w)) ->
  (forall c, P c -> P (f c)) ->
  map_Forall (fun _ => P) (sessions (store (mutate k f io w))).
Proof.
  intros Hall Hfresh Hf. rewrite mutate_sessions.
  apply map_Forall_insert_2; [| exact Hall].
  apply Hf. destruct (sessions (store w) !! k) eqn:E; [exact (Hall k _ E) | exact Hfresh].
Qed.

Lemma getOrCreate_Forall (P : ChatSession -> Prop) k s :
  map_Forall (fun _ => P) (sessions s) -> P (fresh s) ->
  map_Forall (fun _ => P) (sessions (getOrCreate k s).2).
Proof.
  intros Hall Hfresh. rewrite getOrCreate_sessions.
  destruct (sessions s !! k); [exact Hall |]. by apply map_Forall_insert_2.
Qed.

(** ** Sessions that can be stored *)

Lemma storable_fresh mh dp : 0 <= mh -> storable mh (Session dp [] ∅ ∅).
Proof.
  intros Hmh. split; [constructor |]. split; [simpl; lia |].
  split; intros p v Hv; simpl in Hv; by rewrite lookup_empty in Hv.
Qed.

Lemma normalOverrides_set p value o :
  normalOverrides o -> normalOverrides (setOverride p value o).
Proof.
  intros Ho q v. unfold setOverride, isBlank.
  destruct value as [x|].
  - destruct (Js.truthy (Js.trim x)) eqn:E; simpl.
    + destruct (decide (p = q)) as [->|Hne].
      * rewrite lookup_insert_eq. intros [= <-].
        split; [apply JsFacts.trim_idem | by apply JsFacts.truthy_true].
      * rewrite lookup_insert_ne by done. apply Ho.
    + intros Hv%lookup_delete_Some. apply (Ho q v), Hv.
  - intros Hv%lookup_delete_Some. apply (Ho q v), Hv.
Qed.

Lemma storable_pushExchange mh c u a :
  1 <= mh -> u <> "" -> a <> "" -> storable mh c ->
  storable mh (Session (provider c) (pushExchange mh (history c) u a)
                       (modelOverrides c) (reasoningEffortOverrides c)).
Proof.
  intros Hmh Hu Ha (Hh & _ & Hm & Hr).
  split; [| split; [| split]]; simpl; try assumption.
  - assert (Happ : Forall storableMessage
                     (history c ++ [Message user u] ++ [Message assistant a])).
    { apply Forall_app. split; [exact Hh |].
      repeat constructor; simpl; congruence. }
    unfold pushExchange. destruct (_ >? _); [by apply Forall_trimmed | exact Happ].
  - by apply pushExchange_length.
Qed.

Lemma normalizeMessage_storable item m :
  normalizeMessage item = Some m -> storableMessage m.
Proof.
  unfold normalizeMessage. destruct (negb _); [done |].
  destruct (get item "role") as [[]|]; try done.
  destruct (get item "content") as [[]|]; try done.
  destruct (_ && _) eqn:E; [| done]. intros [= <-].
  apply andb_prop in E as [_ E]. rewrite JsFacts.strlen_pos in E.
  split; simpl; [by destruct (String.eqb _ _) | by apply JsFacts.truthy_true].
Qed.

Lemma normalizeHistory_storable input : Forall storableMessage (normalizeHistory input).
Proof.
  destruct input as [[]|]; simpl; try constructor.
  apply Forall_forall. intros m (item & _ & Hm)%list_elem_of_omap.
  eapply normalizeMessage_storable, Hm.
Qed.

Lemma normalizeOverrides_normal input : normalOverrides (normalizeOverrides input).
Proof.
  assert (Hstep : forall obj p out, normalOverrides out ->
    normalOverrides
      match get obj (providerId p) with
      | Some (JStr value) =>
          if Js.truthy (Js.trim value) then <[p := Js.trim value]> out else out
      | _ => out
      end).
  { intros obj p out Hout. destruct (get obj (providerId p)) as [[]|]; try done.
    destruct (Js.truthy (Js.trim s)) eqn:E; [| done].
    intros q v. destruct (decide (p = q)) as [->|Hne].
    - rewrite lookup_insert_eq. intros [= <-].
      split; [apply JsFacts.trim_idem | by apply JsFacts.truthy_true].
    - rewrite lookup_insert_ne by done. apply Hout. }
  assert (Hempty : normalOverrides ∅).
  { intros p v Hv. by rewrite lookup_empty in Hv. }
  destruct input as [[]|]; try exact Hempty.
  unfold normalizeOverrides, providerNames. cbn [foldl].
  by do 2 apply Hstep.
Qed.

Lemma loadSession_storable s value :
  1 <= maxHistory s -> storable (maxHistory s) (loadSession s value).
Proof.
  intros Hmh. unfold loadSession. split; [| split; [| split]]; simpl.
  - unfold trimHistory. destruct (_ <=? _).
    + apply normalizeHistory_storable.
    + apply Forall_trimmed, normalizeHistory_storable.
  - by apply trimHistory_length.
  - apply normalizeOverrides_normal.
  - apply normalizeOverrides_normal.
Qed.

Lemma loadFromDisk_config s d : sameConfig s (loadFromDisk s d).
Proof.
  unfold loadFromDisk, sameConfig.
  destruct s as [dp mh [path|] ss], d as [| |raw]; simpl; try done.
  destruct (get raw "version") as [[| |[|[]|]| | |]|]; try done.
  destruct (get raw "sessions") as [[]|]; done.
Qed.

Lemma loadFromDisk_storable s d :
  1 <= maxHistory s ->
  map_Forall (fun _ => storable (maxHistory s)) (sessions s) ->
  map_Forall (fun _ => storable (maxHistory s)) (sessions (loadFromDisk s d)).
Proof.
  intros Hmh Hs. unfold loadFromDisk.
  destruct (persistencePath s), d as [| |raw]; try exact Hs.
  destruct (get raw "version") as [[| |[|[]|]| | |]|]; try done.
  destruct (get raw "sessions") as [[| | | | |entries]|]; try done.
  simpl. unfold loadEntries.
  generalize dependent (sessions s). induction entries as [|[k v] entries IH]; intros acc Hacc.
  - exact Hacc.
  - simpl. apply IH. destruct v; try exact Hacc.
    apply map_Forall_insert_2; [by apply loadSession_storable | exact Hacc].
Qed.

(** ** Invariants along the operations *)

Lemma getter_world k w :
  (getProvider k w).2 = MkWorld (getOrCreate k (store w)).2 (disk w)
  /\ (forall p, (getModel k p w).2 = MkWorld (getOrCreate k (store w)).2 (disk w))
  /\ (forall p, (getReasoningEffort k p w).2 = MkWorld (getOrCreate k (store w)).2 (disk w))
  /\ (forall u sp, (buildPrompt k u sp w).2 = MkWorld (getOrCreate k (store w)).2 (disk w)).
Proof.
  unfold getProvider, getModel, getReasoningEffort, buildPrompt.
  destruct (getOrCreate k (store w)). repeat split.
Qed.

Lemma loadFromDisk_unparsed s d : noSessionFile d = true -> loadFromDisk s d = s.
Proof. unfold loadFromDisk. destruct (persistencePath s), d; done. Qed.

Lemma applyOp_config io op w : sameConfig (store w) (store (applyOp io op w)).
Proof.
  destruct op as [k|k p|k|k p|k p m|k p|k p e|k u sp|k u a|]; simpl;
    try apply mutate_config;
    try (destruct (getter_world k w) as (E1 & E2 & E3 & E4);
         rewrite ?E1, ?E2, ?E3, ?E4; apply getOrCreate_config).
  - unfold reset. by rewrite persist_store.
  - unfold restart. simpl. apply (loadFromDisk_config (withSessions (store w) ∅)).
Qed.

Lemma runOps_config ops w : sameConfig (store w) (store (runOps ops w)).
Proof.
  unfold runOps. revert w. induction ops as [|[op io] ops IH]; intros w; [done |].
  simpl. destruct (IH (applyOp io op w)) as (E1 & E2 & E3).
  destruct (applyOp_config io op w) as (F1 & F2 & F3).
  unfold sameConfig. rewrite E1, E2, E3. done.
Qed.

Section Preserved.

(** A property of sessions that the session-level updates keep. *)
Variable mh : Z.
Variable P : ChatSession -> Prop.
Variable allowed : string -> string -> Prop.

Hypothesis P_fresh : forall dp, P (Session dp [] ∅ ∅).
Hypothesis P_provider : forall c p,
  P c -> P (Session p (history c) (modelOverrides c) (reasoningEffortOverrides c)).
Hypothesis P_model : forall c p v,
  P c -> P (Session (provider c) (history c) (setOverride p v (modelOverrides c))
                    (reasoningEffortOverrides c)).
Hypothesis P_effort : forall c p v,
  P c -> P (Session (provider c) (history c) (modelOverrides c)
                    (setOverride p v (reasoningEffortOverrides c))).
Hypothesis P_push : forall c u a,
  allowed u a ->
  P c -> P (Session (provider c) (pushExchange mh (history c) u a)
                    (modelOverrides c) (reasoningEffortOverrides c)).

Lemma applyOp_sessions_Forall io op w :
  maxHistory (store w) = mh -> op <> ORestart -> opAllowed allowed op ->
  map_Forall (fun _ => P) (sessions (store w)) ->
  map_Forall (fun _ => P) (sessions (store (applyOp io op w))).
Proof.
  intros Hmh Hop Hal Hw.
  destruct op as [k|k p|k|k p|k p m|k p|k p e|k u sp|k u a|]; simpl;
    try (destruct (getter_world k w) as (E1 & E2 & E3 & E4);
         rewrite ?E1, ?E2, ?E3, ?E4; simpl;
         apply getOrCreate_Forall; [exact Hw | apply P_fresh]);
    try (apply mutate_Forall; [exact Hw | apply P_fresh | intros c Hc]).
  - by apply P_provider.
  - unfold reset. rewrite persist_store. simpl. by apply map_Forall_delete.
  - by apply P_model.
  - by apply P_effort.
  - rewrite Hmh. by apply P_push.
  - done.
Qed.

(** When also every session read from a file has the property, it holds
    in all states. *)
Hypothesis P_load : forall s value, maxHistory s = mh -> P (loadSession s value).

Lemma loadFromDisk_Forall s d :
  maxHistory s = mh ->
  map_Forall (fun _ => P) (sessions s) ->
  map_Forall (fun _ => P) (sessions (loadFromDisk s d)).
Proof.
  intros Hmh Hs. unfold loadFromDisk.
  destruct (persistencePath s), d as [| |raw]; try exact Hs.
  destruct (get raw "version") as [[| |[|[]|]| | |]|]; try done.
  destruct (get raw "sessions") as [[| | | | |entries]|]; try done.
  simpl. unfold loadEntries.
  generalize dependent (sessions s). induction entries as [|[k v] entries IH]; intros acc Hacc.
  - exact Hacc.
  - simpl. apply IH. destruct v; try exact Hacc.
    apply map_Forall_insert_2; [by apply P_load | exact Hacc].
Qed.

Lemma applyOp_Forall io op w :
  maxHistory (store w) = mh -> opAllowed allowed op ->
  map_Forall (fun _ => P) (sessions (store w)) ->
  map_Forall (fun _ => P) (sessions (store (applyOp io op w))).
Proof.
  intros Hmh Hal Hw.
  assert (Hcases : op = ORestart \/ op <> ORestart) by (destruct op; auto).
  destruct Hcases as [->|Hop].
  - simpl. apply loadFromDisk_Forall; [exact Hmh |]. simpl. apply map_Forall_empty.
  - by apply applyOp_sessions_Forall.
Qed.

Lemma runOps_Forall ops w :
  maxHistory (store w) = mh -> Forall (fun oi => opAllowed allowed oi.1) ops ->
  map_Forall (fun _ => P) (sessions (store w)) ->
  map_Forall (fun _ => P) (sessions (store (runOps ops w))).
Proof.
  unfold runOps. revert w.
  induction ops as [|[op io] ops IH]; intros w Hmh Hops Hw; [exact Hw |].
  apply Forall_cons in Hops as [Hop Hops]. simpl. apply IH; [| exact Hops |].
  - destruct (applyOp_config io op w) as (_ & -> & _). exact Hmh.
  - by apply applyOp_Forall.
Qed.

Lemma create_Forall dp path d :
  map_Forall (fun _ => P) (sessions (store (create dp mh path d))).
Proof.
  unfold create. simpl. apply loadFromDisk_Forall; [reflexivity |].
  simpl. apply map_Forall_empty.
Qed.

End Preserved.

(** ** Well-formed sessions, and the file the store wrote *)

Lemma wellFormed_fresh mh dp : 0 <= mh -> wellFormed mh (Session dp [] ∅ ∅).
Proof. intros Hmh. split; [by apply storable_fresh | reflexivity]. Qed.

Lemma wellFormed_pushExchange mh c u a :
  1 <= mh -> u <> "" /\ a <> "" -> wellFormed mh c ->
  wellFormed mh (Session (provider c) (pushExchange mh (history c) u a)
                         (modelOverrides c) (reasoningEffortOverrides c)).
Proof.
  intros Hmh [Hu Ha] [Hs Halt]. split.
  - by apply storable_pushExchange.
  - simpl. by apply alternates_pushExchange.
Qed.

Lemma sessions_wellFormed_step mh io op w :
  1 <= mh -> maxHistory (store w) = mh -> op <> ORestart ->
  opAllowed (fun u a => u <> "" /\ a <> "") op ->
  map_Forall (fun _ => wellFormed mh) (sessions (store w)) ->
  map_Forall (fun _ => wellFormed mh) (sessions (store (applyOp io op w))).
Proof.
  intros Hmh Hw Hop Hal.
  apply (applyOp_sessions_Forall mh (wellFormed mh) (fun u a => u <> "" /\ a <> ""));
    try assumption.
  - intros dp. apply wellFormed_fresh. lia.
  - intros c p [(H1 & H2 & H3 & H4) Halt].
    split; [| exact Halt]. split; [exact H1 |]. split; [exact H2 |].
    split; [exact H3 | exact H4].
  - intros c p v [(H1 & H2 & H3 & H4) Halt].
    split; [| exact Halt]. split; [exact H1 |]. split; [exact H2 |].
    split; [by apply normalOverrides_set | exact H4].
  - intros c p v [(H1 & H2 & H3 & H4) Halt].
    split; [| exact Halt]. split; [exact H1 |]. split; [exact H2 |].
    split; [exact H3 | by apply normalOverrides_set].
  - intros c u a Hua Hc. by apply wellFormed_pushExchange.
Qed.

Lemma disk_step io op w :
  op <> ORestart ->
  disk (applyOp io op w) = disk w
  \/ disk (applyOp io op w) = Parsed (payload io (sessions (store (applyOp io op w)))).
Proof.
  intros Hop.
  destruct op as [k|k p|k|k p|k p m|k p|k p e|k u sp|k u a|]; simpl;
    try apply mutate_disk;
    try (destruct (getter_world k w) as (E1 & E2 & E3 & E4);
         rewrite ?E1, ?E2, ?E3, ?E4; by left).
  - unfold reset.
    match goal with |- context [persist io ?w'] =>
      destruct (persist_disk io w') as [E|E]; rewrite persist_store; rewrite E; auto
    end.
  - done.
Qed.

Lemma restart_healthy w :
  healthy w -> healthy (restart w).
Proof.
  intros [Hs Hd]. unfold healthy, restart. simpl.
  destruct (loadFromDisk_config (withSessions (store w) ∅) (disk w)) as (_ & Hmh & _).
  simpl in Hmh. rewrite Hmh. split; [| exact Hd].
  destruct (disk w) as [| |raw] eqn:E;
    try (rewrite loadFromDisk_unparsed by done; simpl; apply map_Forall_empty).
  destruct Hd as (io & m & -> & Hm).
  destruct (persistencePath (store w)) eqn:Ep.
  - rewrite load_payload.
    + exact Hm.
    + simpl. by rewrite Ep.
    + intros k c Hk. apply (Hm k c Hk).
  - unfold loadFromDisk. simpl. rewrite Ep. simpl. apply map_Forall_empty.
Qed.

Lemma applyOp_healthy io op w :
  1 <= maxHistory (store w) ->
  opAllowed (fun u a => u <> "" /\ a <> "") op ->
  healthy w -> healthy (applyOp io op w).
Proof.
  intros Hmh Hal Hw.
  assert (Hcases : op = ORestart \/ op <> ORestart) by (destruct op; auto).
  destruct Hcases as [->|Hop]; [by apply restart_healthy |].
  destruct Hw as [Hs Hd]. unfold healthy.
  destruct (applyOp_config io op w) as (_ & -> & _).
  assert (Hs' := sessions_wellFormed_step _ io op w Hmh eq_refl Hop Hal Hs).
  split; [exact Hs' |].
  destruct (disk_step io op w Hop) as [-> | ->]; [exact Hd |].
  simpl. eauto.
Qed.

Lemma runOps_healthy ops w :
  1 <= maxHistory (store w) ->
  Forall (fun oi => opAllowed (fun u a => u <> "" /\ a <> "") oi.1) ops ->
  healthy w -> healthy (runOps ops w).
Proof.
  unfold runOps. revert w.
  induction ops as [|[op io] ops IH]; intros w Hmh Hops Hw; [exact Hw |].
  apply Forall_cons in Hops as [Hop Hops]. simpl. apply IH; [| exact Hops |].
  - by destruct (applyOp_config io op w) as (_ & -> & _).
  - by apply applyOp_healthy.
Qed.

Lemma create_healthy dp mh path d :
  0 <= mh -> noSessionFile d = true -> healthy (create dp mh path d).
Proof.
  intros Hmh Hd. unfold create, healthy. simpl.
  rewrite loadFromDisk_unparsed by done. simpl.
  split; [apply map_Forall_empty | by destruct d].
Qed.

Lemma nonEmptyExchange_allowed op :
  nonEmptyExchange op = true -> opAllowed (fun u a => u <> "" /\ a <> "") op.
Proof.
  destruct op; simpl; try done.
  intros [Hu Ha]%andb_prop. split; by apply JsFacts.truthy_true.
Qed.

Lemma historyOf_Forall (Q : list ConversationMessage -> Prop) k w :
  Q [] -> map_Forall (fun _ c => Q (history c)) (sessions (store w)) -> Q (historyOf k w).
Proof.
  intros Hnil Hall. unfold historyOf.
  destruct (sessions (store w) !! k) eqn:E; [exact (Hall k _ E) | exact Hnil].
Qed.

(** ** The claims on the session store *)

Lemma create_maxHistory dp mh path d : maxHistory (store (create dp mh path d)) = mh.
Proof.
  unfold create. simpl.
  by destruct (loadFromDisk_config (MkStore dp mh
       match path with
       | Some p => if Js.truthy (Js.trim p) then Some (Js.trim p) else None
       | None => None
       end ∅) d) as (_ & -> & _).
Qed.

Lemma bounded_everywhere dp mh path d ops k :
  1 <= mh -> bounded mh (historyOf k (runOps ops (create dp mh path d))).
Proof.
  intros Hmh.
  apply (historyOf_Forall (bounded mh)); [unfold bounded; simpl; lia |].
  apply (runOps_Forall mh (fun c => bounded mh (history c)) (fun _ _ => True)).
  - intros ?. unfold bounded. simpl. lia.
  - done.
  - done.
  - done.
  - intros c u a _ _. simpl. by apply pushExchange_length.
  - intros s value <-. simpl. by apply trimHistory_length.
  - apply create_maxHistory.
  - apply Forall_forall. intros [[] ?] _; done.
  - apply create_Forall.
    intros s value <-. simpl. by apply trimHistory_length.
Qed.

Lemma forallb_nonEmpty ops :
  forallb (fun oi : Op * PersistIO => nonEmptyExchange oi.1) ops = true ->
  Forall (fun oi => opAllowed (fun u a => u <> "" /\ a <> "") oi.1) ops.
Proof.
  intros H. apply Forall_forall. intros oi Hin.
  apply nonEmptyExchange_allowed.
  rewrite forallb_forall in H. apply H. by apply list_elem_of_In.
Qed.

Lemma reachable_healthy dp mh path d ops :
  1 <= mh -> noSessionFile d = true ->
  forallb (fun oi : Op * PersistIO => nonEmptyExchange oi.1) ops = true ->
  healthy (runOps ops (create dp mh path d)).
Proof.
  intros Hmh Hd Hops. apply runOps_healthy.
  - by rewrite create_maxHistory.
  - by apply forallb_nonEmpty.
  - apply create_healthy; [lia | exact Hd].
Qed.

(** C1, as amended.  With [maxHistory >= 1] (the configuration admits 2 to
    200): after [appendExchange], whatever the two texts, every history is at
    most [maxHistory] long in every state the store can reach from any file
    at all; and every history is empty or begins with a user message in
    every state reached from a start without a session file, through the
    operations and restarts of the store, as long as the exchanges appended
    before carried non-empty texts. *)
Theorem appendExchange_bounded_user_first
  (dp : ProviderName) (mh : Z) (path : option string)
  (ops : list (Op * PersistIO)) (k u a : string) (io : PersistIO) :
  1 <= mh ->
  (forall d k',
     bounded mh (historyOf k' (appendExchange k u a io (runOps ops (create dp mh path d)))))
  /\ (forall d k',
        noSessionFile d = true ->
        forallb (fun oi : Op * PersistIO => nonEmptyExchange oi.1) ops = true ->
        userFirst (historyOf k' (appendExchange k u a io (runOps ops (create dp mh path d))))
        = true).
Proof.
  intros Hmh. split.
  - intros d k'.
    change (appendExchange k u a io (runOps ops (create dp mh path d)))
      with (applyOp io (OAppendExchange k u a) (runOps ops (create dp mh path d))).
    change (applyOp io (OAppendExchange k u a) (runOps ops (create dp mh path d)))
      with (foldl (fun w oi => applyOp oi.2 oi.1 w)
                  (runOps ops (create dp mh path d)) [(OAppendExchange k u a, io)]).
    unfold runOps. rewrite <- foldl_app.
    by apply (bounded_everywhere dp mh path d (ops ++ [(OAppendExchange k u a, io)])).
  - intros d k' Hd Hops.
    destruct (reachable_healthy dp mh path d ops Hmh Hd Hops) as [Hs _].
    set (w := runOps ops (create dp mh path d)) in *.
    assert (Hw : maxHistory (store w) = mh).
    { destruct (runOps_config ops (create dp mh path d)) as (_ & E & _).
      unfold w. rewrite E. apply create_maxHistory. }
    rewrite Hw in Hs.
    apply (historyOf_Forall (fun h => userFirst h = true)); [reflexivity |].
    change (appendExchange k u a io w) with (applyOp io (OAppendExchange k u a) w).
    apply (applyOp_sessions_Forall mh (fun c => userFirst (history c) = true /\
             alternates true (history c) = true) (fun _ _ => True)) with
         (io := io) (op := OAppendExchange k u a) (w := w) in Hw as Hres.
    + intros k0 c Hc. exact (proj1 (Hres k0 c Hc)).
    + done.
    + done.
    + done.
    + done.
    + intros c u0 a0 _ [_ Halt]. simpl.
      pose proof (alternates_pushExchange mh (history c) u0 a0 Halt) as Hp.
      split; [by apply alternates_userFirst | exact Hp].
    + done.
    + done.
    + intros k0 c Hc. destruct (Hs k0 c Hc) as [_ Halt].
      split; [by apply alternates_userFirst | exact Halt].
Qed.

Lemma appendExchange_bounded_user_first_witness :
  1 <= 2
  /\ bounded 2
       (historyOf "telegram:7"
          (appendExchange "telegram:7" "second" "reply 2" (MkIO "t2" true)
             (runOps [(OAppendExchange "telegram:7" "first" "reply 1", MkIO "t0" true);
                      (ORestart, MkIO "t1" true)]
                     (create codex 2 (Some "store.json") NoFile))))
  /\ userFirst
       (historyOf "telegram:7"
          (appendExchange "telegram:7" "second" "reply 2" (MkIO "t2" true)
             (runOps [(OAppendExchange "telegram:7" "first" "reply 1", MkIO "t0" true);
                      (ORestart, MkIO "t1" true)]
                     (create codex 2 (Some "store.json") NoFile)))) = true.
Proof.
  split; [lia |].
  destruct (appendExchange_bounded_user_first codex 2 (Some "store.json")
              [(OAppendExchange "telegram:7" "first" "reply 1", MkIO "t0" true);
               (ORestart, MkIO "t1" true)]
              "telegram:7" "second" "reply 2" (MkIO "t2" true)) as [Hb Hu]; [lia |].
  split; [apply Hb | apply Hu; reflexivity].
Defined.

(** C1, as stated, fails: an exchange with an empty user text is written
    to the file in full, but read back without its user message, so after a
    restart the history begins with the assistant message and stays so
    after the next [appendExchange]. *)
Lemma user_first_lost_across_restart :
  userFirst
    (historyOf "telegram:7"
       (appendExchange "telegram:7" "again" "ok" (MkIO "t2" true)
          (restart
             (appendExchange "telegram:7" "" "hi" (MkIO "t1" true)
                (create codex 20 (Some "store.json") NoFile))))) = false.
Proof. vm_compute. reflexivity. Qed.

(** C3, as amended.  With [maxHistory >= 1], in every state the store
    reaches from any file through its operations and restarts, as long as
    the exchanges appended carried non-empty texts: persisting and loading
    again gives back the very same session map (same keys, and for each the
    same provider, history and override maps). *)
Theorem persist_then_load_round_trip
  (dp : ProviderName) (mh : Z) (path : option string) (d : DiskFile)
  (ops : list (Op * PersistIO)) (io : PersistIO) :
  1 <= mh ->
  forallb (fun oi : Op * PersistIO => nonEmptyExchange oi.1) ops = true ->
  persistencePath (store (runOps ops (create dp mh path d))) <> None ->
  writeOk io = true ->
  sessions (store (restart (persist io (runOps ops (create dp mh path d)))))
  = sessions (store (runOps ops (create dp mh path d))).
Proof.
  intros Hmh Hops Hpath Hok.
  set (w := runOps ops (create dp mh path d)) in *.
  assert (Hw : maxHistory (store w) = mh).
  { destruct (runOps_config ops (create dp mh path d)) as (_ & E & _).
    unfold w. rewrite E. apply create_maxHistory. }
  assert (Hs : map_Forall (fun _ => storable mh) (sessions (store w))).
  { apply (runOps_Forall mh (storable mh) (fun u a => u <> "" /\ a <> "")).
    - intros ?. apply storable_fresh. lia.
    - intros c p (H1 & H2 & H3 & H4).
      split; [exact H1 |]. split; [exact H2 |]. split; [exact H3 | exact H4].
    - intros c p v (H1 & H2 & H3 & H4).
      split; [exact H1 |]. split; [exact H2 |].
      split; [by apply normalOverrides_set | exact H4].
    - intros c p v (H1 & H2 & H3 & H4).
      split; [exact H1 |]. split; [exact H2 |].
      split; [exact H3 | by apply normalOverrides_set].
    - intros c u a [Hu Ha] Hc. by apply storable_pushExchange.
    - intros s value <-. apply loadSession_storable. lia.
    - apply create_maxHistory.
    - by apply forallb_nonEmpty.
    - apply create_Forall. intros s value <-. apply loadSession_storable. lia. }
  unfold restart, persist.
  destruct (persistencePath (store w)) eqn:Ep; [| done]. rewrite Hok. simpl.
  apply load_payload; [by rewrite Ep | by rewrite Hw].
Qed.

Lemma persist_then_load_round_trip_witness :
  1 <= 4
  /\ sessions (store (restart (persist (MkIO "t9" true)
        (runOps [(OSetModel "telegram:7" codex (Some " gpt-x "), MkIO "t0" true);
                 (OAppendExchange "telegram:7" "hello" "hi there", MkIO "t1" true);
                 (OSetProvider "telegram:8" claude, MkIO "t2" true)]
                (create codex 4 (Some "store.json") Unreadable)))))
     = sessions (store
        (runOps [(OSetModel "telegram:7" codex (Some " gpt-x "), MkIO "t0" true);
                 (OAppendExchange "telegram:7" "hello" "hi there", MkIO "t1" true);
                 (OSetProvider "telegram:8" claude, MkIO "t2" true)]
                (create codex 4 (Some "store.json") Unreadable))).
Proof.
  split; [lia |].
  apply (persist_then_load_round_trip codex 4 (Some "store.json") Unreadable
           [(OSetModel "telegram:7" codex (Some " gpt-x "), MkIO "t0" true);
            (OAppendExchange "telegram:7" "hello" "hi there", MkIO "t1" true);
            (OSetProvider "telegram:8" claude, MkIO "t2" true)]
           (MkIO "t9" true)).
  - lia.
  - reflexivity.
  - vm_compute. discriminate.
  - reflexivity.
Defined.

(** C3, as stated, fails: the store accepts an exchange with an empty user
    text, [persist] writes it, and [loadFromDisk] drops the message whose
    content is empty. *)
Lemma round_trip_drops_empty_message :
  historyOf "telegram:7"
    (restart (persist (MkIO "t2" true)
       (appendExchange "telegram:7" "" "hi" (MkIO "t1" true)
          (create codex 20 (Some "store.json") NoFile))))
  <> historyOf "telegram:7"
       (appendExchange "telegram:7" "" "hi" (MkIO "t1" true)
          (create codex 20 (Some "store.json") NoFile)).
Proof. vm_compute. discriminate. Qed.



End StoreFacts.

(* ===================================================================== *)
(** * Orchestrator: failures and history, the per-key lock *)
(* ===================================================================== *)

Module ChatFacts.
Import Json SessionStore StoreFacts ChatService.

(** ** askStream and the history *)

Lemma historyOf_getOrCreate k k' w :
  historyOf k' (MkWorld (getOrCreate k (store w)).2 (disk w)) = historyOf k' w.
Proof.
  unfold historyOf. simpl. rewrite getOrCreate_sessions.
  destruct (sessions (store w) !! k) eqn:E; [reflexivity |].
  destruct (decide (k = k')) as [<-|Hne].
  - by rewrite lookup_insert_eq, E.
  - by rewrite lookup_insert_ne.
Qed.

Lemma historyOf_setProvider k p io k' w :
  historyOf k' (setProvider k p io w) = historyOf k' w.
Proof.
  unfold historyOf, setProvider. rewrite mutate_sessions.
  destruct (decide (k = k')) as [<-|Hne].
  - rewrite lookup_insert_eq. simpl. by destruct (sessions (store w) !! k).
  - by rewrite lookup_insert_ne.
Qed.

Lemma historyOf_appendExchange k u a io w :
  historyOf k (appendExchange k u a io w)
  = pushExchange (maxHistory (store w)) (historyOf k w) u a.
Proof.
  unfold historyOf, appendExchange. rewrite mutate_sessions, lookup_insert_eq.
  simpl. by destruct (sessions (store w) !! k).
Qed.

Lemma getter_touch k w :
  (getProvider k w).2 = touch k w
  /\ (forall p, (getModel k p w).2 = touch k w)
  /\ (forall p, (getReasoningEffort k p w).2 = touch k w)
  /\ (forall u sp, (buildPrompt k u sp w).2 = touch k w).
Proof. apply getter_world. Qed.

Lemma historyOf_touch k k' w : historyOf k' (touch k w) = historyOf k' w.
Proof. apply historyOf_getOrCreate. Qed.

Lemma maxHistory_touch k w : maxHistory (store (touch k w)) = maxHistory (store w).
Proof. unfold touch. simpl. by destruct (getOrCreate_config k (store w)) as (_ & -> & _). Qed.

Lemma maxHistory_setProvider k p io w :
  maxHistory (store (setProvider k p io w)) = maxHistory (store w).
Proof.
  unfold setProvider.
  match goal with |- context [mutate k ?f io w] =>
    by destruct (mutate_config k f io w) as (_ & -> & _)
  end.
Qed.

(** The tail of [askStreamBegin], once the provider is resolved, is three
    getters in a row. *)
Lemma askStreamBegin_tail svc k u name provider w2 :
  (let '(prompt, w3) := buildPrompt k u (systemPrompt svc) w2 in
   let '(selectedModel, w4) := getModel k name w3 in
   let '(selectedReasoningEffort, w5) := getReasoningEffort k name w4 in
   (Fulfilled (MkInFlight name prompt
                 (StreamOptions selectedModel selectedReasoningEffort) provider),
    w5)).2 = touch k (touch k (touch k w2))
  /\ exists f,
      (let '(prompt, w3) := buildPrompt k u (systemPrompt svc) w2 in
       let '(selectedModel, w4) := getModel k name w3 in
       let '(selectedReasoningEffort, w5) := getReasoningEffort k name w4 in
       (Fulfilled (MkInFlight name prompt
                     (StreamOptions selectedModel selectedReasoningEffort) provider),
        w5)).1 = Fulfilled f.
Proof.
  destruct (getter_touch k w2) as (_ & _ & _ & E4).
  specialize (E4 u (systemPrompt svc)).
  destruct (buildPrompt k u (systemPrompt svc) w2) as [prompt w3]. cbn [snd] in E4. subst w3.
  destruct (getter_touch k (touch k w2)) as (_ & E2 & _ & _). specialize (E2 name).
  destruct (getModel k name (touch k w2)) as [m w4]. cbn [snd] in E2. subst w4.
  destruct (getter_touch k (touch k (touch k w2))) as (_ & _ & E3 & _). specialize (E3 name).
  destruct (getReasoningEffort k name (touch k (touch k w2))) as [e w5].
  cbn [snd] in E3. subst w5.
  split; [reflexivity | eauto].
Qed.

(** Where [askStreamBegin] leaves the world: the getters may have created
    the session, and the fallback provider may have been recorded. *)
Lemma askStreamBegin_world svc k u io w :
  (exists n, (askStreamBegin svc k u io w).2 = Nat.iter n (touch k) w)
  \/ (exists n fallback,
        (askStreamBegin svc k u io w).2
        = Nat.iter n (touch k) (setProvider k fallback io (touch k w))).
Proof.
  unfold askStreamBegin.
  destruct (getter_touch k w) as (E1 & _).
  destruct (getProvider k w) as [name0 w1]. cbn [snd] in E1. subst w1.
  destruct (providersGet svc name0) as [provider|].
  - left. exists 4%nat.
    destruct (askStreamBegin_tail svc k u name0 provider (touch k w)) as [E _].
    exact E.
  - destruct (getAvailableProviders svc) as [|fallback rest].
    + left. by exists 1%nat.
    + right. destruct (providersGet svc fallback) as [provider|].
      * exists 3%nat, fallback.
        destruct (askStreamBegin_tail svc k u fallback provider
                    (setProvider k fallback io (touch k w))) as [E _].
        exact E.
      * by exists 0%nat, fallback.
Qed.

Lemma iter_touch_history n k k' w :
  historyOf k' (Nat.iter n (touch k) w) = historyOf k' w.
Proof.
  induction n as [|n IH]; [reflexivity |].
  change (Nat.iter (S n) (touch k) w) with (touch k (Nat.iter n (touch k) w)).
  by rewrite historyOf_touch.
Qed.

Lemma iter_touch_maxHistory n k w :
  maxHistory (store (Nat.iter n (touch k) w)) = maxHistory (store w).
Proof.
  induction n as [|n IH]; [reflexivity |].
  change (Nat.iter (S n) (touch k) w) with (touch k (Nat.iter n (touch k) w)).
  by rewrite maxHistory_touch.
Qed.

(** Up to the call of the adapter nothing touches a history. *)
Lemma askStreamBegin_history svc k u io w k' :
  historyOf k' (askStreamBegin svc k u io w).2 = historyOf k' w.
Proof.
  destruct (askStreamBegin_world svc k u io w) as [[n ->] | (n & fallback & ->)].
  - apply iter_touch_history.
  - by rewrite iter_touch_history, historyOf_setProvider, historyOf_touch.
Qed.

Lemma askStreamBegin_maxHistory svc k u io w :
  maxHistory (store (askStreamBegin svc k u io w).2) = maxHistory (store w).
Proof.
  destruct (askStreamBegin_world svc k u io w) as [[n ->] | (n & fallback & ->)].
  - apply iter_touch_maxHistory.
  - by rewrite iter_touch_maxHistory, maxHistory_setProvider, maxHistory_touch.
Qed.

(** [askStreamBegin] only rejects when no provider is configured. *)
Lemma askStreamBegin_rejected svc k u io w e :
  (askStreamBegin svc k u io w).1 = Rejected e ->
  getAvailableProviders svc = [] /\ e = "No LLM providers are available.".
Proof.
  unfold askStreamBegin.
  destruct (getProvider k w) as [name0 w1].
  destruct (providersGet svc name0) as [provider|] eqn:Ep.
  - destruct (askStreamBegin_tail svc k u name0 provider w1) as [_ [f ->]]. done.
  - unfold providersGet, getAvailableProviders in *.
    destruct (providers svc) as [|[fallback pr] rest] eqn:Epr.
    + by intros [= <-].
    + simpl. rewrite bool_decide_eq_true_2 by done. simpl.
      destruct (askStreamBegin_tail svc k u fallback pr
                  (setProvider k fallback io w1)) as [_ [f ->]]. done.
Qed.

(** C7.  When [askStream] fails, whether no provider is available or the
    adapter's stream rejects, the caller gets that error and every
    conversation's history is what it was before the request; when it
    succeeds, the exchange has been appended to the conversation's history.
    The same holds with other work in between: what runs before the adapter
    is called leaves every history alone, and once the adapter has rejected
    nothing is written at all. *)
Theorem askStream_failure_keeps_history
  (svc : Service) (k u : string) (io1 io2 : PersistIO) (w : World) :
  (forall e w', askStream svc k u io1 io2 w = (Rejected e, w') ->
     (forall k', historyOf k' w' = historyOf k' w)
     /\ ((getAvailableProviders svc = [] /\ e = "No LLM providers are available.")
         \/ exists f, (askStreamBegin svc k u io1 w).1 = Fulfilled f
                      /\ adapter f (prompt f) (options f) = Rejected e))
  /\ (forall p reply w', askStream svc k u io1 io2 w = (Fulfilled (p, reply), w') ->
        historyOf k w' = pushExchange (maxHistory (store w)) (historyOf k w) u reply)
  /\ (forall k', historyOf k' (askStreamBegin svc k u io1 w).2 = historyOf k' w)
  /\ (forall name e w1, askStreamEnd k u name (Rejected e) io2 w1 = (Rejected e, w1)).
Proof.
  split; [| split; [| split]].
  - intros e w' Hask. unfold askStream in Hask.
    pose proof (askStreamBegin_history svc k u io1 w) as Hb.
    pose proof (askStreamBegin_rejected svc k u io1 w) as Hr.
    destruct (askStreamBegin svc k u io1 w) as [[f|e0] w1] eqn:Eb; cbn [fst snd] in *.
    + unfold askStreamEnd in Hask.
      destruct (adapter f (prompt f) (options f)) as [reply|e1] eqn:Ea; [done |].
      injection Hask as <- <-. split; [exact Hb |]. right. exists f. done.
    + injection Hask as <- <-. split; [exact Hb |]. left. by apply Hr.
  - intros p reply w' Hask. unfold askStream in Hask.
    pose proof (askStreamBegin_history svc k u io1 w k) as Hb.
    pose proof (askStreamBegin_maxHistory svc k u io1 w) as Hm.
    destruct (askStreamBegin svc k u io1 w) as [[f|e0] w1] eqn:Eb; [| done].
    unfold askStreamEnd in Hask. cbn [snd] in *.
    destruct (adapter f (prompt f) (options f)) as [reply'|e1]; [| done].
    injection Hask as <- <- <-.
    by rewrite historyOf_appendExchange, Hb, Hm.
  - apply askStreamBegin_history.
  - reflexivity.
Qed.

Lemma askStream_failure_keeps_history_witness :
  (askStream (MkService [(codex, fun _ _ => Rejected "codex CLI exited with code 1")] None)
             "telegram:7" "hello" (MkIO "t1" true) (MkIO "t2" true)
             (appendExchange "telegram:7" "first" "reply 1" (MkIO "t0" true)
                (create claude 20 (Some "store.json") NoFile))).1
  = Rejected "codex CLI exited with code 1"
  /\ forall k',
       historyOf k'
         (askStream (MkService [(codex, fun _ _ => Rejected "codex CLI exited with code 1")] None)
                    "telegram:7" "hello" (MkIO "t1" true) (MkIO "t2" true)
                    (appendExchange "telegram:7" "first" "reply 1" (MkIO "t0" true)
                       (create claude 20 (Some "store.json") NoFile))).2
       = historyOf k'
           (appendExchange "telegram:7" "first" "reply 1" (MkIO "t0" true)
              (create claude 20 (Some "store.json") NoFile)).
Proof.
  split; [reflexivity |].
  destruct (askStream_failure_keeps_history
           (MkService [(codex, fun _ _ => Rejected "codex CLI exited with code 1")] None)
           "telegram:7" "hello" (MkIO "t1" true) (MkIO "t2" true)
           (appendExchange "telegram:7" "first" "reply 1" (MkIO "t0" true)
              (create claude 20 (Some "store.json") NoFile))) as [Hfail _].
  apply (Hfail "codex CLI exited with code 1"). reflexivity.
Defined.

(** ** The per-key lock *)

Lemma setStatus_lookup i st rs m r' :
  setStatus i st rs !! m = Some r' ->
  exists r, rs !! m = Some r /\ key r' = key r /\ previous r' = previous r
            /\ ((m = i /\ status r' = st) \/ (m <> i /\ status r' = status r)).
Proof.
  unfold setStatus. destruct (rs !! i) as [ri|] eqn:Ei.
  - destruct (decide (m = i)) as [->|Hne].
    + rewrite list_lookup_insert_eq by (by eapply lookup_lt_Some).
      intros [= <-]. exists ri. simpl. repeat split; auto.
    + rewrite list_lookup_insert_ne by done. intros Hm. exists r'. repeat split; auto.
  - intros Hm. exists r'. repeat split; try done. right. split; [| done].
    intros ->. congruence.
Qed.

Lemma setStatus_lookup_inv i st rs m r :
  rs !! m = Some r ->
  exists r', setStatus i st rs !! m = Some r' /\ key r' = key r
             /\ previous r' = previous r
             /\ ((m = i /\ status r' = st) \/ (m <> i /\ status r' = status r)).
Proof.
  intros Hm. unfold setStatus. destruct (rs !! i) as [ri|] eqn:Ei.
  - destruct (decide (m = i)) as [->|Hne].
    + rewrite list_lookup_insert_eq by (by eapply lookup_lt_Some).
      eexists. split; [reflexivity |]. simpl.
      assert (ri = r) by congruence. subst. repeat split; auto.
    + rewrite list_lookup_insert_ne by done. exists r. repeat split; auto.
  - exists r. repeat split; try done. right. split; [| done]. intros ->. congruence.
Qed.

(** A resolved tail means the whole chain behind it has finished. *)
Lemma tailResolved_finished l :
  lockInv l ->
  forall fuel j rj,
    tailResolved fuel (requests l) j = true ->
    requests l !! j = Some rj ->
    forall m rm, (m <= j)%nat -> requests l !! m = Some rm -> key rm = key rj ->
                 status rm = Finished.
Proof.
  intros Hinv. induction fuel as [|fuel IH]; intros j rj Hres Hj m rm Hm Hrm Hk; [done |].
  simpl in Hres. rewrite Hj in Hres.
  apply andb_prop in Hres as [Hfin Hprev]. apply bool_decide_eq_true in Hfin.
  destruct (decide (m = j)) as [->|Hne].
  { assert (rm = rj) by congruence. by subst. }
  destruct (previous rj) as [j'|] eqn:Ep.
  - destruct (inv_prev_some l Hinv j rj j' Hj Ep) as (Hlt & (rj' & Hj' & Hkj') & Hbetween).
    destruct (decide (m <= j')%nat) as [Hle|Hgt].
    + apply (IH j' rj' Hprev Hj' m rm Hle Hrm). congruence.
    + exfalso. apply (Hbetween m rm); [lia | exact Hrm | exact Hk].
  - apply (inv_prev_none l Hinv j rj Hj Ep m rm); [lia | exact Hrm | exact Hk].
Qed.

(** And conversely. *)
Lemma finished_tailResolved l :
  lockInv l ->
  forall fuel j rj,
    (j < fuel)%nat ->
    requests l !! j = Some rj ->
    (forall m rm, (m <= j)%nat -> requests l !! m = Some rm -> key rm = key rj ->
                  status rm = Finished) ->
    tailResolved fuel (requests l) j = true.
Proof.
  intros Hinv. induction fuel as [|fuel IH]; intros j rj Hlt Hj Hall; [lia |].
  simpl. rewrite Hj.
  rewrite bool_decide_eq_true_2 by (apply (Hall j rj); [lia | exact Hj | done]).
  simpl. destruct (previous rj) as [j'|] eqn:Ep; [| reflexivity].
  destruct (inv_prev_some l Hinv j rj j' Hj Ep) as (Hlt' & (rj' & Hj' & Hkj') & _).
  apply (IH j' rj'); [lia | exact Hj' |].
  intros m rm Hm Hrm Hk. apply (Hall m rm); [lia | exact Hrm | congruence].
Qed.

(** A waiting call can start exactly when every earlier call on its key
    has finished. *)
Lemma previousSettled_iff l i r :
  lockInv l -> requests l !! i = Some r ->
  previousSettled (requests l) r = true <-> earlierFinished l i r.
Proof.
  intros Hinv Hi. unfold previousSettled, earlierFinished.
  destruct (previous r) as [j|] eqn:Ep.
  - destruct (inv_prev_some l Hinv i r j Hi Ep) as (Hlt & (rj & Hj & Hkj) & Hbetween).
    split.
    + intros Hres m rm Hm Hrm Hk.
      destruct (decide (m <= j)%nat) as [Hle|Hgt].
      * apply (tailResolved_finished l Hinv (S j) j rj Hres Hj m rm Hle Hrm). congruence.
      * exfalso. apply (Hbetween m rm); [lia | exact Hrm | exact Hk].
    + intros Hall. apply (finished_tailResolved l Hinv (S j) j rj); [lia | exact Hj |].
      intros m rm Hm Hrm Hk. apply (Hall m rm); [lia | exact Hrm | congruence].
  - split; [| done]. intros _. apply (inv_prev_none l Hinv i r Hi Ep).
Qed.

Lemma noLocks_inv : lockInv noLocks.
Proof. split; intros *; simpl; try rewrite lookup_nil; try done. Qed.
Lemma call_inv l k :
  lockInv l ->
  lockInv (MkLocks (<[k := length (requests l)]> (chatLocks l))
                   (requests l ++ [MkRequest k (chatLocks l !! k) Waiting])).
Proof.
  intros Hinv. split; simpl.
  - intros i r j [[Hi Hr] | [-> <-]]%lookup_snoc_Some Hp.
    + destruct (inv_prev_some l Hinv i r j Hr Hp) as (Hlt & (rj & Hj & Hkj) & Hb).
      split; [exact Hlt |]. split.
      * exists rj. split; [| exact Hkj]. apply lookup_app_l_Some, Hj.
      * intros m rm Hm [[_ Hrm] | [-> _]]%lookup_snoc_Some; [by apply (Hb m rm) | lia].
    + simpl in *.
      destruct (inv_tail l Hinv k j Hp) as ((rj & Hj & Hkj) & Hlast).
      split; [by eapply lookup_lt_Some |]. split.
      * exists rj. split; [| exact Hkj]. apply lookup_app_l_Some, Hj.
      * intros m rm Hm [[_ Hrm] | [-> _]]%lookup_snoc_Some; [| lia].
        apply (Hlast m rm); [lia | exact Hrm].
  - intros i r [[Hi Hr] | [-> <-]]%lookup_snoc_Some Hp m rm Hm
           [[_ Hrm] | [-> _]]%lookup_snoc_Some Hk; try lia.
    + by apply (inv_prev_none l Hinv i r Hr Hp m rm).
    + simpl in *. by apply (inv_free l Hinv k Hp m rm).
  - intros k' n Hn. destruct (decide (k = k')) as [<-|Hne].
    + rewrite lookup_insert_eq in Hn. injection Hn as <-. split.
      * eexists. split; [apply lookup_snoc_Some; right; done | done].
      * intros m rm Hm Hrm. apply lookup_lt_Some in Hrm.
        rewrite length_app in Hrm. simpl in Hrm. lia.
    + rewrite lookup_insert_ne in Hn by done.
      destruct (inv_tail l Hinv k' n Hn) as ((r & Hr & Hkr) & Hlast). split.
      * exists r. split; [apply lookup_app_l_Some, Hr | exact Hkr].
      * intros m rm Hm [[_ Hrm] | [-> <-]]%lookup_snoc_Some; [by apply (Hlast m rm) | done].
  - intros k' Hk' m rm [[_ Hrm] | [-> <-]]%lookup_snoc_Some Hk.
    + destruct (decide (k = k')) as [<-|Hne]; [by rewrite lookup_insert_eq in Hk' |].
      rewrite lookup_insert_ne in Hk' by done. by apply (inv_free l Hinv k' Hk' m rm).
    + simpl in Hk. subst. by rewrite lookup_insert_eq in Hk'.
  - intros i r [[Hi Hr] | [-> <-]]%lookup_snoc_Some Hs m rm Hm
           [[_ Hrm] | [-> _]]%lookup_snoc_Some Hk; try lia; try done.
    by apply (inv_started l Hinv i r Hr Hs m rm).
Qed.

Lemma resume_inv l i r :
  lockInv l -> requests l !! i = Some r -> status r = Waiting ->
  previousSettled (requests l) r = true ->
  lockInv (MkLocks (chatLocks l) (setStatus i Running (requests l))).
Proof.
  intros Hinv Hi Hw Hset.
  pose proof (proj1 (previousSettled_iff l i r Hinv Hi) Hset) as Hearlier.
  split; simpl.
  - intros a ra j (ra0 & Ha & Hka & Hpa & _)%setStatus_lookup Hp.
    rewrite Hpa in Hp.
    destruct (inv_prev_some l Hinv a ra0 j Ha Hp) as (Hlt & (rj & Hj & Hkj) & Hb).
    split; [exact Hlt |]. split.
    + destruct (setStatus_lookup_inv i Running _ j rj Hj) as (rj' & Hj' & Hkj' & _).
      exists rj'. split; [exact Hj' | congruence].
    + intros m rm Hm (rm0 & Hrm & Hkm & _)%setStatus_lookup.
      rewrite Hkm, Hka. by apply (Hb m rm0).
  - intros a ra (ra0 & Ha & Hka & Hpa & _)%setStatus_lookup Hp m rm Hm
           (rm0 & Hrm & Hkm & _ & Hst)%setStatus_lookup Hk.
    rewrite Hpa in Hp.
    assert (Hfin : status rm0 = Finished)
      by (apply (inv_prev_none l Hinv a ra0 Ha Hp m rm0); congruence).
    destruct Hst as [[-> _] | [_ ->]]; [| exact Hfin].
    assert (rm0 = r) by congruence. subst. congruence.
  - intros k n Hn. destruct (inv_tail l Hinv k n Hn) as ((rn & Hrn & Hkn) & Hlast). split.
    + destruct (setStatus_lookup_inv i Running _ n rn Hrn) as (rn' & Hn' & Hkn' & _).
      exists rn'. split; [exact Hn' | congruence].
    + intros m rm Hm (rm0 & Hrm & Hkm & _)%setStatus_lookup.
      rewrite Hkm. by apply (Hlast m rm0).
  - intros k Hk m rm (rm0 & Hrm & Hkm & _ & Hst)%setStatus_lookup Hkey.
    assert (Hfin : status rm0 = Finished)
      by (apply (inv_free l Hinv k Hk m rm0); congruence).
    destruct Hst as [[-> _] | [_ ->]]; [| exact Hfin].
    assert (rm0 = r) by congruence. subst. congruence.
  - intros a ra (ra0 & Ha & Hka & _ & Hsa)%setStatus_lookup Hs m rm Hm
           (rm0 & Hrm & Hkm & _ & Hst)%setStatus_lookup Hk.
    assert (Hfin : status rm0 = Finished).
    { destruct Hsa as [[-> _] | [_ Hsa]].
      - assert (ra0 = r) by congruence. subst.
        apply (Hearlier m rm0); [exact Hm | exact Hrm | congruence].
      - apply (inv_started l Hinv a ra0 Ha) with (m := m);
          [congruence | exact Hm | exact Hrm | congruence]. }
    destruct Hst as [[-> _] | [_ ->]]; [| exact Hfin].
    assert (rm0 = r) by congruence. subst. congruence.
Qed.

Lemma settle_inv l i r :
  lockInv l -> requests l !! i = Some r -> status r = Running ->
  lockInv (MkLocks (if bool_decide (chatLocks l !! key r = Some i)
                    then delete (key r) (chatLocks l) else chatLocks l)
                   (setStatus i Finished (requests l))).
Proof.
  intros Hinv Hi Hrun.
  assert (Hmono : forall m rm, setStatus i Finished (requests l) !! m = Some rm ->
            exists rm0, requests l !! m = Some rm0 /\ key rm = key rm0
                        /\ previous rm = previous rm0
                        /\ (status rm0 = Finished -> status rm = Finished)
                        /\ (status rm <> Waiting -> status rm0 <> Waiting)
                        /\ (m = i -> status rm = Finished)).
  { intros m rm (rm0 & Hrm & Hkm & Hpm & Hst)%setStatus_lookup.
    exists rm0. repeat split; try done.
    - destruct Hst as [[_ ->] | [_ ->]]; done.
    - destruct Hst as [[-> _] | [_ ->]]; [| done].
      assert (rm0 = r) by congruence. subst. congruence.
    - destruct Hst as [[_ ->] | [Hne _]]; done. }
  assert (Hlocks : forall k n,
            (if bool_decide (chatLocks l !! key r = Some i)
             then delete (key r) (chatLocks l) else chatLocks l) !! k = Some n ->
            chatLocks l !! k = Some n).
  { intros k n. case_bool_decide; [| done]. by intros [_ ?]%lookup_delete_Some. }
  split; simpl.
  - intros a ra j (ra0 & Ha & Hka & Hpa & _)%Hmono Hp. rewrite Hpa in Hp.
    destruct (inv_prev_some l Hinv a ra0 j Ha Hp) as (Hlt & (rj & Hj & Hkj) & Hb).
    split; [exact Hlt |]. split.
    + destruct (setStatus_lookup_inv i Finished _ j rj Hj) as (rj' & Hj' & Hkj' & _).
      exists rj'. split; [exact Hj' | congruence].
    + intros m rm Hm (rm0 & Hrm & Hkm & _)%Hmono. rewrite Hkm, Hka. by apply (Hb m rm0).
  - intros a ra (ra0 & Ha & Hka & Hpa & _)%Hmono Hp m rm Hm
           (rm0 & Hrm & Hkm & _ & Hf & _)%Hmono Hk.
    rewrite Hpa in Hp. apply Hf.
    apply (inv_prev_none l Hinv a ra0 Ha Hp m rm0); congruence.
  - intros k n Hn%Hlocks.
    destruct (inv_tail l Hinv k n Hn) as ((rn & Hrn & Hkn) & Hlast). split.
    + destruct (setStatus_lookup_inv i Finished _ n rn Hrn) as (rn' & Hn' & Hkn' & _).
      exists rn'. split; [exact Hn' | congruence].
    + intros m rm Hm (rm0 & Hrm & Hkm & _)%Hmono. rewrite Hkm. by apply (Hlast m rm0).
  - intros k Hk m rm (rm0 & Hrm & Hkm & _ & Hf & _ & Hmi)%Hmono Hkey.
    destruct (decide (m = i)) as [->|Hne]; [by apply Hmi |].
    apply Hf. destruct (chatLocks l !! k) as [n|] eqn:Ek.
    + (* the entry of [k] has just been deleted: [i] was the last call on [k] *)
      case_bool_decide as Hd; [| congruence].
      destruct (decide (key r = k)) as [<-|Hnk];
        [| by rewrite lookup_delete_ne, Ek in Hk].
      destruct (inv_tail l Hinv (key r) i Hd) as (_ & Hlast).
      destruct (decide (m < i)%nat) as [Hlt|Hge].
      * apply (inv_started l Hinv i r Hi) with (m := m);
          [congruence | exact Hlt | exact Hrm | congruence].
      * exfalso. apply (Hlast m rm0); [lia | exact Hrm | congruence].
    + apply (inv_free l Hinv k Ek m rm0); congruence.
  - intros a ra (ra0 & Ha & Hka & _ & _ & Hsa & _)%Hmono Hs m rm Hm
           (rm0 & Hrm & Hkm & _ & Hf & _)%Hmono Hk.
    apply Hf. apply (inv_started l Hinv a ra0 Ha (Hsa Hs) m rm0); congruence.
Qed.

Lemma lockStep_inv l e l' : lockInv l -> lockStep l e = Some l' -> lockInv l'.
Proof.
  intros Hinv. destruct e as [k|i|i]; simpl.
  - intros [= <-]. by apply call_inv.
  - destruct (requests l !! i) as [r|] eqn:Hi; [| done].
    destruct (bool_decide (status r = Waiting) && previousSettled (requests l) r) eqn:E;
      [| done].
    apply andb_prop in E as [Hw%bool_decide_eq_true Hs]. intros [= <-].
    by apply (resume_inv l i r).
  - destruct (requests l !! i) as [r|] eqn:Hi; [| done].
    case_bool_decide as Hr; [| done]. intros [= <-]. by apply (settle_inv l i r).
Qed.

Lemma lockRun_inv es : forall l l', lockInv l -> lockRun l es = Some l' -> lockInv l'.
Proof.
  induction es as [|e es IH]; intros l l' Hinv; simpl.
  - by intros [= <-].
  - destruct (lockStep l e) as [l1|] eqn:E; [| done].
    apply IH. by eapply lockStep_inv.
Qed.



End ChatFacts.

(* ===================================================================== *)
(** * Coalescer: what is published, and when *)
(* ===================================================================== *)

Module StreamEditFacts.
Import StreamEdit.

Section Controller.

Variable intervalMs : Z.

Lemma initial_inv : stateInv intervalMs initial.
Proof. split; simpl; try done. intros text [(? & ? & ?) | (? & ?)]; done. Qed.

(** What one pass of the loop does, from a state whose [processing] flag
    is set. *)
Lemma loop_spec now c v v' ph obs :
  loop intervalMs now c v = (v', ph, obs) ->
  lastEditAt v' = lastEditAt v
  /\ lastApplied v' = lastApplied v
  /\ (processing v = true -> (processing v' = false <-> ph = Idle))
  /\ (forall text, (exists wakeAt c', ph = Sleeping text wakeAt c')
                   \/ (exists c', ph = Editing text c') -> text <> "")
  /\ (forall text wakeAt c', ph = Sleeping text wakeAt c' ->
        wakeAt = lastEditAt v + intervalMs /\ now < wakeAt)
  /\ (forall o, o ∈ obs ->
        (exists text, o = Publish text now /\ text <> ""
                      /\ lastEditAt v + intervalMs <= now)
        \/ (exists text ok, o = FlushReturned text ok)).
Proof.
  assert (Hret : forall ok o,
            o ∈ match c with ByFlush text => [FlushReturned text ok] | ByQueue => [] end ->
            (exists text, o = Publish text now /\ text <> ""
                          /\ lastEditAt v + intervalMs <= now)
            \/ (exists text ok, o = FlushReturned text ok)).
  { intros ok o Ho. destruct c; [by apply elem_of_nil in Ho |].
    apply list_elem_of_singleton in Ho. right. eauto. }
  unfold loop, finish. destruct (pending v) as [text|];
    cbn [lastApplied lastEditAt processing pending].
  - destruct (negb (Js.truthy text) || String.eqb text (lastApplied v)) eqn:Eskip.
    + intros [= <- <- <-]. cbn [lastApplied lastEditAt processing pending].
      split_and!; try done.
      * intros text' [(? & ? & ?) | (? & ?)]; done.
      * apply Hret.
    + apply orb_false_elim in Eskip as [Ht%negb_false_iff _].
      apply JsFacts.truthy_true in Ht.
      destruct (Z.gtb_spec (intervalMs - (now - lastEditAt v)) 0) as [Hw|Hw];
        intros [= <- <- <-]; cbn [lastApplied lastEditAt processing pending];
        split_and!; try done.
      * intros ->. done.
      * intros text' [(? & ? & [= <- _ _]) | (? & ?)]; done.
      * intros text' wakeAt c' [= _ <- _]. lia.
      * intros o Ho. by apply elem_of_nil in Ho.
      * intros ->. done.
      * intros text' [(? & ? & ?) | (? & [= <- _])]; done.
      * intros o Ho%list_elem_of_singleton. left. exists text. split_and!; [done | done | lia].
  - intros [= <- <- <-]. cbn [lastApplied lastEditAt processing pending].
    split_and!; try done.
    + intros text' [(? & ? & ?) | (? & ?)]; done.
    + apply Hret.
Qed.

(** What one event does. *)
Lemma step_spec s e s1 o1 :
  stateInv intervalMs s ->
  step intervalMs s e = Some (s1, o1) ->
  stateInv intervalMs s1
  /\ clock s <= clock s1
  /\ lastEditAt (vars s) <= lastEditAt (vars s1)
  /\ (forall o t, o ∈ o1 -> obsTime o = Some t -> t = clock s1)
  /\ (forall text t, Publish text t ∈ o1 ->
        text <> "" /\ lastEditAt (vars s1) + intervalMs <= t)
  /\ (forall text t, Applied text t ∈ o1 -> t <= lastEditAt (vars s1)).
Proof.
  intros [Hproc Htext Hwake Hclock]. unfold step.
  destruct (Z.ltb_spec (eventTime e) (clock s)) as [|Hnow]; [done |].
  assert (Hcalls : forall text now c pre,
    eventTime e = now ->
    (forall o, o ∈ pre -> exists t, o = FlushCalled t) ->
    forall v ph obs,
    run intervalMs now c (setPending text (vars s)) (phase s) = (v, ph, obs) ->
    stateInv intervalMs (MkState v ph now)
    /\ clock s <= now
    /\ lastEditAt (vars s) <= lastEditAt v
    /\ (forall o t, o ∈ pre ++ obs -> obsTime o = Some t -> t = now)
    /\ (forall text' t, Publish text' t ∈ pre ++ obs ->
          text' <> "" /\ lastEditAt v + intervalMs <= t)
    /\ (forall text' t, Applied text' t ∈ pre ++ obs -> t <= lastEditAt v)).
  { intros text now c pre Hev Hpre v ph obs. rewrite Hev in Hnow. unfold run.
    cbn [setPending processing pending lastApplied lastEditAt].
    destruct (processing (vars s)) eqn:Ep.
    - intros [= <- <- <-]. cbn [lastEditAt]. split_and!; try done; try solve [lia].
      + split; cbn [vars phase clock processing lastEditAt setPending]; try done;
          [by rewrite Ep | lia].
      + intros o t [Ho | Ho]%elem_of_app Ht.
        * destruct (Hpre o Ho) as [? ->]. done.
        * destruct c; [by apply elem_of_nil in Ho |].
          apply list_elem_of_singleton in Ho. by subst.
      + intros text' t [Ho | Ho]%elem_of_app.
        * destruct (Hpre _ Ho) as [? ?]. done.
        * destruct c; [by apply elem_of_nil in Ho |].
          apply list_elem_of_singleton in Ho. done.
      + intros text' t [Ho | Ho]%elem_of_app.
        * destruct (Hpre _ Ho) as [? ?]. done.
        * destruct c; [by apply elem_of_nil in Ho |].
          apply list_elem_of_singleton in Ho. done.
    - intros Hloop.
      destruct (loop_spec _ _ _ _ _ _ Hloop) as (Hle & Hla & Hpr & Htx & Hwk & Hobs).
      cbn [lastEditAt lastApplied processing] in *. rewrite Hle.
      split_and!; try done; try solve [lia].
      + split; cbn [vars phase clock]; [by apply Hpr | exact Htx | | lia].
        intros t' w' c' Hph. destruct (Hwk _ _ _ Hph) as [-> _]. lia.
      + intros o t [Ho | Ho]%elem_of_app Ht.
        * destruct (Hpre o Ho) as [? ->]. done.
        * destruct (Hobs o Ho) as [(? & -> & _) | (? & ? & ->)]; by simplify_eq/=.
      + intros text' t [Ho | Ho]%elem_of_app.
        * destruct (Hpre _ Ho) as [? ?]. done.
        * destruct (Hobs _ Ho) as [(? & [= <- <-] & ? & ?) | (? & ? & ?)]; done.
      + intros text' t [Ho | Ho]%elem_of_app.
        * destruct (Hpre _ Ho) as [? ?]. done.
        * destruct (Hobs _ Ho) as [(? & ? & _) | (? & ? & ?)]; done. }
  destruct e as [text now | text now | now | [] now]; cbn [eventTime] in *.
  - destruct (run intervalMs now ByQueue (setPending text (vars s)) (phase s))
      as [[v ph] obs] eqn:Er.
    intros [= <- <-]. cbn [vars clock].
    apply (Hcalls text now ByQueue [] eq_refl) in Er; [exact Er |].
    intros o Ho. by apply elem_of_nil in Ho.
  - destruct (run intervalMs now (ByFlush text) (setPending text (vars s)) (phase s))
      as [[v ph] obs] eqn:Er.
    intros [= <- <-]. cbn [vars clock].
    apply (Hcalls text now (ByFlush text) [FlushCalled text] eq_refl) in Er; [exact Er |].
    intros o Ho%list_elem_of_singleton. eauto.
  - destruct (phase s) as [|text wakeAt c|] eqn:Eph; try done.
    destruct (Z.ltb_spec now wakeAt) as [|Hwk]; [done |].
    intros [= <- <-]. cbn [vars clock phase].
    pose proof (Hwake _ _ _ eq_refl) as Hw.
    assert (Hne : text <> "") by (apply Htext; left; eauto).
    split_and!; try done; try solve [lia].
    + split; cbn [vars phase clock]; try done; try solve [lia].
      * rewrite Hproc. done.
      * intros t' [(? & ? & ?) | (? & [= <- _])]; done.
    + intros o t Ho%list_elem_of_singleton Ht. subst. by simplify_eq/=.
    + intros text' t [= <- <-]%list_elem_of_singleton. split; [done | lia].
    + intros text' t Ho%list_elem_of_singleton. done.
  - destruct (phase s) as [| |text c] eqn:Eph; try done.
    destruct (loop intervalMs now c
                (MkVars (pending (vars s)) text now (processing (vars s))))
      as [[v ph] obs] eqn:El.
    intros [= <- <-]. cbn [vars clock phase].
    destruct (loop_spec _ _ _ _ _ _ El) as (Hle & Hla & Hpr & Htx & Hwk & Hobs).
    cbn [lastEditAt lastApplied processing] in *. rewrite Hle.
    assert (Hp : processing (vars s) = true).
    { destruct (processing (vars s)); [done |].
      destruct Hproc as [Hp _]. by specialize (Hp eq_refl). }
    split_and!; try done; try solve [lia].
    + split; cbn [vars phase clock]; [by apply Hpr | exact Htx | | lia].
      intros t' w' c' Hph. destruct (Hwk _ _ _ Hph) as [-> _]. lia.
    + intros o t [-> | Ho]%elem_of_cons Ht; [by simplify_eq/= |].
      destruct (Hobs o Ho) as [(? & -> & _) | (? & ? & ->)]; by simplify_eq/=.
    + intros text' t [? | Ho]%elem_of_cons; [done |].
      destruct (Hobs _ Ho) as [(? & [= <- <-] & ? & ?) | (? & ? & ?)]; done.
    + intros text' t [[= <- <-] | Ho]%elem_of_cons; [lia |].
      destruct (Hobs _ Ho) as [(? & ? & _) | (? & ? & ?)]; done.
  - destruct (phase s) as [| |text c] eqn:Eph; try done.
    unfold finish. intros [= <- <-]. cbn [vars clock phase lastEditAt].
    split_and!; try done; try solve [lia].
    + split; cbn [vars phase clock processing lastEditAt]; try done; try solve [lia].
      intros t' [(? & ? & ?) | (? & ?)]; done.
    + intros o t [-> | Ho]%elem_of_cons Ht; [by simplify_eq/= |].
      destruct c; [by apply elem_of_nil in Ho |].
      apply list_elem_of_singleton in Ho. by subst.
    + intros text' t [? | Ho]%elem_of_cons; [done |].
      destruct c; [by apply elem_of_nil in Ho |].
      apply list_elem_of_singleton in Ho. done.
    + intros text' t [? | Ho]%elem_of_cons; [done |].
      destruct c; [by apply elem_of_nil in Ho |].
      apply list_elem_of_singleton in Ho. done.
Qed.

(** What a run of events does. *)
Lemma exec_spec es : forall s s' obs,
  stateInv intervalMs s ->
  exec intervalMs s es = Some (s', obs) ->
  stateInv intervalMs s'
  /\ clock s <= clock s'
  /\ lastEditAt (vars s) <= lastEditAt (vars s')
  /\ (forall o t, o ∈ obs -> obsTime o = Some t -> clock s <= t <= clock s')
  /\ (forall text t, Publish text t ∈ obs ->
        text <> "" /\ lastEditAt (vars s) + intervalMs <= t)
  /\ (forall text t, Applied text t ∈ obs -> t <= lastEditAt (vars s'))
  /\ (forall i j oi oj ti tj, (i < j)%nat ->
        obs !! i = Some oi -> obs !! j = Some oj ->
        obsTime oi = Some ti -> obsTime oj = Some tj -> ti <= tj)
  /\ (forall i j a t1 p t2, (i < j)%nat ->
        obs !! i = Some (Applied a t1) -> obs !! j = Some (Publish p t2) ->
        t1 + intervalMs <= t2).
Proof.
  induction es as [|e es IH]; intros s s' obs Hinv; simpl.
  - intros [= <- <-]. split_and!; try done; try lia.
    + intros o t Ho. by apply elem_of_nil in Ho.
    + intros text t Ho. by apply elem_of_nil in Ho.
    + intros text t Ho. by apply elem_of_nil in Ho.
  - destruct (step intervalMs s e) as [[s1 o1]|] eqn:Es; [| done].
    destruct (exec intervalMs s1 es) as [[s2 o2]|] eqn:Ee; [| done].
    intros [= <- <-].
    destruct (step_spec s e s1 o1 Hinv Es) as (Hinv1 & Hc1 & Hl1 & Ht1 & Hp1 & Ha1).
    destruct (IH s1 s2 o2 Hinv1 Ee) as (Hinv2 & Hc2 & Hl2 & Ht2 & Hp2 & Ha2 & Hm2 & Hs2).
    split_and!; try done; try lia.
    + intros o t [Ho | Ho]%elem_of_app Ht.
      * rewrite (Ht1 o t Ho Ht). lia.
      * specialize (Ht2 o t Ho Ht). lia.
    + intros text t [Ho | Ho]%elem_of_app.
      * destruct (Hp1 text t Ho). split; [done | lia].
      * destruct (Hp2 text t Ho). split; [done | lia].
    + intros text t [Ho | Ho]%elem_of_app.
      * specialize (Ha1 text t Ho). lia.
      * by apply (Ha2 text).
    + intros i j oi oj ti tj Hij
        [Hi | [Hi1 Hi2]]%lookup_app_Some [Hj | [Hj1 Hj2]]%lookup_app_Some Hti Htj.
      * rewrite (Ht1 oi ti), (Ht1 oj tj); try done; try lia;
          by eapply list_elem_of_lookup_2.
      * rewrite (Ht1 oi ti); try done; [| by eapply list_elem_of_lookup_2].
        apply (Ht2 oj tj); [by eapply list_elem_of_lookup_2 | done].
      * apply lookup_lt_Some in Hj. lia.
      * apply (Hm2 (i - length o1)%nat (j - length o1)%nat oi oj); try done. lia.
    + intros i j a t1 p t2 Hij
        [Hi | [Hi1 Hi2]]%lookup_app_Some [Hj | [Hj1 Hj2]]%lookup_app_Some.
      * apply list_elem_of_lookup_2 in Hi, Hj.
        specialize (Ha1 a t1 Hi). destruct (Hp1 p t2 Hj). lia.
      * apply list_elem_of_lookup_2 in Hi, Hj2.
        specialize (Ha1 a t1 Hi). destruct (Hp2 p t2 Hj2). lia.
      * apply lookup_lt_Some in Hj. lia.
      * apply (Hs2 (i - length o1)%nat (j - length o1)%nat a t1 p t2); try done. lia.
Qed.

(** ** A flush with nothing in progress *)

Lemma exec_idle rest s s' obs :
  phase s = Idle -> forallb isCompletion rest = true ->
  exec intervalMs s rest = Some (s', obs) ->
  rest = [] /\ s' = s /\ obs = [].
Proof.
  intros Hph Hrest. destruct rest as [|e rest]; simpl.
  - by intros [= <- <-].
  - unfold step. rewrite Hph.
    destruct (eventTime e <? clock s); [done |].
    by destruct e as [| | |[]].
Qed.

Lemma exec_editing rest s s' obs text c :
  phase s = Editing text c -> pending (vars s) = None ->
  forallb isCompletion rest = true ->
  exec intervalMs s rest = Some (s', obs) ->
  (rest = [] /\ obs = [])
  \/ (exists t, rest = [EditSettled true t]
                /\ obs = Applied text t :: returned c
                /\ lastApplied (vars s') = text).
Proof.
  intros Hph Hpend Hrest. destruct rest as [|e rest]; simpl.
  - intros [= <- <-]. by left.
  - apply andb_prop in Hrest as [He Hrest].
    unfold step. rewrite Hph.
    destruct (eventTime e <? clock s); [done |].
    destruct e as [| | |[] t]; try done.
    unfold loop. cbn [pending]. rewrite Hpend. unfold finish. cbn [lastApplied].
    match goal with |- context [exec intervalMs ?st rest] =>
      destruct (exec intervalMs st rest) as [[s2 o2]|] eqn:Ee; [| done]
    end.
    intros [= <- <-].
    apply exec_idle in Ee as (-> & -> & ->); [| done | done].
    right. exists t. by destruct c.
Qed.

Lemma exec_sleeping rest s s' obs text wakeAt c :
  phase s = Sleeping text wakeAt c -> pending (vars s) = None ->
  forallb isCompletion rest = true ->
  exec intervalMs s rest = Some (s', obs) ->
  (rest = [] /\ obs = [])
  \/ (exists t, rest = [TimerFired t] /\ obs = [Publish text t])
  \/ (exists t t2, rest = [TimerFired t; EditSettled true t2]
                   /\ obs = Publish text t :: Applied text t2 :: returned c
                   /\ lastApplied (vars s') = text).
Proof.
  intros Hph Hpend Hrest. destruct rest as [|e rest]; simpl.
  - intros [= <- <-]. by left.
  - apply andb_prop in Hrest as [He Hrest].
    unfold step. rewrite Hph.
    destruct (eventTime e <? clock s); [done |].
    destruct e as [| |t|[] t]; try done.
    destruct (t <? wakeAt); [done |].
    match goal with |- context [exec intervalMs ?st rest] =>
      destruct (exec intervalMs st rest) as [[s2 o2]|] eqn:Ee; [| done]
    end.
    intros [= <- <-].
    apply exec_editing with (text := text) (c := c) in Ee
      as [[-> ->] | (t2 & -> & -> & Hla)]; try done.
    + right. left. by exists t.
    + right. right. by exists t, t2.
Qed.

End Controller.

(** ** The claims on the coalescer *)

(** C10.  Whatever calls are made on the controller and however timers
    and edits complete, [edit] is never invoked with an empty string. *)
Theorem publish_never_empty (intervalMs : Z) (es : list Event) (s : State) (obs : list Obs) :
  exec intervalMs initial es = Some (s, obs) ->
  Forall (fun text => text <> "") (publishes obs).
Proof.
  intros Hexec.
  destruct (exec_spec intervalMs es initial s obs (initial_inv intervalMs) Hexec)
    as (_ & _ & _ & _ & Hp & _).
  apply Forall_forall. intros text (o & Ho & Heq)%list_elem_of_omap.
  destruct o; simplify_eq/=. by destruct (Hp _ _ Ho).
Qed.

Lemma publish_never_empty_witness :
  exec 900 initial
    [Queue "" 1000; Queue "partial" 1001; Queue "" 1002; EditSettled true 1100;
     Flush "" 1200]
  = Some (MkState (MkVars None "partial" 1100 false) Idle 1200,
          [Publish "partial" 1001; Applied "partial" 1100;
           FlushCalled ""; FlushReturned "" true])
  /\ Forall (fun text => text <> "")
       (publishes [Publish "partial" 1001; Applied "partial" 1100;
                   FlushCalled ""; FlushReturned "" true]).
Proof.
  split; [reflexivity |].
  apply (publish_never_empty 900
           [Queue "" 1000; Queue "partial" 1001; Queue "" 1002; EditSettled true 1100;
            Flush "" 1200]
           (MkState (MkVars None "partial" 1100 false) Idle 1200)).
  reflexivity.
Defined.

(** C8, as amended.  With a clock that does not run backwards and timers
    that do not fire early: [edit] is never invoked less than the minimum
    interval after an earlier invocation of it completed successfully, and
    hence never less than the interval after an earlier invocation that was
    followed by a success.  An invocation that failed starts no interval. *)
Theorem publish_spacing (intervalMs : Z) (es : list Event) (s : State) (obs : list Obs) :
  exec intervalMs initial es = Some (s, obs) ->
  (forall i j a t1 p t2, (i < j)%nat ->
     obs !! i = Some (Applied a t1) -> obs !! j = Some (Publish p t2) ->
     t1 + intervalMs <= t2)
  /\ (forall i j k p0 t0 a t1 p t2, (i < j < k)%nat ->
        obs !! i = Some (Publish p0 t0) -> obs !! j = Some (Applied a t1) ->
        obs !! k = Some (Publish p t2) ->
        t0 + intervalMs <= t2).
Proof.
  intros Hexec.
  destruct (exec_spec intervalMs es initial s obs (initial_inv intervalMs) Hexec)
    as (_ & _ & _ & _ & _ & _ & Hmono & Hspace).
  split; [exact Hspace |].
  intros i j k p0 t0 a t1 p t2 [Hij Hjk] Hi Hj Hk.
  pose proof (Hmono i j _ _ t0 t1 Hij Hi Hj eq_refl eq_refl).
  pose proof (Hspace j k a t1 p t2 Hjk Hj Hk). lia.
Qed.

Lemma publish_spacing_witness :
  exec 900 initial
    [Queue "a" 1000; Queue "ab" 1010; EditSettled true 1100; TimerFired 2000;
     EditSettled true 2050]
  = Some (MkState (MkVars None "ab" 2050 false) Idle 2050,
          [Publish "a" 1000; Applied "a" 1100; Publish "ab" 2000; Applied "ab" 2050])
  /\ 1000 + 900 <= 2000.
Proof.
  split; [reflexivity |].
  destruct (publish_spacing 900
              [Queue "a" 1000; Queue "ab" 1010; EditSettled true 1100; TimerFired 2000;
               EditSettled true 2050]
              (MkState (MkVars None "ab" 2050 false) Idle 2050)
              [Publish "a" 1000; Applied "a" 1100; Publish "ab" 2000; Applied "ab" 2050]
              eq_refl) as [_ H].
  apply (H 0%nat 1%nat 2%nat "a" 1000 "a" 1100 "ab" 2000); [lia | reflexivity ..].
Defined.

(** C8, as stated, fails: an edit that fails does not update [lastEditAt],
    so the flush of the error message that follows it invokes [edit] again
    at once, 100 ms after the previous invocation with an interval of
    900 ms. *)
Lemma publish_right_after_failed_edit :
  exists s obs,
    exec 900 initial [Flush "reply" 5000; EditSettled false 5100; Flush "error" 5100]
    = Some (s, obs)
    /\ publishTimes obs = [5000; 5100].
Proof. do 2 eexists. split; reflexivity. Qed.

(** C2, as amended.  A [flush(value)] made while no drain is in progress,
    after any calls whatever, and followed only by the timer firing and the
    edit going through: it does return; and when it returns, [edit] has been
    invoked exactly once since the call, with [value], unless [value] is
    empty or identical to the text last applied, in which case [edit] has not
    been invoked at all; a non-empty [value] is then the text last applied.
    Nothing is observed after the return. *)
Theorem flush_when_idle
  (intervalMs : Z) (es : list Event) (s : State) (obs : list Obs)
  (value : string) (now : Z) :
  exec intervalMs initial es = Some (s, obs) ->
  processing (vars s) = false ->
  clock s <= now ->
  (exists rest s' obs',
     forallb isCompletion rest = true
     /\ exec intervalMs s (Flush value now :: rest) = Some (s', obs')
     /\ FlushReturned value true ∈ obs')
  /\ (forall rest s' obs',
        forallb isCompletion rest = true ->
        exec intervalMs s (Flush value now :: rest) = Some (s', obs') ->
        FlushReturned value true ∈ obs' ->
        publishes obs'
        = (if Js.truthy value && negb (String.eqb value (lastApplied (vars s)))
           then [value] else [])
        /\ (value <> "" -> lastApplied (vars s') = value)
        /\ last obs' = Some (FlushReturned value true)).
Proof.
  intros Hexec Hproc Hnow.
  destruct (exec_spec intervalMs es initial s obs (initial_inv intervalMs) Hexec)
    as (Hinv & _).
  assert (Hidle : phase s = Idle) by (by apply (inv_processing _ _ Hinv)).
  assert (Hstep : step intervalMs s (Flush value now)
            = let '(v, ph, o) :=
                loop intervalMs now (ByFlush value)
                     (MkVars (Some value) (lastApplied (vars s)) (lastEditAt (vars s)) true) in
              Some (MkState v ph now, FlushCalled value :: o)).
  { unfold step. cbn [eventTime].
    destruct (Z.ltb_spec now (clock s)); [lia |].
    unfold run. cbn [setPending processing pending lastApplied lastEditAt].
    by rewrite Hproc. }
  unfold loop in Hstep. cbn [pending lastApplied lastEditAt processing] in Hstep.
  destruct (negb (Js.truthy value) || String.eqb value (lastApplied (vars s))) eqn:Eskip.
  - (* nothing to publish: the drain ends at once *)
    unfold finish in Hstep. cbn [pending lastApplied lastEditAt] in Hstep.
    assert (Hif : Js.truthy value && negb (String.eqb value (lastApplied (vars s))) = false).
    { destruct (Js.truthy value), (String.eqb value (lastApplied (vars s))); done. }
    rewrite Hif. split.
    + exists [], (MkState (MkVars None (lastApplied (vars s)) (lastEditAt (vars s)) false)
                          Idle now), [FlushCalled value; FlushReturned value true].
      split; [done |]. cbn [exec]. rewrite Hstep. split; [done |].
      apply elem_of_cons. right. by apply list_elem_of_singleton.
    + intros rest s' obs' Hrest. cbn [exec]. rewrite Hstep.
      match goal with |- context [exec intervalMs ?st rest] =>
        destruct (exec intervalMs st rest) as [[s2 o2]|] eqn:Ee; [| done]
      end.
      intros [= <- <-] _.
      apply exec_idle in Ee as (-> & -> & ->); [| done | done].
      split_and!; try done. cbn [vars lastApplied]. intros Hne.
      apply JsFacts.truthy_true in Hne. rewrite Hne in Eskip. simpl in Eskip.
      by apply String.eqb_eq in Eskip.
  - apply orb_false_elim in Eskip as [Ht%negb_false_iff Hdiff].
    rewrite Ht, Hdiff. cbn [andb negb].
    destruct (Z.gtb_spec (intervalMs - (now - lastEditAt (vars s))) 0) as [Hw|Hw].
    + (* the drain sleeps, then edits *)
      set (wake := now + (intervalMs - (now - lastEditAt (vars s)))) in *.
      split.
      * exists [TimerFired wake; EditSettled true wake]. do 2 eexists.
        split; [done |]. cbn [exec]. rewrite Hstep.
        unfold step. cbn [eventTime clock phase vars].
        destruct (Z.ltb_spec wake now); [lia |].
        rewrite Z.ltb_irrefl. cbn [eventTime clock phase vars].
        rewrite Z.ltb_irrefl. unfold loop, finish. cbn [pending app].
        split; [reflexivity |].
        do 3 (apply elem_of_cons; right). by apply list_elem_of_singleton.
      * intros rest s' obs' Hrest. cbn [exec]. rewrite Hstep.
        match goal with |- context [exec intervalMs ?st rest] =>
          destruct (exec intervalMs st rest) as [[s2 o2]|] eqn:Ee; [| done]
        end.
        intros [= <- <-] Hret.
        apply exec_sleeping with (text := value) (wakeAt := wake) (c := ByFlush value) in Ee
          as [[-> ->] | [(t & -> & ->) | (t & t2 & -> & -> & Hla)]]; try done.
        -- apply list_elem_of_singleton in Hret. done.
        -- apply elem_of_cons in Hret as [? | Hret%list_elem_of_singleton]; done.
    + (* the drain edits at once *)
      split.
      * exists [EditSettled true now]. do 2 eexists.
        split; [done |]. cbn [exec]. rewrite Hstep.
        unfold step. cbn [eventTime clock phase vars].
        rewrite Z.ltb_irrefl. unfold loop, finish. cbn [pending app].
        split; [reflexivity |].
        do 3 (apply elem_of_cons; right). by apply list_elem_of_singleton.
      * intros rest s' obs' Hrest. cbn [exec]. rewrite Hstep.
        match goal with |- context [exec intervalMs ?st rest] =>
          destruct (exec intervalMs st rest) as [[s2 o2]|] eqn:Ee; [| done]
        end.
        intros [= <- <-] Hret.
        apply exec_editing with (text := value) (c := ByFlush value) in Ee
          as [[-> ->] | (t2 & -> & -> & Hla)]; try done.
        apply elem_of_cons in Hret as [? | Hret%elem_of_cons]; [done |].
        destruct Hret as [? | Hret%elem_of_nil]; done.
Qed.

Lemma flush_when_idle_witness :
  exec 900 initial [Queue "partial" 1000; EditSettled true 1100]
  = Some (MkState (MkVars None "partial" 1100 false) Idle 1100,
          [Publish "partial" 1000; Applied "partial" 1100])
  /\ processing (MkVars None "partial" 1100 false) = false
  /\ 1100 <= 1500
  /\ exec 900 (MkState (MkVars None "partial" 1100 false) Idle 1100)
          [Flush "final" 1500; TimerFired 2000; EditSettled true 2100]
     = Some (MkState (MkVars None "final" 2100 false) Idle 2100,
             [FlushCalled "final"; Publish "final" 2000; Applied "final" 2100;
              FlushReturned "final" true])
  /\ publishes [FlushCalled "final"; Publish "final" 2000; Applied "final" 2100;
                FlushReturned "final" true] = ["final"].
Proof.
  split; [reflexivity |]. split; [reflexivity |]. split; [lia |]. split; [reflexivity |].
  destruct (flush_when_idle 900 [Queue "partial" 1000; EditSettled true 1100]
              (MkState (MkVars None "partial" 1100 false) Idle 1100)
              [Publish "partial" 1000; Applied "partial" 1100] "final" 1500
              eq_refl eq_refl) as [_ Hret]; [simpl; lia |].
  destruct (Hret [TimerFired 2000; EditSettled true 2100]
                 (MkState (MkVars None "final" 2100 false) Idle 2100)
                 [FlushCalled "final"; Publish "final" 2000; Applied "final" 2100;
                  FlushReturned "final" true]) as [Hpub _].
  - reflexivity.
  - reflexivity.
  - do 3 (apply elem_of_cons; right). apply elem_of_cons. by left.
  - exact Hpub.
Defined.

(** C2, as stated, fails on both counts.  A [flush] made while the drain
    started by a [queue] is still awaiting its edit returns at once, before
    its value has been published; and a [flush] of the text last applied
    returns without invoking [edit]. *)
Lemma flush_returns_without_publishing :
  exec 900 initial [Queue "partial" 1000; Flush "final" 1050]
  = Some (MkState (MkVars (Some "final") "" 0 true) (Editing "partial" ByQueue) 1050,
          [Publish "partial" 1000; FlushCalled "final"; FlushReturned "final" true])
  /\ exec 900 initial [Queue "final" 1000; EditSettled true 1100; Flush "final" 3000]
     = Some (MkState (MkVars None "final" 1100 false) Idle 3000,
             [Publish "final" 1000; Applied "final" 1100;
              FlushCalled "final"; FlushReturned "final" true]).
Proof. split; reflexivity. Qed.

End StreamEditFacts.

(* ===================================================================== *)
(** * Executor: the lines handed to the line handler *)
(* ===================================================================== *)

Module ExecutorFacts.
Import RunJsonlCli.

(** ** Strings cut at line feeds *)

Lemma indexOf_bounds s c : -1 <= Js.indexOf s c < Js.strlen s.
Proof.
  unfold Js.strlen. induction s as [|a r IH]; simpl; [lia |].
  destruct (Ascii.eqb a c); [lia |].
  destruct (Z.ltb_spec (Js.indexOf r c) 0); lia.
Qed.

Lemma sslice_head s i :
  0 <= i <= Js.strlen s -> Js.sslice s 0 i = String.substring 0 (Z.to_nat i) s.
Proof.
  intros Hi. unfold Js.sslice, Js.clampIndex.
  assert (Hlen : 0 <= Js.strlen s) by (unfold Js.strlen; lia).
  destruct (Z.ltb_spec 0 0); [lia |].
  destruct (Z.ltb_spec i 0); [lia |].
  f_equal; lia.
Qed.

Lemma sslice1_tail s i :
  0 <= i <= Js.strlen s ->
  Js.sslice1 s i = String.substring (Z.to_nat i) (String.length s - Z.to_nat i) s.
Proof.
  intros Hi. unfold Js.sslice1, Js.sslice, Js.clampIndex, Js.strlen in *.
  destruct (Z.ltb_spec i 0); [lia |].
  destruct (Z.ltb_spec (Z.of_nat (String.length s)) 0); [lia |].
  f_equal; lia.
Qed.

Lemma substring_all s : String.substring 0 (String.length s) s = s.
Proof. induction s as [|a r IH]; simpl; [reflexivity | by rewrite IH]. Qed.

(** The loop of the listener, read off [cut]. *)
Lemma cut_no_newline s : Js.indexOf s Js.LF < 0 -> cut s = ([], s).
Proof.
  induction s as [|a r IH]; simpl; [reflexivity |].
  destruct (Ascii.eqb a Js.LF); [lia |].
  destruct (Z.ltb_spec (Js.indexOf r Js.LF) 0) as [Hr|Hr]; [| lia].
  intros _. by rewrite (IH Hr).
Qed.

Lemma cut_at_newline s :
  0 <= Js.indexOf s Js.LF ->
  cut s = (Js.sslice s 0 (Js.indexOf s Js.LF)
             :: (cut (Js.sslice1 s (Js.indexOf s Js.LF + 1))).1,
           (cut (Js.sslice1 s (Js.indexOf s Js.LF + 1))).2).
Proof.
  induction s as [|a r IH]; [simpl; lia |].
  intros Hi.
  pose proof (indexOf_bounds (String a r) Js.LF) as Hb.
  rewrite sslice_head, sslice1_tail by lia.
  simpl in Hi |- *. destruct (Ascii.eqb a Js.LF) eqn:Ea.
  - simpl. rewrite Nat.sub_0_r, substring_all. by destruct (cut r).
  - destruct (Z.ltb_spec (Js.indexOf r Js.LF) 0) as [Hr|Hr]; [lia |].
    pose proof (indexOf_bounds r Js.LF) as Hbr.
    rewrite (IH Hr). rewrite sslice_head, sslice1_tail by lia.
    replace (Z.to_nat (Js.indexOf r Js.LF + 1)) with (S (Z.to_nat (Js.indexOf r Js.LF))) by lia.
    replace (Z.to_nat (Js.indexOf r Js.LF + 1 + 1))
      with (S (S (Z.to_nat (Js.indexOf r Js.LF)))) by lia.
    simpl. reflexivity.
Qed.

Lemma cut_app s t :
  cut (s +:+ t)
  = ((cut s).1 ++ (cut ((cut s).2 +:+ t)).1, (cut ((cut s).2 +:+ t)).2).
Proof.
  induction s as [|a r IH].
  - cbn [cut fst snd app]. change ("" +:+ t) with t. by destruct (cut t).
  - change (String a r +:+ t) with (String a (r +:+ t)).
    cbn [cut]. rewrite IH. destruct (cut r) as [ls rest]. cbn [fst snd].
    destruct (Ascii.eqb a Js.LF) eqn:Ea; [reflexivity |].
    destruct ls as [|l ls']; cbn [fst snd app].
    + change (String a rest +:+ t) with (String a (rest +:+ t)).
      cbn [cut]. rewrite Ea. by destruct (cut (rest +:+ t)) as [[|? ?] ?].
    + reflexivity.
Qed.

Lemma split_cut s : Js.split s Js.LF = (cut s).1 ++ [(cut s).2].
Proof.
  induction s as [|a r IH]; [reflexivity |].
  simpl. rewrite IH. destruct (cut r) as [ls rest]. cbn [fst snd].
  destruct (Ascii.eqb a Js.LF); [reflexivity |].
  by destruct ls.
Qed.

Lemma append_assoc (s t u : string) : (s +:+ t) +:+ u = s +:+ (t +:+ u).
Proof.
  induction s as [|a r IH]; [reflexivity |].
  change (String a ((r +:+ t) +:+ u) = String a (r +:+ (t +:+ u))). by rewrite IH.
Qed.

Lemma append_empty_r (s : string) : s +:+ "" = s.
Proof.
  induction s as [|a r IH]; [reflexivity |].
  change (String a (r +:+ "") = String a r). by rewrite IH.
Qed.

Section Executor.

Context {H : Type}.
Variable callbacks : @JsonlCallbacks H.
Variable h0 : H.

(** ** The promise chain runs the callbacks one after the other *)

Lemma feed_snoc calls call q :
  feed callbacks (calls ++ [call]) q
  = match feed callbacks calls q with
    | Fulfilled h => invoke callbacks call h
    | Rejected err => Rejected err
    end.
Proof.
  revert q. induction calls as [|c calls IH]; intros q; simpl.
  - by destruct q.
  - destruct q as [h|err]; [apply IH | done].
Qed.


Lemma queue_chained call fn e :
  (forall h, fn h = invoke callbacks call h) ->
  chained callbacks h0 e -> chained callbacks h0 (queue call fn e).
Proof.
  unfold chained, queue. intros Hfn He.
  destruct (callbackQueue e) as [h|err] eqn:Eq; [| by rewrite Eq].
  destruct (failed e); [by rewrite Eq |].
  rewrite Hfn.
  destruct (invoke callbacks call h) as [h'|err] eqn:Ei; simpl;
    by rewrite feed_snoc, <- He, Ei.
Qed.

Lemma deliver_chained line e :
  chained callbacks h0 e -> chained callbacks h0 (deliver callbacks line e).
Proof.
  unfold deliver. destruct (Js.truthy line); [| done].
  by apply (queue_chained (LineCall line)).
Qed.

Lemma setBuffer_chained buf e : chained callbacks h0 e -> chained callbacks h0 (setBuffer buf e).
Proof. done. Qed.

Lemma settle_chained r e : chained callbacks h0 e -> chained callbacks h0 (settle r e).
Proof. done. Qed.

(** The loop of the stdout listener hands over the complete lines of the
    buffer and keeps the rest. *)
Lemma pump_cut buf e :
  pump callbacks buf e
  = setBuffer (cut buf).2
      (foldl (fun e line => deliver callbacks (Js.trim line) e) e (cut buf).1).
Proof.
  funelim (pump callbacks buf e).
  - match goal with IH : pump _ _ _ = setBuffer _ _ |- _ => rewrite IH end.
    match goal with Hi : (_ <=? _) = true |- _ =>
      rewrite (cut_at_newline buf (proj1 (Z.leb_le _ _) Hi)); reflexivity end.
  - match goal with Hi : (_ <=? _) = false |- _ =>
      rewrite (cut_no_newline buf (proj1 (Z.leb_gt _ _) Hi)); reflexivity end.
Qed.

Lemma pump_chained buf e : chained callbacks h0 e -> chained callbacks h0 (pump callbacks buf e).
Proof.
  intros He. rewrite pump_cut. apply setBuffer_chained.
  revert e He. induction (cut buf).1 as [|l ls IH]; intros e He; [done |].
  simpl. by apply IH, deliver_chained.
Qed.

Lemma step_chained e ev : chained callbacks h0 e -> chained callbacks h0 (step callbacks e ev).
Proof.
  intros He. destruct ev as [chunk|text|message|exitCode sig]; simpl.
  - by apply pump_chained.
  - destruct (onStderr callbacks) as [f|] eqn:Ef; [| done].
    apply (queue_chained (StderrCall text)); [| done].
    intros h. simpl. by rewrite Ef.
  - done.
  - destruct (failed e); [done |].
    destruct (callbackQueue (deliver callbacks (Js.trim (stdoutBuffer e)) e));
      by apply settle_chained, deliver_chained.
Qed.

Lemma run_chained events : chained callbacks h0 (runJsonlCli callbacks h0 events).
Proof.
  unfold runJsonlCli.
  assert (Hgen : forall e, chained callbacks h0 e -> chained callbacks h0 (foldl (step callbacks) e events)).
  { induction events as [|ev events IH]; intros e He; [done |].
    simpl. by apply IH, step_chained. }
  by apply Hgen.
Qed.

(** ** The lines handed over *)

Lemma queue_tracking call fn (e : @Exec H) lines :
  tracking e lines ->
  tracking (queue call fn e)
           (lines ++ match call with LineCall l => [l] | StderrCall _ => [] end)
  /\ stdoutBuffer (queue call fn e) = stdoutBuffer e.
Proof.
  unfold tracking, queue. destruct (callbackQueue e) as [h|err] eqn:Eq.
  - intros (Hf & Hp & Hl). rewrite Hf.
    assert (Hcall : linesOf (invoked e ++ [call])
                    = lines ++ match call with LineCall l => [l] | StderrCall _ => [] end).
    { unfold linesOf. rewrite omap_app. fold (linesOf (invoked e)).
      rewrite Hl. by destruct call. }
    destruct (fn h) as [h'|err]; simpl; rewrite ?Hp, Hcall; done.
  - intros (Hf & Hp & Hl). rewrite Eq. split; [| done]. split; [done |].
    split; [done |]. by apply prefix_app_r.
Qed.

Lemma deliver_tracking line (e : @Exec H) lines :
  tracking e lines ->
  tracking (deliver callbacks line e) (lines ++ if Js.truthy line then [line] else [])
  /\ stdoutBuffer (deliver callbacks line e) = stdoutBuffer e.
Proof.
  intros He. unfold deliver. destruct (Js.truthy line).
  - apply (queue_tracking (LineCall line) _ e lines He).
  - by rewrite app_nil_r.
Qed.

Lemma deliver_all_tracking ls : forall (e : @Exec H) lines,
  tracking e lines ->
  tracking (foldl (fun e line => deliver callbacks (Js.trim line) e) e ls)
           (lines ++ List.filter Js.truthy (Js.trim <$> ls))
  /\ stdoutBuffer (foldl (fun e line => deliver callbacks (Js.trim line) e) e ls)
     = stdoutBuffer e.
Proof.
  induction ls as [|l ls IH]; intros e lines He.
  - simpl. by rewrite app_nil_r.
  - destruct (deliver_tracking (Js.trim l) e lines He) as (H1 & H2).
    destruct (IH _ _ H1) as (I1 & I2).
    cbn [foldl]. split; [| by rewrite I2].
    rewrite fmap_cons. cbn [List.filter].
    destruct (Js.truthy (Js.trim l)); by rewrite <- app_assoc in I1.
Qed.

Lemma setBuffer_tracking buf (e : @Exec H) lines :
  tracking e lines -> tracking (setBuffer buf e) lines.
Proof. done. Qed.

Lemma completeLines_app out chunk :
  completeLines (out +:+ chunk)
  = completeLines out ++ completeLines ((cut out).2 +:+ chunk).
Proof.
  unfold completeLines. rewrite (cut_app out chunk). cbn [fst snd].
  by rewrite fmap_app, List.filter_app.
Qed.

Lemma step_tracking (e : @Exec H) out ev :
  isData ev = true ->
  tracking e (completeLines out) -> stdoutBuffer e = (cut out).2 ->
  tracking (step callbacks e ev)
           (completeLines (match ev with StdoutData chunk => out +:+ chunk | _ => out end))
  /\ stdoutBuffer (step callbacks e ev)
     = (cut (match ev with StdoutData chunk => out +:+ chunk | _ => out end)).2.
Proof.
  intros Hev He Hbuf.
  destruct ev as [chunk|text| |]; try done; simpl.
  - rewrite pump_cut, Hbuf, completeLines_app.
    destruct (deliver_all_tracking (cut ((cut out).2 +:+ chunk)).1 e _ He) as (H1 & H2).
    split; [by apply setBuffer_tracking |].
    by rewrite (cut_app out chunk).
  - set (e1 := MkExec _ _ _ _ _ _).
    assert (He1 : tracking e1 (completeLines out)) by exact He.
    destruct (onStderr callbacks) as [f|]; [| by split].
    destruct (queue_tracking (StderrCall text) (f text) e1 _ He1) as (H1 & H2).
    rewrite app_nil_r in H1. split; [exact H1 | by rewrite H2].
Qed.

Lemma data_tracking events : forall (e : @Exec H) out,
  forallb isData events = true ->
  tracking e (completeLines out) -> stdoutBuffer e = (cut out).2 ->
  tracking (foldl (step callbacks) e events) (completeLines (out +:+ stdoutOf events))
  /\ stdoutBuffer (foldl (step callbacks) e events) = (cut (out +:+ stdoutOf events)).2.
Proof.
  induction events as [|ev events IH]; intros e out Hall He Hbuf.
  - simpl. by rewrite append_empty_r.
  - apply andb_prop in Hall as [Hev Hall].
    destruct (step_tracking e out ev Hev He Hbuf) as [Hstep Hsbuf].
    cbn [foldl]. destruct ev as [chunk|text| |]; try done; cbn [stdoutOf foldr].
    + rewrite <- append_assoc. by apply IH.
    + by apply IH.
Qed.

(** After the child has closed: the promise has settled; it is fulfilled
    exactly when every callback completed, and then the line handler has
    seen every line; otherwise it carries the error of the callback that
    threw, and the line handler has seen the lines up to that point. *)
Lemma closed_tracking events exitCode sig :
  forallb isData events = true ->
  match callbackQueue (runJsonlCli callbacks h0 (events ++ [Close exitCode sig])) with
  | Fulfilled _ =>
      linesOf (invoked (runJsonlCli callbacks h0 (events ++ [Close exitCode sig])))
      = trimmedLines (stdoutOf events)
      /\ exists tail,
           promise (runJsonlCli callbacks h0 (events ++ [Close exitCode sig]))
           = Some (Fulfilled (MkResult (default 1 exitCode) sig tail))
  | Rejected err =>
      linesOf (invoked (runJsonlCli callbacks h0 (events ++ [Close exitCode sig])))
        `prefix_of` trimmedLines (stdoutOf events)
      /\ promise (runJsonlCli callbacks h0 (events ++ [Close exitCode sig]))
         = Some (Rejected err)
  end.
Proof.
  intros Hdata. unfold runJsonlCli. rewrite foldl_app. cbn [foldl].
  destruct (data_tracking events (start h0) "" Hdata) as [He Hbuf]; [done | done |].
  change ("" +:+ stdoutOf events) with (stdoutOf events) in *.
  set (e := foldl (step callbacks) (start h0) events) in *.
  assert (Hall : trimmedLines (stdoutOf events)
                 = completeLines (stdoutOf events)
                   ++ (if Js.truthy (Js.trim (stdoutBuffer e))
                       then [Js.trim (stdoutBuffer e)] else [])).
  { unfold trimmedLines, completeLines.
    rewrite split_cut, fmap_app, List.filter_app, Hbuf. reflexivity. }
  rewrite Hall. unfold step.
  destruct (failed e) eqn:Ef.
  - unfold tracking in He. destruct (callbackQueue e) as [h|err].
    + destruct He as (He & _). congruence.
    + destruct He as (_ & Hp & Hl). split; [by apply prefix_app_r | exact Hp].
  - destruct (deliver_tracking (Js.trim (stdoutBuffer e)) e _ He) as [Hd _].
    unfold tracking in Hd.
    destruct (callbackQueue (deliver callbacks (Js.trim (stdoutBuffer e)) e))
      as [h|err] eqn:Eq; cbn [settle callbackQueue invoked promise]; rewrite Eq.
    + destruct Hd as (_ & -> & Hl). eauto.
    + destruct Hd as (_ & -> & Hl). eauto.
Qed.


End Executor.

(** ** The claim on the executor *)




End ExecutorFacts.

(* ===================================================================== *)
(** * Codex adapter: a late failure of the process *)

Module CodexFacts.
Import Json RunJsonlCli ExecutorFacts CodexCli.

Section Provider.

Context {CB : Type}.
Variable JSON_parse : string -> option json.
Variable toDisplay : json -> string.
Variable callbacks : @ProviderStreamCallbacks CB.

Hypothesis Hquiet : quiet callbacks.

Lemma emitText_quiet l text :
  exists c, emitText callbacks l text = Fulfilled (MkLocal text (cliErrorMessage l) c).
Proof.
  unfold emitText. destruct (proj1 Hquiet text (cbState l)) as [c ->]. eauto.
Qed.

(** A harmless line leaves the recorded error alone and does not throw. *)
Lemma handleLine_harmless line l :
  harmless JSON_parse line = true ->
  exists l', handleLine JSON_parse toDisplay callbacks line l = Fulfilled l'
             /\ cliErrorMessage l' = cliErrorMessage l.
Proof.
  unfold harmless, handleLine.
  destruct (JSON_parse line) as [event|]; [| eauto].
  assert (Hbody : negb (typeIs event "error" || typeIs event "turn.failed") = true ->
    exists l',
      (let item := get event "item" in
       if typeIs event "item.started" then
         if match optGet item "type" with
            | Some (JStr t) => String.eqb t "command_execution"
            | _ => false
            end && truthy (optGet item "command")
         then
           match onStatus callbacks, optGet item "command" with
           | Some f, Some command =>
               match f ("실행 중: " +:+ interpolate toDisplay command) (cbState l) with
               | Fulfilled c => Fulfilled (MkLocal (reply l) (cliErrorMessage l) c)
               | Rejected e => Rejected e
               end
           | _, _ => Fulfilled l
           end
         else Fulfilled l
       else if typeIs event "error" then
         recordError JSON_parse l (get event "message")
       else if typeIs event "turn.failed" then
         recordError JSON_parse l (optGet (get event "error") "message")
       else if (typeIs event "item.completed" || typeIs event "item.updated")
               && match optGet item "type" with
                  | Some (JStr t) => String.eqb t "agent_message"
                  | _ => false
                  end
               && isString (optGet item "text") then
         match optGet item "text" with
         | Some (JStr text) => emitText callbacks l text
         | _ => Fulfilled l
         end
       else if typeIs event "response.output_text.delta" && truthy (get event "delta") then
         match get event "delta" with
         | Some delta => emitText callbacks l (reply l +:+ interpolate toDisplay delta)
         | None => Fulfilled l
         end
       else if typeIs event "response.completed" && isString (get event "output_text") then
         match get event "output_text" with
         | Some (JStr text) => emitText callbacks l text
         | _ => Fulfilled l
         end
       else Fulfilled l) = Fulfilled l'
      /\ cliErrorMessage l' = cliErrorMessage l).
  { intros [He Hf]%negb_true_iff%orb_false_elim. rewrite He, Hf. cbv zeta.
    assert (Hemit : forall text, exists l',
              emitText callbacks l text = Fulfilled l'
              /\ cliErrorMessage l' = cliErrorMessage l).
    { intros text. destruct (emitText_quiet l text) as [c ->]. eauto. }
    destruct (typeIs event "item.started").
    - destruct (_ && _); [| eauto].
      destruct (onStatus callbacks) as [f|] eqn:Ef; [| eauto].
      destruct (optGet (get event "item") "command") as [command|]; [| eauto].
      destruct (proj2 Hquiet f ("실행 중: " +:+ interpolate toDisplay command)
                  (cbState l) Ef) as [c ->]. eauto.
    - destruct (_ && _).
      { destruct (optGet (get event "item") "text") as [[]|]; eauto. }
      destruct (_ && _).
      { destruct (get event "delta"); eauto. }
      destruct (_ && _); [| eauto].
      destruct (get event "output_text") as [[]|]; eauto. }
  destruct event; try done; exact Hbody.
Qed.

(** A line that carries the final text sets the reply to it. *)
Lemma handleLine_final line l text :
  finalText JSON_parse line = Some text ->
  exists c, handleLine JSON_parse toDisplay callbacks line l
            = Fulfilled (MkLocal text (cliErrorMessage l) c).
Proof.
  unfold finalText, handleLine.
  destruct (JSON_parse line) as [[| | | | |fields]|]; try done.
  cbv beta iota zeta. set (event := JObj fields).
  assert (Htype : forall t, typeIs event t = true -> get event "type" = Some (JStr t)).
  { intros t. unfold typeIs. destruct (get event "type") as [[]|]; try done.
    by intros ->%String.eqb_eq. }
  assert (Hother : forall t t', typeIs event t = true -> String.eqb t t' = false ->
            typeIs event t' = false).
  { intros t t' Ht Hne. unfold typeIs. by rewrite (Htype t Ht). }
  destruct (typeIs event "item.completed") eqn:E1.
  - destruct (optGet (get event "item") "type") as [[| | |t| |]|] eqn:Et; try done.
    destruct (optGet (get event "item") "text") as [[| | |text'| |]|] eqn:Ex; try done.
    destruct (String.eqb t "agent_message") eqn:Ea; [| done].
    intros [= ->]. cbv zeta.
    rewrite (Hother "item.completed" "item.started" E1 eq_refl),
      (Hother "item.completed" "error" E1 eq_refl),
      (Hother "item.completed" "turn.failed" E1 eq_refl).
    cbn [orb andb isString]. apply emitText_quiet.
  - destruct (typeIs event "response.completed") eqn:E2; [| done].
    destruct (get event "output_text") as [[| | |text'| |]|] eqn:Ex; try done.
    intros [= ->]. cbv zeta.
    rewrite (Hother "response.completed" "item.started" E2 eq_refl),
      (Hother "response.completed" "error" E2 eq_refl),
      (Hother "response.completed" "turn.failed" E2 eq_refl),
      (Hother "response.completed" "item.updated" E2 eq_refl),
      (Hother "response.completed" "response.output_text.delta" E2 eq_refl).
    cbn [orb andb isString]. apply emitText_quiet.
Qed.

(** An inert line leaves the reply and the recorded error alone. *)
Lemma handleLine_inert line l :
  inert JSON_parse line = true ->
  exists c, handleLine JSON_parse toDisplay callbacks line l
            = Fulfilled (MkLocal (reply l) (cliErrorMessage l) c).
Proof.
  unfold inert, handleLine.
  destruct (JSON_parse line) as [event|]; [| destruct l; eauto].
  assert (Hbody : negb (typeIs event "error" || typeIs event "turn.failed"
                        || typeIs event "item.completed" || typeIs event "item.updated"
                        || typeIs event "response.output_text.delta"
                        || typeIs event "response.completed") = true ->
    exists c,
      (let item := get event "item" in
       if typeIs event "item.started" then
         if match optGet item "type" with
            | Some (JStr t) => String.eqb t "command_execution"
            | _ => false
            end && truthy (optGet item "command")
         then
           match onStatus callbacks, optGet item "command" with
           | Some f, Some command =>
               match f ("실행 중: " +:+ interpolate toDisplay command) (cbState l) with
               | Fulfilled c => Fulfilled (MkLocal (reply l) (cliErrorMessage l) c)
               | Rejected e => Rejected e
               end
           | _, _ => Fulfilled l
           end
         else Fulfilled l
       else if typeIs event "error" then
         recordError JSON_parse l (get event "message")
       else if typeIs event "turn.failed" then
         recordError JSON_parse l (optGet (get event "error") "message")
       else if (typeIs event "item.completed" || typeIs event "item.updated")
               && match optGet item "type" with
                  | Some (JStr t) => String.eqb t "agent_message"
                  | _ => false
                  end
               && isString (optGet item "text") then
         match optGet item "text" with
         | Some (JStr text) => emitText callbacks l text
         | _ => Fulfilled l
         end
       else if typeIs event "response.output_text.delta" && truthy (get event "delta") then
         match get event "delta" with
         | Some delta => emitText callbacks l (reply l +:+ interpolate toDisplay delta)
         | None => Fulfilled l
         end
       else if typeIs event "response.completed" && isString (get event "output_text") then
         match get event "output_text" with
         | Some (JStr text) => emitText callbacks l text
         | _ => Fulfilled l
         end
       else Fulfilled l) = Fulfilled (MkLocal (reply l) (cliErrorMessage l) c)).
  { intros Hn%negb_true_iff.
    repeat (apply orb_false_elim in Hn as [Hn ?]).
    repeat match goal with Ht : typeIs event _ = false |- _ => rewrite Ht; clear Ht end.
    cbv zeta. cbn [orb andb].
    assert (Hsame : exists c, Fulfilled l = Fulfilled (MkLocal (reply l) (cliErrorMessage l) c)).
    { destruct l. eauto. }
    destruct (typeIs event "item.started"); [| exact Hsame].
    destruct (_ && _); [| exact Hsame].
    destruct (onStatus callbacks) as [f|] eqn:Ef; [| exact Hsame].
    destruct (optGet (get event "item") "command") as [command|]; [| exact Hsame].
    destruct (proj2 Hquiet f ("실행 중: " +:+ interpolate toDisplay command)
                (cbState l) Ef) as [c ->]. eauto. }
  destruct event; try done; exact Hbody.
Qed.

Lemma inert_harmless line : inert JSON_parse line = true -> harmless JSON_parse line = true.
Proof.
  unfold inert, harmless. destruct (JSON_parse line) as [event|]; [| done].
  assert (Hb : negb (typeIs event "error" || typeIs event "turn.failed"
                     || typeIs event "item.completed" || typeIs event "item.updated"
                     || typeIs event "response.output_text.delta"
                     || typeIs event "response.completed") = true ->
               negb (typeIs event "error" || typeIs event "turn.failed") = true).
  { intros Hn%negb_true_iff. repeat (apply orb_false_elim in Hn as [Hn ?]).
    rewrite Hn. by apply negb_true_iff, orb_false_intro. }
  destruct event; try done; exact Hb.
Qed.

(** ** The chain of line handlers *)

Lemma feed_app {H : Type} (cbs : @JsonlCallbacks H) a b q :
  feed cbs (a ++ b) q = feed cbs b (feed cbs a q).
Proof.
  revert q. induction a as [|c a IH]; intros q; [reflexivity |].
  simpl. destruct q as [h|err]; [apply IH |]. by destruct b.
Qed.

Lemma feed_lines calls q :
  feed (lineCallbacks JSON_parse toDisplay callbacks) calls q
  = feed (lineCallbacks JSON_parse toDisplay callbacks) (LineCall <$> linesOf calls) q.
Proof.
  revert q. induction calls as [|[line|text] calls IH]; intros q; [reflexivity | |].
  - simpl. destruct q; [apply IH | reflexivity].
  - simpl. destruct q as [h|err]; [apply IH |].
    by destruct (LineCall <$> linesOf calls).
Qed.

Lemma feed_harmless pre : forall l,
  forallb (harmless JSON_parse) pre = true ->
  exists l',
    feed (lineCallbacks JSON_parse toDisplay callbacks) (LineCall <$> pre) (Fulfilled l)
    = Fulfilled l'
    /\ cliErrorMessage l' = cliErrorMessage l.
Proof.
  induction pre as [|line pre IH]; intros l Hpre; [eauto |].
  apply andb_prop in Hpre as [Hline Hpre].
  destruct (handleLine_harmless line l Hline) as (l1 & H1 & E1).
  destruct (IH l1 Hpre) as (l2 & H2 & E2).
  exists l2. split; [| congruence].
  rewrite fmap_cons. cbn [feed invoke lineCallbacks onLine]. by rewrite H1.
Qed.

Lemma feed_inert post : forall l,
  forallb (inert JSON_parse) post = true ->
  exists c,
    feed (lineCallbacks JSON_parse toDisplay callbacks) (LineCall <$> post) (Fulfilled l)
    = Fulfilled (MkLocal (reply l) (cliErrorMessage l) c).
Proof.
  induction post as [|line post IH]; intros l Hpost; [destruct l; eauto |].
  apply andb_prop in Hpost as [Hline Hpost].
  destruct (handleLine_inert line l Hline) as (c1 & H1).
  destruct (IH (MkLocal (reply l) (cliErrorMessage l) c1) Hpost) as (c2 & H2).
  exists c2. rewrite fmap_cons. cbn [feed invoke lineCallbacks onLine]. by rewrite H1.
Qed.

Lemma stream_run cb0 events :
  stream JSON_parse toDisplay callbacks cb0 events
  = match promise (runJsonlCli (lineCallbacks JSON_parse toDisplay callbacks)
                               (MkLocal "" "" cb0) events) with
    | None => None
    | Some (Rejected err) => Some (Rejected err)
    | Some (Fulfilled result) =>
        match callbackQueue (runJsonlCli (lineCallbacks JSON_parse toDisplay callbacks)
                                         (MkLocal "" "" cb0) events) with
        | Fulfilled l => Some (conclude result l)
        | Rejected err => Some (Rejected err)
        end
    end.
Proof. reflexivity. Qed.

(** C6, as amended.  When the child's output, cut into lines, holds a
    line carrying the final text of the reply, every line before it is
    neither a structured error nor one the handler chokes on, every line
    after it carries neither text nor an error, the caller's callbacks do
    not throw, and the final text is not blank, then a non-zero exit code
    does not fail the stream: it resolves with the final text, trimmed. *)
Theorem tolerant_exit_returns_reply
  (cb0 : CB) (events : list ChildEvent) (exitCode : Z) (sig : option string)
  (pre post : list string) (line text : string) :
  forallb isData events = true ->
  exitCode <> 0 ->
  trimmedLines (stdoutOf events) = pre ++ [line] ++ post ->
  forallb (harmless JSON_parse) pre = true ->
  finalText JSON_parse line = Some text ->
  forallb (inert JSON_parse) post = true ->
  Js.trim text <> "" ->
  stream JSON_parse toDisplay callbacks cb0 (events ++ [Close (Some exitCode) sig])
  = Some (Fulfilled (Js.trim text)).
Proof.
  intros Hdata Hcode Hlines Hpre Hfinal Hpost Htext.
  set (cbs := lineCallbacks JSON_parse toDisplay callbacks).
  set (l0 := MkLocal "" "" cb0).
  (* what the handlers make of the lines, run in order *)
  destruct (feed_harmless pre l0 Hpre) as (l1 & Hfeed1 & Herr1).
  destruct (handleLine_final line l1 text Hfinal) as [c1 Hlast].
  destruct (feed_inert post (MkLocal text (cliErrorMessage l1) c1) Hpost) as [c Hfeed2].
  assert (Hfeed : feed cbs (LineCall <$> (pre ++ [line] ++ post)) (Fulfilled l0)
                  = Fulfilled (MkLocal text "" c)).
  { rewrite !fmap_app, !feed_app. fold cbs in Hfeed1, Hfeed2. rewrite Hfeed1.
    cbn [fmap list_fmap feed invoke cbs lineCallbacks onLine].
    rewrite Hlast. fold cbs. rewrite Hfeed2. cbn [reply cliErrorMessage].
    by rewrite Herr1. }
  (* what the executor did *)
  pose proof (closed_tracking cbs l0 events (Some exitCode) sig Hdata) as Hclosed.
  pose proof (run_chained cbs l0 (events ++ [Close (Some exitCode) sig])) as Hchain.
  unfold chained in Hchain. unfold cbs at 3 in Hchain. rewrite feed_lines in Hchain.
  fold cbs in Hchain.
  rewrite stream_run. fold cbs. fold l0.
  destruct (callbackQueue (runJsonlCli cbs l0 (events ++ [Close (Some exitCode) sig])))
    as [l|err] eqn:Eq.
  - destruct Hclosed as [Hall [tail Hp]]. rewrite Hp.
    rewrite Hall, Hlines, Hfeed in Hchain. injection Hchain as ->.
    unfold conclude. cbn [code reply cliErrorMessage default from_option].
    change (id exitCode) with exitCode.
    destruct (Z.eqb_spec exitCode 0) as [|_]; [done |].
    apply JsFacts.truthy_true in Htext. rewrite Htext. reflexivity.
  - exfalso. destruct Hclosed as [[k Hk] _].
    rewrite Hlines in Hk. rewrite Hk, fmap_app, feed_app in Hfeed.
    rewrite <- Hchain in Hfeed. by destruct (LineCall <$> k).
Qed.

End Provider.

Lemma tolerant_exit_returns_reply_witness :
  quiet recorder
  /\ forallb isData [StdoutData ("starting up" +:+ nl +:+ startedLine);
                     StdoutData (nl +:+ finalLine +:+ nl);
                     StdoutData (turnCompletedLine +:+ nl)] = true
  /\ 1 <> 0
  /\ trimmedLines (stdoutOf [StdoutData ("starting up" +:+ nl +:+ startedLine);
                             StdoutData (nl +:+ finalLine +:+ nl);
                             StdoutData (turnCompletedLine +:+ nl)])
     = ["starting up"; startedLine] ++ [finalLine] ++ [turnCompletedLine]
  /\ forallb (harmless sampleParse) ["starting up"; startedLine] = true
  /\ finalText sampleParse finalLine = Some "done"
  /\ forallb (inert sampleParse) [turnCompletedLine] = true
  /\ Js.trim "done" <> ""
  /\ stream sampleParse (fun _ => "") recorder []
       ([StdoutData ("starting up" +:+ nl +:+ startedLine);
         StdoutData (nl +:+ finalLine +:+ nl);
         StdoutData (turnCompletedLine +:+ nl)] ++ [Close (Some 1) None])
     = Some (Fulfilled (Js.trim "done")).
Proof.
  assert (Hquiet : quiet recorder).
  { split.
    - intros text c. eexists. reflexivity.
    - intros f status c [= <-]. eexists. reflexivity. }
  split; [exact Hquiet |]. split; [reflexivity |]. split; [lia |].
  split; [reflexivity |]. split; [reflexivity |]. split; [reflexivity |].
  split; [reflexivity |]. split; [vm_compute; discriminate |].
  apply (tolerant_exit_returns_reply sampleParse (fun _ => "") recorder Hquiet []
           [StdoutData ("starting up" +:+ nl +:+ startedLine);
            StdoutData (nl +:+ finalLine +:+ nl);
            StdoutData (turnCompletedLine +:+ nl)]
           1 None ["starting up"; startedLine] [turnCompletedLine] finalLine "done").
  - reflexivity.
  - lia.
  - reflexivity.
  - reflexivity.
  - reflexivity.
  - reflexivity.
  - vm_compute. discriminate.
Defined.

(** C6, as stated, fails: when the child has also reported a structured
    error, the reply is not returned although the final text was emitted,
    not blank, just before the exit with code 1. *)
Lemma exit_after_error_event_fails :
  finalText sampleParse finalLine = Some "done"
  /\ stream sampleParse (fun _ => "") recorder []
       [StdoutData (errorLine +:+ nl); StdoutData (finalLine +:+ nl);
        Close (Some 1) None]
     = Some (Rejected "codex CLI exited with code 1: boom").
Proof. split; vm_compute; reflexivity. Qed.

End CodexFacts.

(* ===================================================================== *)
(** * Text sized for the platform *)
(* ===================================================================== *)

Module PlatformTextFacts.
Import JsText PlatformText.

(** ** Strings as lists of characters *)

Lemma chars_app (s t : string) :
  list_ascii_of_string (s +:+ t) = list_ascii_of_string s ++ list_ascii_of_string t.
Proof.
  induction s as [|a r IH]; [reflexivity |].
  change (String a r +:+ t) with (String a (r +:+ t)). simpl. by rewrite IH.
Qed.

Lemma chars_length (s : string) : length (list_ascii_of_string s) = String.length s.
Proof. induction s as [|a r IH]; simpl; [reflexivity | by rewrite IH]. Qed.

Lemma chars_substring (s : string) : forall n m,
  list_ascii_of_string (String.substring n m s) = take m (drop n (list_ascii_of_string s)).
Proof.
  induction s as [|a r IH]; intros [|n] [|m]; simpl; try reflexivity.
  all: try (by rewrite (IH 0%nat m), drop_0).
  all: try (by rewrite take_0).
  all: apply IH.
Qed.

Lemma strlen_chars (s : string) : Js.strlen s = Z.of_nat (length (list_ascii_of_string s)).
Proof. unfold Js.strlen. by rewrite chars_length. Qed.

Lemma strlen_app (s t : string) : Js.strlen (s +:+ t) = Js.strlen s + Js.strlen t.
Proof. rewrite !strlen_chars, chars_app, length_app. lia. Qed.

Lemma strlen_nonneg (s : string) : 0 <= Js.strlen s.
Proof. unfold Js.strlen. lia. Qed.

(** [s.slice(i, j)] for indices within the string. *)
Lemma chars_sslice (s : string) (i j : Z) :
  0 <= i -> i <= j ->
  list_ascii_of_string (Js.sslice s i j)
  = take (Z.to_nat (j - i)) (drop (Z.to_nat i) (list_ascii_of_string s)).
Proof.
  intros Hi Hj. unfold Js.sslice, Js.clampIndex. rewrite chars_substring.
  pose proof (strlen_nonneg s) as Hlen. rewrite strlen_chars in *.
  set (l := list_ascii_of_string s) in *.
  destruct (Z.ltb_spec i 0); [lia |]. destruct (Z.ltb_spec j 0); [lia |].
  destruct (Z.le_gt_cases i (Z.of_nat (length l))) as [Hin | Hout].
  - rewrite (Z.min_l i) by lia.
    destruct (Z.le_gt_cases j (Z.of_nat (length l))) as [Hjn | Hjout].
    + rewrite (Z.min_l j) by lia. by rewrite Z.max_l by lia.
    + rewrite (Z.min_r j) by lia. rewrite Z.max_l by lia.
      rewrite !take_ge; [done | rewrite length_drop; lia | rewrite length_drop; lia].
  - rewrite (Z.min_r i), (Z.min_r j) by lia. rewrite Z.max_l by lia.
    rewrite !drop_ge by lia. by rewrite !take_nil.
Qed.

Lemma truthy_chars (s : string) : Js.truthy s = true <-> list_ascii_of_string s <> [].
Proof. by destruct s. Qed.

(** ** [truncateForPlatform] *)

(** X1.  Whenever the suffix itself fits within the limit, the result does: a
    text within the limit is returned as it is, and a longer one comes back
    with exactly [limit] characters, the first [limit - suffix.length] of the
    text followed by the suffix. *)
Theorem truncated_text_fits (text : string) (limit : Z) (suffix : option string) :
  Js.strlen (default defaultSuffix suffix) <= limit ->
  Js.strlen (truncateForPlatform text limit suffix) <= limit
  /\ (Js.strlen text <= limit -> truncateForPlatform text limit suffix = text)
  /\ (limit < Js.strlen text ->
      Js.strlen (truncateForPlatform text limit suffix) = limit
      /\ list_ascii_of_string (truncateForPlatform text limit suffix)
         = take (Z.to_nat (limit - Js.strlen (default defaultSuffix suffix)))
                (list_ascii_of_string text)
           ++ list_ascii_of_string (default defaultSuffix suffix)).
Proof.
  intros Hsuffix. unfold truncateForPlatform.
  set (sfx := default defaultSuffix suffix) in *.
  pose proof (strlen_nonneg sfx) as Hs.
  destruct (Z.leb_spec (Js.strlen text) limit) as [Hfit | Hlong].
  - split; [done |]. split; [done | lia].
  - assert (Hchars : list_ascii_of_string
                       (Js.sslice text 0 (Z.max 0 (limit - Js.strlen sfx)) +:+ sfx)
                     = take (Z.to_nat (limit - Js.strlen sfx)) (list_ascii_of_string text)
                       ++ list_ascii_of_string sfx).
    { rewrite chars_app, chars_sslice by lia. rewrite drop_0.
      by rewrite Z.max_r, Z.sub_0_r by lia. }
    assert (Hlen : Js.strlen (Js.sslice text 0 (Z.max 0 (limit - Js.strlen sfx)) +:+ sfx)
                   = limit).
    { rewrite strlen_chars, Hchars, length_app, length_take.
      pose proof (strlen_chars text). pose proof (strlen_chars sfx). lia. }
    split; [lia |]. split; [lia |]. done.
Qed.

Lemma truncated_text_fits_witness :
  Js.strlen (default defaultSuffix None) <= 20
  /\ truncateForPlatform "a reply that is too long for it" 20 None
     = "a re" +:+ defaultSuffix.
Proof.
  split; [vm_compute; discriminate |].
  destruct (truncated_text_fits "a reply that is too long for it" 20 None) as (_ & _ & H).
  - vm_compute. discriminate.
  - destruct H as [_ H]; [vm_compute; reflexivity |].
    rewrite <- (string_of_list_ascii_of_string (truncateForPlatform _ _ _)), H.
    reflexivity.
Defined.

(** ** [splitTextForPlatform] *)

Lemma withoutLF_app (s t : string) : withoutLF (s +:+ t) = withoutLF s ++ withoutLF t.
Proof. unfold withoutLF. by rewrite chars_app, List.filter_app. Qed.

Lemma withoutLF_lf : withoutLF lf = [].
Proof. reflexivity. Qed.

Lemma withoutLF_concat (pieces : list string) :
  List.concat (withoutLF <$> pieces)
  = List.filter (fun c => negb (Ascii.eqb c Js.LF))
                (List.concat (list_ascii_of_string <$> pieces)).
Proof.
  induction pieces as [|p ps IH]; [reflexivity |].
  cbn [fmap list_fmap List.concat]. rewrite IH. unfold withoutLF.
  by rewrite List.filter_app.
Qed.

Lemma withoutLF_cons (a : ascii) (r : string) :
  withoutLF (String a r) = if Ascii.eqb a Js.LF then withoutLF r else a :: withoutLF r.
Proof. unfold withoutLF. cbn [list_ascii_of_string List.filter]. by destruct (Ascii.eqb a Js.LF). Qed.

(** The pieces between the line feeds hold every other character, in
    order. *)
Lemma withoutLF_split (text : string) :
  List.concat (withoutLF <$> Js.split text Js.LF) = withoutLF text.
Proof.
  induction text as [|a r IH]; [reflexivity |].
  rewrite withoutLF_cons. cbn [Js.split]. destruct (Ascii.eqb a Js.LF) eqn:Ea.
  - cbn [fmap list_fmap List.concat]. by rewrite IH.
  - rewrite <- IH. destruct (Js.split r Js.LF) as [|h t].
    + cbn [fmap list_fmap List.concat]. rewrite withoutLF_cons, Ea. reflexivity.
    + cbn [fmap list_fmap List.concat]. rewrite withoutLF_cons, Ea. reflexivity.
Qed.

Lemma split_lengths (text : string) :
  Forall (fun line => (String.length line <= String.length text)%nat)
         (Js.split text Js.LF).
Proof.
  induction text as [|a r IH]; [by repeat constructor |].
  cbn [Js.split]. destruct (Ascii.eqb a Js.LF).
  - constructor; [simpl; lia |].
    eapply Forall_impl; [exact IH |]. simpl. lia.
  - destruct (Js.split r Js.LF) as [|h t].
    + constructor; [simpl; lia | constructor].
    + apply Forall_cons in IH as [Hh Ht]. constructor; [simpl; lia |].
      eapply Forall_impl; [exact Ht |]. simpl. lia.
Qed.

(** What the inner loop appends when it returns. *)
Lemma hardSplit_returns (line : string) (limit : Z) :
  forall fuel i out r,
  0 <= i ->
  hardSplit fuel line limit i out = Some r ->
  exists pieces,
    r = out ++ pieces
    /\ List.concat (list_ascii_of_string <$> pieces)
       = drop (Z.to_nat i) (list_ascii_of_string line)
    /\ (1 <= limit -> Forall (fits limit) pieces).
Proof.
  assert (Hstuck : limit <= 0 -> forall fuel i out,
            i < Js.strlen line -> hardSplit fuel line limit i out = None).
  { intros Hl. induction fuel as [|fuel IH]; intros i out Hi; simpl;
      destruct (Z.ltb_spec i (Js.strlen line)); try lia; [done |].
    apply IH. lia. }
  induction fuel as [|fuel IH]; intros i out r Hi; simpl;
    destruct (Z.ltb_spec i (Js.strlen line)) as [Hin | Hout]; try done.
  - intros [= <-]. exists []. rewrite app_nil_r. split; [done |].
    split; [| by constructor].
    rewrite drop_ge; [done |]. rewrite strlen_chars in Hout. lia.
  - destruct (Z.le_gt_cases limit 0) as [Hl | Hl].
    { rewrite Hstuck by lia. done. }
    intros Hr. apply IH in Hr as (pieces & -> & Hcat & Hfit); [| lia].
    exists (Js.sslice line i (i + limit) :: pieces).
    rewrite <- app_assoc. split; [done |].
    assert (Hpiece : list_ascii_of_string (Js.sslice line i (i + limit))
                     = take (Z.to_nat limit) (drop (Z.to_nat i) (list_ascii_of_string line))).
    { rewrite chars_sslice by lia. do 2 f_equal. lia. }
    split.
    + cbn [fmap list_fmap List.concat]. rewrite Hcat, Hpiece.
      replace (Z.to_nat (i + limit)) with (Z.to_nat i + Z.to_nat limit)%nat by lia.
      rewrite <- drop_drop. apply take_drop.
    + intros _. constructor; [| apply Hfit; lia].
      rewrite strlen_chars in Hin.
      assert (Hlen : length (list_ascii_of_string (Js.sslice line i (i + limit)))
                     = Nat.min (Z.to_nat limit)
                               (length (list_ascii_of_string line) - Z.to_nat i)).
      { by rewrite Hpiece, length_take, length_drop. }
      split.
      * intros Heq. rewrite Heq in Hlen. simpl in Hlen. lia.
      * rewrite strlen_chars, Hlen. lia.
  - intros [= <-]. exists []. rewrite app_nil_r. split; [done |].
    split; [| by constructor].
    rewrite drop_ge; [done |]. rewrite strlen_chars in Hout. lia.
Qed.

(** The inner loop returns within as many rounds as the line has
    characters left. *)
Lemma hardSplit_enough (line : string) (limit : Z) :
  1 <= limit ->
  forall fuel i out,
  0 <= i -> (Z.to_nat (Js.strlen line - i) <= fuel)%nat ->
  exists r, hardSplit fuel line limit i out = Some r.
Proof.
  intros Hl. induction fuel as [|fuel IH]; intros i out Hi Hfuel; simpl;
    destruct (Z.ltb_spec i (Js.strlen line)) as [Hin | Hout]; try lia; eauto.
  apply IH; lia.
Qed.

Lemma held_pushCurrent a : held (pushCurrent a) = held a.
Proof.
  unfold pushCurrent, held. destruct (Js.truthy (current a)); [| done].
  cbn [chunks current]. rewrite fmap_app, concat_app. cbn.
  by rewrite !app_nil_r.
Qed.

Lemma pushed_held a : List.concat (withoutLF <$> chunks (pushCurrent a)) = held a.
Proof.
  unfold pushCurrent, held. destruct (current a) as [|c r] eqn:Ec; cbn [Js.truthy chunks].
  - by rewrite app_nil_r.
  - rewrite fmap_app, concat_app. cbn [fmap list_fmap List.concat].
    by rewrite app_nil_r.
Qed.

Lemma addLine_held fuel limit a line a' :
  addLine fuel limit a line = Some a' -> held a' = held a ++ withoutLF line.
Proof.
  unfold addLine.
  destruct (Js.strlen _ <=? limit).
  - intros [= <-]. unfold held. cbn [chunks current]. rewrite <- app_assoc. f_equal.
    destruct (current a) as [|c r] eqn:Ec; [reflexivity |].
    cbn [Js.truthy]. by rewrite !withoutLF_app, withoutLF_lf.
  - destruct (Js.strlen line <=? limit).
    + intros [= <-]. unfold held at 1. cbn [chunks current]. by rewrite pushed_held.
    + destruct (hardSplit _ _ _ _ _) as [out|] eqn:Eh; [| done].
      intros [= <-].
      apply hardSplit_returns in Eh as (pieces & -> & Hcat & _); [| lia].
      unfold held at 1. cbn [chunks current].
      rewrite fmap_app, concat_app, pushed_held, withoutLF_concat, Hcat, drop_0.
      assert (Hcur : withoutLF (current (pushCurrent a)) = []).
      { unfold pushCurrent. destruct (Js.truthy (current a)) eqn:Et; [done |].
        by destruct (current a). }
      rewrite Hcur, app_nil_r. reflexivity.
Qed.

Lemma addLines_held fuel limit lines : forall a a',
  addLines fuel limit a lines = Some a' ->
  held a' = held a ++ List.concat (withoutLF <$> lines).
Proof.
  induction lines as [|line rest IH]; intros a a'; simpl.
  - intros [= <-]. by rewrite app_nil_r.
  - destruct (addLine fuel limit a line) as [a1|] eqn:E1; [| done].
    intros Hrest. rewrite (IH _ _ Hrest), (addLine_held _ _ _ _ _ E1).
    by rewrite <- app_assoc.
Qed.

Lemma fitting_pushCurrent limit a : fitting limit a -> fitting limit (pushCurrent a).
Proof.
  intros [Hc Hcur]. unfold pushCurrent.
  destruct (Js.truthy (current a)) eqn:Et; [| done].
  split; cbn [chunks current].
  2: { destruct (current a); [done |]. unfold Js.strlen in *. simpl in *. lia. }
  apply Forall_app. split; [done |]. repeat constructor; [| done].
  by apply JsFacts.truthy_true.
Qed.

Lemma addLine_fitting fuel limit a line :
  1 <= limit -> (String.length line <= fuel)%nat -> fitting limit a ->
  exists a', addLine fuel limit a line = Some a' /\ fitting limit a'.
Proof.
  intros Hl Hfuel Hfit. unfold addLine.
  destruct (Z.leb_spec (Js.strlen (if Js.truthy (current a)
                                   then current a +:+ lf +:+ line else line)) limit)
    as [Hc | Hc].
  - eexists. split; [done |]. destruct Hfit. by split.
  - pose proof (fitting_pushCurrent _ _ Hfit) as [Hp1 Hp2].
    destruct (Z.leb_spec (Js.strlen line) limit) as [Hline | Hline].
    + eexists. split; [done |]. by split.
    + destruct (hardSplit_enough line limit Hl fuel 0 (chunks (pushCurrent a)))
        as [r Hr]; [lia | unfold Js.strlen; lia |].
      rewrite Hr. eexists. split; [done |].
      apply hardSplit_returns in Hr as (pieces & -> & _ & Hpieces); [| lia].
      split; cbn [chunks current]; [| done].
      apply Forall_app. split; [done | by apply Hpieces].
Qed.

Lemma addLines_fitting fuel limit lines :
  1 <= limit -> Forall (fun line => (String.length line <= fuel)%nat) lines ->
  forall a, fitting limit a ->
  exists a', addLines fuel limit a lines = Some a' /\ fitting limit a'.
Proof.
  intros Hl. induction 1 as [|line rest Hline Hrest IH]; intros a Hfit; simpl.
  - eauto.
  - destruct (addLine_fitting fuel limit a line Hl Hline Hfit) as (a1 & -> & Hfit1).
    by apply IH.
Qed.

(** X2.  With a limit of at least one character and as many rounds as the text
    has characters, the function returns; every chunk it returns is at most
    [limit] characters long; and unless the text is returned whole, no chunk
    is empty. *)
Theorem chunks_fit_the_limit (fuel : nat) (text : string) (limit : Z) :
  1 <= limit ->
  (String.length text <= fuel)%nat ->
  exists chunks,
    splitTextForPlatform fuel text limit = Some chunks
    /\ Forall (fun c => Js.strlen c <= limit) chunks
    /\ (limit < Js.strlen text -> Forall (fun c => c <> "") chunks).
Proof.
  intros Hl Hfuel. unfold splitTextForPlatform.
  destruct (Z.leb_spec (Js.strlen text) limit) as [Hshort | Hlong].
  - exists [text]. split; [done |]. split; [by repeat constructor | lia].
  - destruct (addLines_fitting fuel limit (Js.split text Js.LF) Hl) with (a := MkAcc [] "")
      as (a & -> & Hfit).
    + eapply Forall_impl; [apply split_lengths |]. simpl. lia.
    + split; [apply Forall_nil_2 | unfold Js.strlen; simpl; lia].
    + apply fitting_pushCurrent in Hfit as [Hchunks _].
      eexists. split; [done |].
      split; [| intros _]; (eapply Forall_impl; [exact Hchunks |]); by intros c [? ?].
Qed.

Lemma chunks_fit_the_limit_witness :
  1 <= 5 /\ (String.length ("ab" +:+ lf +:+ "cdefghi" +:+ lf +:+ "j") <= 20)%nat
  /\ splitTextForPlatform 20 ("ab" +:+ lf +:+ "cdefghi" +:+ lf +:+ "j") 5
     = Some ["ab"; "cdefg"; "hi"; "j"].
Proof.
  split; [lia |]. split; [vm_compute; lia |].
  destruct (chunks_fit_the_limit 20 ("ab" +:+ lf +:+ "cdefghi" +:+ lf +:+ "j") 5)
    as (chunks & Hsplit & _); [lia | vm_compute; lia |].
  rewrite Hsplit. f_equal. vm_compute in Hsplit. congruence.
Defined.

(** X3.  Whenever the function returns, the chunks hold the characters of the
    text other than line feeds, all of them and in their order: splitting
    loses or moves nothing but line breaks. *)
Theorem chunks_keep_the_text (fuel : nat) (text : string) (limit : Z)
  (chunks : list string) :
  splitTextForPlatform fuel text limit = Some chunks ->
  List.concat (withoutLF <$> chunks) = withoutLF text.
Proof.
  unfold splitTextForPlatform. destruct (Js.strlen text <=? limit).
  - intros [= <-]. simpl. by rewrite app_nil_r.
  - destruct (addLines fuel limit (MkAcc [] "") (Js.split text Js.LF)) as [a|] eqn:Ea;
      [| done].
    intros [= <-]. apply addLines_held in Ea. rewrite withoutLF_split in Ea.
    rewrite <- held_pushCurrent in Ea. unfold held in Ea. cbn in Ea.
    assert (Hcur : withoutLF (current (pushCurrent a)) = []).
    { unfold pushCurrent. destruct (Js.truthy (current a)) eqn:Et; [done |].
      by destruct (current a). }
    rewrite Hcur, app_nil_r in Ea. exact Ea.
Qed.

Lemma chunks_keep_the_text_witness :
  splitTextForPlatform 20 ("ab" +:+ lf +:+ lf +:+ "cdefghi") 5
  = Some ["ab" +:+ lf; "cdefg"; "hi"]
  /\ List.concat (withoutLF <$> ["ab" +:+ lf; "cdefg"; "hi"])
     = withoutLF ("ab" +:+ lf +:+ lf +:+ "cdefghi").
Proof.
  split; [reflexivity |].
  apply (chunks_keep_the_text 20 ("ab" +:+ lf +:+ lf +:+ "cdefghi") 5). reflexivity.
Defined.

Lemma hardSplit_stuck (line : string) (limit : Z) :
  limit <= 0 -> line <> "" ->
  forall fuel i out, i <= 0 -> hardSplit fuel line limit i out = None.
Proof.
  intros Hl Hne.
  assert (0 < Js.strlen line) by (destruct line; [done | unfold Js.strlen; simpl; lia]).
  induction fuel as [|f IH]; intros i out Hi; simpl;
    destruct (Z.ltb_spec i (Js.strlen line)); try lia; [done |].
  apply IH. lia.
Qed.

(** X4.  With a limit of zero or less the function never returns on a text that
    has a non-empty line: the inner loop does not advance. *)
Theorem split_needs_a_positive_limit (fuel : nat) (text : string) (limit : Z) :
  limit <= 0 ->
  (exists line, line ∈ Js.split text Js.LF /\ line <> "") ->
  splitTextForPlatform fuel text limit = None.
Proof.
  intros Hl (line & Hin & Hne).
  assert (Hlines : forall lines a, line ∈ lines -> current a = "" ->
            addLines fuel limit a lines = None).
  { induction lines as [|l rest IH]; intros a Hl' Hcur; [by apply elem_of_nil in Hl' |].
    simpl. unfold addLine, pushCurrent. rewrite Hcur. cbn [Js.truthy].
    destruct l as [|c l'].
    - apply elem_of_cons in Hl' as [-> | Hrest]; [done |].
      destruct (Js.strlen "" <=? limit); [by apply IH |].
      destruct fuel; simpl; by apply IH.
    - destruct (Z.leb_spec (Js.strlen (String c l')) limit) as [Hfit | Hbig].
      { unfold Js.strlen in Hfit. simpl in Hfit. lia. }
      by rewrite hardSplit_stuck. }
  unfold splitTextForPlatform.
  assert (0 < Js.strlen text).
  { destruct text; [| unfold Js.strlen; simpl; lia].
    simpl in Hin. apply list_elem_of_singleton in Hin. done. }
  destruct (Z.leb_spec (Js.strlen text) limit); [lia |].
  by rewrite Hlines.
Qed.

Lemma split_needs_a_positive_limit_witness :
  0 <= 0 /\ "abc" ∈ Js.split "abc" Js.LF
  /\ splitTextForPlatform 1000 "abc" 0 = None.
Proof.
  split; [lia |]. split; [by apply list_elem_of_singleton |].
  apply split_needs_a_positive_limit; [lia |].
  exists "abc". split; [by apply list_elem_of_singleton | done].
Defined.

End PlatformTextFacts.

(* ===================================================================== *)
(** * Session store: conversations, resets, trimming, the file *)
(* ===================================================================== *)

Module StoreOpsFacts.
Import Json SessionStore StoreOps StoreFacts.

(** ** One conversation at a time *)

Lemma touch_other k k' s :
  k' <> k -> sessions (getOrCreate k s).2 !! k' = sessions s !! k'.
Proof.
  intros Hne. rewrite getOrCreate_sessions.
  destruct (sessions s !! k); [done |]. by rewrite lookup_insert_ne.
Qed.

Lemma mutate_other k f io w k' :
  k' <> k -> sessions (store (mutate k f io w)) !! k' = sessions (store w) !! k'.
Proof. intros Hne. rewrite mutate_sessions. by rewrite lookup_insert_ne. Qed.

Lemma reset_other k io w k' :
  k' <> k -> sessions (store (reset k io w)) !! k' = sessions (store w) !! k'.
Proof.
  intros Hne. unfold reset. rewrite persist_store. simpl. by rewrite lookup_delete_ne.
Qed.

Lemma getters_other k w k' :
  k' <> k ->
  sessions (store (getProvider k w).2) !! k' = sessions (store w) !! k'
  /\ (forall p, sessions (store (getModel k p w).2) !! k' = sessions (store w) !! k')
  /\ (forall p, sessions (store (getReasoningEffort k p w).2) !! k'
                 = sessions (store w) !! k')
  /\ (forall u sp, sessions (store (buildPrompt k u sp w).2) !! k'
                    = sessions (store w) !! k').
Proof.
  intros Hne. destruct (getter_world k w) as (E1 & E2 & E3 & E4).
  rewrite E1. split_and!; intros; rewrite ?E2, ?E3, ?E4; by apply touch_other.
Qed.

(** X5.  A call made on one conversation leaves the session of every other
    conversation as it was: its provider, its history and its overrides. *)
Theorem other_conversations_untouched
  (io : PersistIO) (op : Op) (w : World) (k k' : string) :
  opKey op = Some k -> k' <> k ->
  sessions (store (applyOp io op w)) !! k' = sessions (store w) !! k'.
Proof.
  intros Hop Hne.
  destruct (getters_other k w k' Hne) as (G1 & G2 & G3 & G4).
  destruct op as [c|c p|c|c p|c p m|c p|c p e|c u sp|c u a|]; simpl in *;
    simplify_eq; try done.
  - by apply mutate_other.
  - by apply reset_other.
  - by apply mutate_other.
  - by apply mutate_other.
  - by apply mutate_other.
Qed.

Lemma other_conversations_untouched_witness :
  opKey (OAppendExchange "telegram:1" "hi" "hello") = Some "telegram:1"
  /\ "telegram:2" <> "telegram:1"
  /\ sessions (store (applyOp (MkIO "now" true) (OAppendExchange "telegram:1" "hi" "hello")
                        (MkWorld (MkStore codex 20 None
                                    {["telegram:2" := Session claude [] ∅ ∅]}) NoFile)))
       !! "telegram:2"
     = Some (Session claude [] ∅ ∅).
Proof.
  split; [reflexivity |]. split; [done |].
  rewrite (other_conversations_untouched (MkIO "now" true)
             (OAppendExchange "telegram:1" "hi" "hello") _ "telegram:1" "telegram:2");
    [| reflexivity | done].
  reflexivity.
Defined.

(** ** Reset *)

(** X6.  [reset] drops the whole session, not the history alone: afterwards the
    conversation is back on the default provider, has no model or
    reasoning-effort override for any provider, and a prompt built for it
    holds the system prompt and the new user text only. *)
Theorem reset_forgets_the_conversation (k : string) (io : PersistIO) (w : World) :
  (getProvider k (reset k io w)).1 = defaultProvider (store w)
  /\ (forall p, (getModel k p (reset k io w)).1 = None
                /\ (getReasoningEffort k p (reset k io w)).1 = None)
  /\ historyOf k (reset k io w) = []
  /\ (forall u sp,
        (buildPrompt k u sp (reset k io w)).1
        = match sp with
          | Some s => if Js.truthy s then [Message system s] else []
          | None => []
          end ++ [Message user u]).
Proof.
  assert (Hs : store (reset k io w)
               = withSessions (store w) (delete k (sessions (store w)))).
  { unfold reset. by rewrite persist_store. }
  assert (Hg : getOrCreate k (store (reset k io w))
               = (Session (defaultProvider (store w)) [] ∅ ∅,
                  withSessions (store (reset k io w))
                    (<[k := Session (defaultProvider (store w)) [] ∅ ∅]>
                       (sessions (store (reset k io w)))))).
  { unfold getOrCreate. rewrite Hs. simpl. by rewrite lookup_delete_eq. }
  unfold getProvider, getModel, getReasoningEffort, buildPrompt, historyOf.
  rewrite Hg. simpl. split_and!; try done.
  rewrite Hs. simpl. by rewrite lookup_delete_eq.
Qed.

(** ** What trimming keeps *)

Lemma slice1_one {A} (m : A) (l : list A) : Js.slice1 (m :: l) 1 = l.
Proof.
  unfold Js.slice1, Js.clampIndex. destruct (Z.ltb_spec 1 0); [lia |].
  replace (Z.to_nat (Z.min 1 (Z.of_nat (length (m :: l))))) with 1%nat
    by (simpl length; lia).
  reflexivity.
Qed.

Lemma pushExchange_keeps_latest mh h u a :
  2 <= mh ->
  exists older,
    pushExchange mh h u a = older ++ [Message user u; Message assistant a]
    /\ older `suffix_of` h.
Proof.
  intros Hmh. unfold pushExchange.
  set (h' := h ++ [Message user u] ++ [Message assistant a]).
  assert (Hlen : length h' = (length h + 2)%nat).
  { unfold h'. rewrite !length_app. simpl. lia. }
  destruct (Z.gtb_spec (Z.of_nat (length h')) mh) as [Hlong | Hshort].
  - unfold Js.slice1, Js.clampIndex.
    destruct (Z.ltb_spec (- mh) 0); [| lia].
    set (d := Z.to_nat (Z.max (Z.of_nat (length h') + - mh) 0)).
    assert (Hd : (d <= length h)%nat) by (unfold d; lia).
    unfold h'. rewrite drop_app_le by exact Hd.
    destruct (drop d h) as [|m r] eqn:Edrop.
    + exists []. split; [done |]. apply suffix_nil.
    + assert (Hsuf : (m :: r) `suffix_of` h) by (rewrite <- Edrop; apply suffix_drop).
      cbn [app dropLeadingAssistant]. destruct (role m).
      * by exists (m :: r).
      * by exists (m :: r).
      * exists r. split; [apply slice1_one |]. by eapply suffix_cons_l.
  - exists h. split; [reflexivity | done].
Qed.

(** X7.  With [maxHistory >= 2] (the configuration admits 2 to 200), the
    exchange just appended is always kept, as the last two messages of the
    history; what comes before it is the end of the previous history. *)
Theorem latest_exchange_is_kept (k u a : string) (io : PersistIO) (w : World) :
  2 <= maxHistory (store w) ->
  exists older,
    historyOf k (appendExchange k u a io w)
    = older ++ [Message user u; Message assistant a]
    /\ older `suffix_of` historyOf k w.
Proof.
  intros Hmh. unfold historyOf at 1, appendExchange.
  rewrite mutate_sessions, lookup_insert_eq. cbn [history].
  replace (history (default (fresh (store w)) (sessions (store w) !! k)))
    with (historyOf k w) by (unfold historyOf; by destruct (sessions (store w) !! k)).
  by apply pushExchange_keeps_latest.
Qed.

Lemma latest_exchange_is_kept_witness :
  2 <= 2
  /\ exists older,
       historyOf "c"
         (appendExchange "c" "q2" "a2" (MkIO "now" true)
            (MkWorld (MkStore codex 2 None
                        {["c" := Session codex [Message user "q1"; Message assistant "a1"] ∅ ∅]})
                     NoFile))
       = older ++ [Message user "q2"; Message assistant "a2"]
       /\ older `suffix_of`
            historyOf "c"
              (MkWorld (MkStore codex 2 None
                          {["c" := Session codex [Message user "q1"; Message assistant "a1"] ∅ ∅]})
                       NoFile).
Proof.
  split; [lia |]. apply latest_exchange_is_kept. simpl. lia.
Defined.

(** ** What a session never holds *)

(** X8.  In every state the store reaches, from any file at all and through any
    calls and restarts, no history holds a message with the system role: a
    system prompt cannot be planted through the session file, and is never
    stored. *)
Theorem history_never_holds_a_system_message
  (dp : ProviderName) (mh : Z) (path : option string) (d : DiskFile)
  (ops : list (Op * PersistIO)) (k : string) :
  Forall (fun m => role m <> system) (historyOf k (runOps ops (create dp mh path d))).
Proof.
  assert (Hload : forall s value, maxHistory s = mh -> noSystemMessage (loadSession s value)).
  { intros s value _. unfold noSystemMessage, loadSession. cbn [history].
    assert (Hn : Forall (fun m => role m <> system) (normalizeHistory (get value "history"))).
    { eapply Forall_impl; [apply normalizeHistory_storable |]. by intros m [? _]. }
    unfold trimHistory. destruct (_ <=? _); [exact Hn | by apply Forall_trimmed]. }
  apply (historyOf_Forall (Forall (fun m => role m <> system))); [constructor |].
  apply (runOps_Forall mh noSystemMessage (fun _ _ => True)).
  - intros ?. constructor.
  - by intros c q Hc.
  - by intros c q value Hc.
  - by intros c q value Hc.
  - intros c u a _ Hc. unfold noSystemMessage, pushExchange in *. cbn [history].
    assert (Hn : Forall (fun m => role m <> system)
                   (history c ++ [Message user u] ++ [Message assistant a])).
    { apply Forall_app. split; [exact Hc |]. by repeat constructor. }
    destruct (_ >? _); [by apply Forall_trimmed | exact Hn].
  - exact Hload.
  - apply create_maxHistory.
  - apply Forall_forall. by intros [[] ?] _.
  - apply create_Forall. exact Hload.
Qed.

Lemma normalOverrides_empty : normalOverrides ∅.
Proof. intros p v H. by rewrite lookup_empty in H. Qed.

(** X9.  In every state the store reaches, from any file at all, a model or
    reasoning-effort override that is present is trimmed and not blank. *)
Theorem overrides_are_never_blank
  (dp : ProviderName) (mh : Z) (path : option string) (d : DiskFile)
  (ops : list (Op * PersistIO)) (k : string) (p : ProviderName) (v : string) :
  (getModel k p (runOps ops (create dp mh path d))).1 = Some v
  \/ (getReasoningEffort k p (runOps ops (create dp mh path d))).1 = Some v ->
  Js.trim v = v /\ v <> "".
Proof.
  set (w := runOps ops (create dp mh path d)).
  assert (Hall : map_Forall (fun _ => overridesNormal) (sessions (store w))).
  { apply (runOps_Forall mh overridesNormal (fun _ _ => True)).
    - intros ?. split; apply normalOverrides_empty.
    - by intros c q [Hm He].
    - intros c q value [Hm He]. split; [| exact He]. by apply normalOverrides_set.
    - intros c q value [Hm He]. split; [exact Hm |]. by apply normalOverrides_set.
    - by intros c u a _ [Hm He].
    - intros s value _. split; apply normalizeOverrides_normal.
    - apply create_maxHistory.
    - apply Forall_forall. by intros [[] ?] _.
    - apply create_Forall. intros s value _. split; apply normalizeOverrides_normal. }
  assert (Hk : overridesNormal (sessionOf k w)).
  { unfold sessionOf. destruct (sessions (store w) !! k) eqn:E; [exact (Hall k _ E) |].
    split; apply normalOverrides_empty. }
  unfold getModel, getReasoningEffort.
  pose proof (getOrCreate_fst k (store w)) as Hfst.
  destruct (getOrCreate k (store w)) as [session s]. cbn [fst] in *. subst session.
  destruct Hk as [Hm He]. intros [Hv | Hv]; [by apply (Hm p) | by apply (He p)].
Qed.

Lemma overrides_are_never_blank_witness :
  (getModel "c" codex
     (runOps [(OSetModel "c" codex (Some "  o3 "), MkIO "now" true)]
             (create codex 20 None NoFile))).1 = Some "o3"
  /\ Js.trim "o3" = "o3" /\ "o3" <> "".
Proof.
  assert (H : (getModel "c" codex
                 (runOps [(OSetModel "c" codex (Some "  o3 "), MkIO "now" true)]
                         (create codex 20 None NoFile))).1 = Some "o3")
    by reflexivity.
  split; [exact H |].
  apply (overrides_are_never_blank codex 20 None NoFile
           [(OSetModel "c" codex (Some "  o3 "), MkIO "now" true)] "c" codex "o3").
  left. exact H.
Defined.

(** ** Reasoning-effort overrides *)

Lemma sessionOf_mutate k f io w :
  sessionOf k (mutate k f io w) = f (sessionOf k w).
Proof.
  unfold sessionOf. rewrite mutate_sessions, lookup_insert_eq. reflexivity.
Qed.

Lemma getters_sessionOf k w :
  (getProvider k w).1 = provider (sessionOf k w)
  /\ (forall p, (getModel k p w).1 = modelOverrides (sessionOf k w) !! p)
  /\ (forall p, (getReasoningEffort k p w).1 = reasoningEffortOverrides (sessionOf k w) !! p)
  /\ historyOf k w = history (sessionOf k w).
Proof.
  unfold getProvider, getModel, getReasoningEffort, historyOf, sessionOf.
  pose proof (getOrCreate_fst k (store w)) as Hfst.
  destruct (getOrCreate k (store w)) as [session s]. cbn [fst] in *. subst session.
  split_and!; try done. by destruct (sessions (store w) !! k).
Qed.

(** ** Writes that fail *)

Lemma applyOp_store io io' op w w' :
  store w = store w' -> isRestart op = false ->
  store (applyOp io op w) = store (applyOp io' op w').
Proof.
  intros Hs Hop.
  destruct op as [k|k p|k|k p|k p m|k p|k p e|k u sp|k u a|]; try done; simpl;
    try (destruct (getter_world k w) as (E1 & E2 & E3 & E4);
         destruct (getter_world k w') as (F1 & F2 & F3 & F4);
         rewrite ?E1, ?E2, ?E3, ?E4, ?F1, ?F2, ?F3, ?F4; simpl; by rewrite Hs);
    try (unfold setProvider, setModel, setReasoningEffort, appendExchange, mutate;
         rewrite <- Hs; destruct (getOrCreate k (store w)); by rewrite !persist_store).
  unfold reset. rewrite !persist_store. simpl. by rewrite Hs.
Qed.

Lemma applyOp_failed_write io op w :
  writeOk io = false -> disk (applyOp io op w) = disk w.
Proof.
  intros Hio.
  assert (Hp : forall w', disk (persist io w') = disk w').
  { intros w'. unfold persist. rewrite Hio. by destruct (persistencePath _). }
  destruct op as [k|k p|k|k p|k p m|k p|k p e|k u sp|k u a|]; simpl;
    try (destruct (getter_world k w) as (E1 & E2 & E3 & E4);
         by rewrite ?E1, ?E2, ?E3, ?E4);
    try (unfold setProvider, setModel, setReasoningEffort, appendExchange, mutate;
         destruct (getOrCreate k (store w)); by rewrite Hp);
    try done.
  unfold reset. by rewrite Hp.
Qed.

(** X10.  A write that fails costs durability and nothing else.  Run the same
    calls (restarts apart) once with whatever the writes did and once with
    every write failing: the store object ends in the same state, and in the
    second run the file is never touched. *)
Theorem failed_writes_cost_only_durability
  (ops ops' : list (Op * PersistIO)) (w : World) :
  sameCalls ops ops' ->
  forallb (fun oi => negb (isRestart oi.1)) ops = true ->
  forallb (fun oi => negb (writeOk oi.2)) ops' = true ->
  store (runOps ops' w) = store (runOps ops w)
  /\ disk (runOps ops' w) = disk w.
Proof.
  unfold sameCalls, runOps. intros Hsame Hnr Hfail.
  enough (H : forall w', store w' = store w ->
            store (foldl (fun w oi => applyOp oi.2 oi.1 w) w' ops')
            = store (foldl (fun w oi => applyOp oi.2 oi.1 w) w ops)
            /\ disk (foldl (fun w oi => applyOp oi.2 oi.1 w) w' ops') = disk w')
    by (by apply H).
  revert ops' w Hsame Hnr Hfail.
  induction ops as [|[op io] ops IH]; intros [|[op' io'] ops'] w Hsame Hnr Hfail w' Hs;
    try done.
  simpl in *. injection Hsame as <- Hsame.
  apply andb_prop in Hnr as [Hop%negb_true_iff Hnr].
  apply andb_prop in Hfail as [Hio%negb_true_iff Hfail].
  destruct (IH ops' (applyOp io op w) Hsame Hnr Hfail (applyOp io' op w')) as [E1 E2].
  - by apply applyOp_store.
  - split; [exact E1 |]. rewrite E2. by apply applyOp_failed_write.
Qed.

Lemma failed_writes_cost_only_durability_witness :
  sameCalls [(OAppendExchange "c" "q" "a", MkIO "t1" true)]
            [(OAppendExchange "c" "q" "a", MkIO "t2" false)]
  /\ store (runOps [(OAppendExchange "c" "q" "a", MkIO "t2" false)]
                   (create codex 20 (Some "store.json") NoFile))
     = store (runOps [(OAppendExchange "c" "q" "a", MkIO "t1" true)]
                     (create codex 20 (Some "store.json") NoFile))
  /\ disk (runOps [(OAppendExchange "c" "q" "a", MkIO "t2" false)]
                  (create codex 20 (Some "store.json") NoFile))
     = NoFile.
Proof.
  split; [reflexivity |].
  apply (failed_writes_cost_only_durability
           [(OAppendExchange "c" "q" "a", MkIO "t1" true)]
           [(OAppendExchange "c" "q" "a", MkIO "t2" false)]
           (create codex 20 (Some "store.json") NoFile)); reflexivity.
Defined.

(** ** A file that is not accepted *)






End StoreOpsFacts.

(* ===================================================================== *)
(** * Conversation orchestrator: provider choice and the lock map *)
(* ===================================================================== *)

Module ChatCommandsFacts.
Import Json SessionStore StoreOps StoreFacts StoreOpsFacts ChatService ChatFacts.
Import ChatCommands.

Lemma asProviderName_id provider p :
  asProviderName provider = Some p -> providerId p = provider.
Proof.
  unfold asProviderName, providerNames. cbn [List.find providerId].
  destruct (String.eqb_spec "codex" provider) as [<- | _]; [by intros [= <-] |].
  destruct (String.eqb_spec "claude" provider) as [<- | _]; [by intros [= <-] | done].
Qed.

Lemma sessionOf_touch k w : sessionOf k (touch k w) = sessionOf k w.
Proof.
  unfold sessionOf, touch. cbn [store]. rewrite getOrCreate_sessions.
  destruct (sessions (store w) !! k) eqn:E.
  - by rewrite E.
  - by rewrite lookup_insert_eq.
Qed.

Lemma historyOf_sessionOf k w : historyOf k w = history (sessionOf k w).
Proof. unfold historyOf, sessionOf. by destruct (sessions (store w) !! k). Qed.

(** ** [setProvider] *)

(** X12.  [setProvider] records a provider only when its name is one of the two
    known names and that provider is configured; the conversation is then on
    that provider and no history has changed.  When it throws, nothing has
    changed at all. *)
Theorem setProvider_takes_configured_providers_only
  (svc : Service) (k provider : string) (io : PersistIO) (w : World) :
  (forall p w', setProvider svc k provider io w = (Fulfilled p, w') ->
     providerId p = provider
     /\ providersHas svc p = true
     /\ (SessionStore.getProvider k w').1 = p
     /\ forall k', historyOf k' w' = historyOf k' w)
  /\ (forall e w', setProvider svc k provider io w = (Rejected e, w') ->
        w' = w
        /\ (e = "Supported providers: codex, claude."
            \/ e = notConfigured provider)).
Proof.
  unfold setProvider. split.
  - intros p w'. destruct (asProviderName provider) as [typed|] eqn:Ea; [| done].
    destruct (providersHas svc typed) eqn:Eh; [| done]. cbn [negb].
    intros [= <- <-]. split; [by apply asProviderName_id |]. split; [done |].
    split.
    + destruct (getters_sessionOf k (SessionStore.setProvider k typed io w)) as (-> & _).
      unfold SessionStore.setProvider. by rewrite sessionOf_mutate.
    + intros k'. apply historyOf_setProvider.
  - intros e w'. destruct (asProviderName provider) as [typed|] eqn:Ea.
    + destruct (providersHas svc typed); [done |]. cbn [negb].
      intros [= <- <-]. split; [done |]. right.
      by rewrite (asProviderName_id _ _ Ea).
    + intros [= <- <-]. auto.
Qed.

Lemma setProvider_takes_configured_providers_only_witness :
  setProvider (MkService [(codex, fun _ _ => Fulfilled "ok")] None)
              "telegram:1" "claude" (MkIO "now" true) (create codex 20 None NoFile)
  = (Rejected (notConfigured "claude"), create codex 20 None NoFile)
  /\ create codex 20 None NoFile = create codex 20 None NoFile.
Proof.
  split; [reflexivity |].
  destruct (setProvider_takes_configured_providers_only
              (MkService [(codex, fun _ _ => Fulfilled "ok")] None)
              "telegram:1" "claude" (MkIO "now" true) (create codex 20 None NoFile))
    as [_ H].
  by destruct (H (notConfigured "claude") (create codex 20 None NoFile) eq_refl).
Defined.

(** ** The adapter a request reaches *)

Lemma providersGet_head svc p rest adapter0 :
  providers svc = (p, adapter0) :: rest -> providersGet svc p = Some adapter0.
Proof.
  intros E. unfold providersGet. rewrite E. simpl.
  by rewrite bool_decide_eq_true_2.
Qed.

(** [askStreamBegin], read off the session of the conversation. *)
Lemma askStreamBegin_session svc k u io w f w' :
  askStreamBegin svc k u io w = (Fulfilled f, w') ->
  chosenProvider svc (provider (sessionOf k w)) = Some (providerName f)
  /\ providersGet svc (providerName f) = Some (adapter f)
  /\ provider (sessionOf k w') = providerName f
  /\ prompt f = systemMessages (systemPrompt svc) ++ history (sessionOf k w)
                ++ [Message user u]
  /\ model (options f) = modelOverrides (sessionOf k w) !! providerName f
  /\ reasoningEffort (options f)
     = reasoningEffortOverrides (sessionOf k w) !! providerName f.
Proof.
  unfold askStreamBegin.
  destruct (getters_sessionOf k w) as (Hp0 & _).
  destruct (getter_touch k w) as (E1 & _).
  destruct (SessionStore.getProvider k w) as [name0 w1]. cbn [fst snd] in *. subst w1.
  (* what the three getters at the end return, from a world [w2] *)
  assert (Htail : forall name adapter0 w2,
    (let '(prompt, w3) := buildPrompt k u (systemPrompt svc) w2 in
     let '(selectedModel, w4) := SessionStore.getModel k name w3 in
     let '(selectedReasoningEffort, w5) := SessionStore.getReasoningEffort k name w4 in
     (Fulfilled (MkInFlight name prompt
                   (StreamOptions selectedModel selectedReasoningEffort) adapter0),
      w5)) = (Fulfilled f, w') ->
    providerName f = name /\ adapter f = adapter0
    /\ sessionOf k w' = sessionOf k w2
    /\ prompt f = systemMessages (systemPrompt svc) ++ history (sessionOf k w2)
                  ++ [Message user u]
    /\ model (options f) = modelOverrides (sessionOf k w2) !! name
    /\ reasoningEffort (options f) = reasoningEffortOverrides (sessionOf k w2) !! name).
  { intros name adapter0 w2.
    destruct (getter_touch k w2) as (_ & _ & _ & E4).
    specialize (E4 u (systemPrompt svc)).
    assert (Hprompt : (buildPrompt k u (systemPrompt svc) w2).1
                      = systemMessages (systemPrompt svc) ++ history (sessionOf k w2)
                        ++ [Message user u]).
    { unfold buildPrompt, sessionOf. pose proof (getOrCreate_fst k (store w2)) as Hfst.
      destruct (getOrCreate k (store w2)) as [session s]. cbn [fst] in *. by subst. }
    destruct (buildPrompt k u (systemPrompt svc) w2) as [pr w3]. cbn [fst snd] in *. subst.
    destruct (getters_sessionOf k (touch k w2)) as (_ & Hm & _ & _). specialize (Hm name).
    destruct (getter_touch k (touch k w2)) as (_ & E2 & _ & _). specialize (E2 name).
    destruct (SessionStore.getModel k name (touch k w2)) as [m w4]. cbn [fst snd] in *. subst.
    destruct (getters_sessionOf k (touch k (touch k w2))) as (_ & _ & He & _).
    specialize (He name).
    destruct (getter_touch k (touch k (touch k w2))) as (_ & _ & E3 & _).
    specialize (E3 name).
    destruct (SessionStore.getReasoningEffort k name (touch k (touch k w2))) as [e w5].
    cbn [fst snd] in *. subst.
    intros [= <- <-]. cbn [providerName adapter prompt options model reasoningEffort].
    by rewrite !sessionOf_touch. }
  rewrite <- Hp0. unfold chosenProvider, providersHas.
  destruct (providersGet svc name0) as [adapter0|] eqn:Eget.
  - intros Hf. apply Htail in Hf as (Hn & Ha & Hs & Hpr & Hm & He).
    rewrite Hs, Hn, Ha, Hpr, Hm, He, !sessionOf_touch, Eget, <- Hp0. done.
  - unfold getAvailableProviders.
    destruct (providers svc) as [|[fallback adapter0] rest] eqn:Epr; [done |].
    cbn [fmap list_fmap fst head].
    rewrite (providersGet_head svc fallback rest adapter0 Epr).
    intros Hf. apply Htail in Hf as (Hn & Ha & Hs & Hpr & Hm & He).
    rewrite Hs, Hn, Ha, Hpr, Hm, He.
    unfold SessionStore.setProvider. rewrite sessionOf_mutate, !sessionOf_touch.
    cbn [provider history modelOverrides reasoningEffortOverrides].
    rewrite (providersGet_head svc fallback rest adapter0 Epr). done.
Qed.

(** X13.  When [askStream] gets as far as calling an adapter, it is the adapter
    configured for the provider of the conversation, or for the first
    configured provider when that one is not configured; the conversation is
    recorded as being on that provider; the prompt is the system prompt, the
    history and the new user text; and the options are the overrides the
    conversation holds for that provider. *)
Theorem askStream_reaches_the_chosen_adapter
  (svc : Service) (k u : string) (io : PersistIO) (w : World) (f : InFlight) (w' : World) :
  askStreamBegin svc k u io w = (Fulfilled f, w') ->
  chosenProvider svc (SessionStore.getProvider k w).1 = Some (providerName f)
  /\ providersGet svc (providerName f) = Some (adapter f)
  /\ (SessionStore.getProvider k w').1 = providerName f
  /\ prompt f = systemMessages (systemPrompt svc) ++ historyOf k w ++ [Message user u]
  /\ model (options f) = (SessionStore.getModel k (providerName f) w).1
  /\ reasoningEffort (options f)
     = (SessionStore.getReasoningEffort k (providerName f) w).1.
Proof.
  intros (Hc & Ha & Hp & Hpr & Hm & He)%askStreamBegin_session.
  destruct (getters_sessionOf k w) as (-> & Gm & Ge & ->).
  destruct (getters_sessionOf k w') as (-> & _).
  by rewrite Gm, Ge.
Qed.

Lemma askStream_reaches_the_chosen_adapter_witness :
  exists f w',
    askStreamBegin (MkService [(claude, fun _ _ => Fulfilled "ok")] (Some "be brief"))
                   "telegram:1" "hello" (MkIO "now" true) (create codex 20 None NoFile)
    = (Fulfilled f, w')
    /\ providerName f = claude
    /\ prompt f = [Message system "be brief"; Message user "hello"].
Proof.
  do 2 eexists. split; [reflexivity |].
  destruct (askStream_reaches_the_chosen_adapter
              (MkService [(claude, fun _ _ => Fulfilled "ok")] (Some "be brief"))
              "telegram:1" "hello" (MkIO "now" true) (create codex 20 None NoFile)
              _ _ eq_refl) as (_ & _ & _ & Hp & _).
  split; [reflexivity | exact Hp].
Defined.

(** ** The lock map *)

Lemma tailsLive_step l e l' :
  tailsLive l -> lockStep l e = Some l' -> tailsLive l'.
Proof.
  intros Hlive. destruct e as [k0|i|i]; simpl.
  - intros [= <-] k n. cbn [chatLocks requests].
    destruct (decide (k = k0)) as [->|Hne].
    + rewrite lookup_insert_eq. intros [= <-].
      exists (MkRequest k0 (chatLocks l !! k0) Waiting). split; [| done].
      apply lookup_snoc_Some. by right.
    + rewrite lookup_insert_ne by done. intros Hk.
      destruct (Hlive k n Hk) as (r & Hn & Hkey & Hst).
      exists r. split; [| done]. by apply lookup_app_l_Some.
  - destruct (requests l !! i) as [r|] eqn:Hi; [| done].
    destruct (_ && _); [| done]. intros [= <-] k n Hk. cbn [chatLocks requests] in *.
    destruct (Hlive k n Hk) as (rn & Hn & Hkey & Hst).
    destruct (setStatus_lookup_inv i Running _ n rn Hn)
      as (r' & Hr' & Hk' & _ & [[_ Hs] | [_ Hs]]);
      exists r'; split_and!; congruence.
  - destruct (requests l !! i) as [r|] eqn:Hi; [| done].
    case_bool_decide as Hrun; [| done]. intros [= <-] k n. cbn [chatLocks requests].
    intros Hk.
    assert (chatLocks l !! k = Some n /\ n <> i) as [Hk0 Hni].
    { case_bool_decide as Htail.
      - apply lookup_delete_Some in Hk as [Hne Hk]. split; [done |].
        intros ->. destruct (Hlive k i Hk) as (ri & Hri & Hkey & _). congruence.
      - split; [done |]. intros ->.
        destruct (Hlive k i Hk) as (ri & Hri & Hkey & _).
        assert (ri = r) by congruence. subst ri. congruence. }
    destruct (Hlive k n Hk0) as (rn & Hn & Hkey & Hst).
    destruct (setStatus_lookup_inv i Finished _ n rn Hn)
      as (r' & Hr' & Hk' & _ & [[? _] | [_ Hs]]); [done |].
    exists r'. split_and!; congruence.
Qed.

Lemma tailsLive_run es : forall l l',
  tailsLive l -> lockRun l es = Some l' -> tailsLive l'.
Proof.
  induction es as [|e es IH]; intros l l' Hlive; simpl.
  - by intros [= <-].
  - destruct (lockStep l e) as [l1|] eqn:E; [| done].
    apply IH. by eapply tailsLive_step.
Qed.

(** X14.  In every state the lock reaches, the lock map holds an entry for a
    conversation exactly when one of its calls has not finished yet: the
    entry of a conversation is removed when its last call settles, so the map
    does not grow with the conversations that have been served. *)
Theorem lock_map_holds_busy_conversations_only (es : list LockEvent) (l : Locks) :
  lockRun noLocks es = Some l ->
  forall k, is_Some (chatLocks l !! k) <-> busy l k.
Proof.
  intros Hrun k.
  pose proof (lockRun_inv es noLocks l noLocks_inv Hrun) as Hinv.
  assert (Hlive : tailsLive l).
  { apply (tailsLive_run es noLocks); [| done]. intros ? ? Hk. by simpl in Hk. }
  split.
  - intros [n Hn]. destruct (Hlive k n Hn) as (r & Hr & Hkey & Hst). by exists n, r.
  - intros (i & r & Hi & Hkey & Hst).
    destruct (chatLocks l !! k) as [n|] eqn:Hk; [done |].
    exfalso. apply Hst. by apply (inv_free l Hinv k Hk i r).
Qed.

Lemma lock_map_holds_busy_conversations_only_witness :
  exists l,
    lockRun noLocks [Call "a"; Call "b"; Resume 0%nat; Resume 1%nat; Settle 0%nat] = Some l
    /\ chatLocks l !! "a" = None
    /\ (is_Some (chatLocks l !! "b") <-> busy l "b").
Proof.
  eexists. split; [reflexivity |]. split; [reflexivity |].
  apply (lock_map_holds_busy_conversations_only
           [Call "a"; Call "b"; Resume 0%nat; Resume 1%nat; Settle 0%nat]).
  reflexivity.
Defined.

(** X15.  In every state the lock reaches, a conversation with a call that has
    not finished either has a call executing its task, or has a waiting call
    that can start at once: no conversation is ever stuck behind the lock. *)
Theorem a_waiting_call_is_never_stuck (es : list LockEvent) (l : Locks) (k : string) :
  lockRun noLocks es = Some l ->
  busy l k ->
  (exists i, inFlight l i k)
  \/ (exists i r, requests l !! i = Some r /\ key r = k /\ status r = Waiting
                  /\ is_Some (lockStep l (Resume i))).
Proof.
  intros Hrun (i & r & Hi & Hkey & Hst).
  pose proof (lockRun_inv es noLocks l noLocks_inv Hrun) as Hinv.
  revert r Hi Hkey Hst. induction (lt_wf i) as [i _ IH]. intros r Hi Hkey Hst.
  destruct (decide (Forall (fun rm => key rm = k -> status rm = Finished)
                           (take i (requests l)))) as [Hall | Hsome].
  - assert (Hearlier : earlierFinished l i r).
    { intros m rm Hm Hrm Hk. rewrite Forall_lookup in Hall.
      apply (Hall m rm); [| congruence]. by rewrite lookup_take_lt. }
    destruct (status r) eqn:Es; [| | done].
    + right. exists i, r. split_and!; try done.
      simpl. rewrite Hi, Es, bool_decide_eq_true_2 by done. simpl.
      apply (previousSettled_iff l i r Hinv Hi) in Hearlier. rewrite Hearlier. eauto.
    + left. exists i, r. done.
  - apply not_Forall_Exists in Hsome; [| apply _].
    apply Exists_exists in Hsome as (rm & Hin & Hnot).
    apply list_elem_of_lookup in Hin as [m Hm].
    apply lookup_take_Some in Hm as [Hm Hlt].
    destruct (decide (key rm = k)) as [Hk | Hk]; [| by destruct Hnot].
    apply (IH m Hlt rm Hm Hk). intros Hfin. by apply Hnot.
Qed.

Lemma a_waiting_call_is_never_stuck_witness :
  exists l,
    lockRun noLocks [Call "a"; Call "a"; Resume 0%nat; Settle 0%nat] = Some l
    /\ busy l "a"
    /\ is_Some (lockStep l (Resume 1%nat)).
Proof.
  eexists. split; [reflexivity |].
  assert (Hbusy : busy (MkLocks {["a" := 1%nat]}
                          [MkRequest "a" None Finished; MkRequest "a" (Some 0%nat) Waiting])
                       "a").
  { exists 1%nat, (MkRequest "a" (Some 0%nat) Waiting). by split_and!. }
  split; [exact Hbusy |].
  destruct (a_waiting_call_is_never_stuck
              [Call "a"; Call "a"; Resume 0%nat; Settle 0%nat] _ "a" eq_refl Hbusy)
    as [(i & r & Hi & _ & Hs) | (i & r & Hi & _ & Hw & Hok)].
  - destruct i as [|[|i]]; simplify_eq/=.
  - destruct i as [|[|i]]; simplify_eq/=. exact Hok.
Defined.

End ChatCommandsFacts.

(* ===================================================================== *)
(** * Edit coalescer: one edit at a time, no repeated text, the last text *)
(* ===================================================================== *)

Module StreamEditRunsFacts.
Import StreamEdit StreamEditFacts StreamEditRuns.

Lemma inFlightAfter_app a b : inFlightAfter (a ++ b) = inFlightAfter a + inFlightAfter b.
Proof. induction a as [|o a IH]; simpl; [done |]. rewrite IH. lia. Qed.

Lemma shownAfter_app shown a b :
  shownAfter shown (a ++ b) = shownAfter (shownAfter shown a) b.
Proof. apply foldl_app. Qed.

Lemma submittedAfter_cons last e es :
  submittedAfter last (e :: es)
  = submittedAfter (match e with
                    | Queue text _ | Flush text _ => Some text
                    | _ => last
                    end) es.
Proof. reflexivity. Qed.

(** Splitting a list of up to a few observations in two. *)
Ltac split_short pre Heq :=
  cbn [returned app] in Heq; revert Heq;
  repeat (destruct pre as [|? pre]; cbn [app]; intros ?; simplify_eq;
          try match goal with H : _ = pre ++ _ |- _ => revert H end;
          cbn [inFlightAfter shownAfter foldr foldl delta]; try done; try lia).

Section Controller.

Variable intervalMs : Z.

(** What one pass of the loop comes to. *)
Lemma loop_cases now c v :
  (loop intervalMs now c v
   = (MkVars None (lastApplied v) (lastEditAt v) false, Idle, returned c)
   /\ (pending v = None
       \/ exists text, pending v = Some text /\ (text = "" \/ text = lastApplied v)))
  \/ (exists text wakeAt,
        loop intervalMs now c v
        = (MkVars None (lastApplied v) (lastEditAt v) (processing v),
           Sleeping text wakeAt c, [])
        /\ pending v = Some text /\ text <> "" /\ text <> lastApplied v)
  \/ (exists text,
        loop intervalMs now c v
        = (MkVars None (lastApplied v) (lastEditAt v) (processing v),
           Editing text c, [Publish text now])
        /\ pending v = Some text /\ text <> "" /\ text <> lastApplied v).
Proof.
  unfold loop, finish. destruct (pending v) as [text|] eqn:Ep;
    cbn [pending lastApplied lastEditAt processing].
  - destruct (Js.truthy text) eqn:Et; cbn [negb orb].
    + destruct (String.eqb_spec text (lastApplied v)) as [-> | Hne].
      * left. split; [by destruct c |]. right. eauto.
      * apply JsFacts.truthy_true in Et.
        destruct (_ >? 0); right; [left | right]; eauto 10.
    + apply JsFacts.truthy_false in Et. subst text.
      left. split; [by destruct c |]. right. eauto.
  - left. split; [by destruct c | by left].
Qed.

(** A call of [queue] or [flush]: the step it makes. *)
Lemma call_cases s text now c pre s1 o1 :
  (let '(v, ph, obs) := run intervalMs now c (setPending text (vars s)) (phase s) in
   Some (MkState v ph now, pre ++ obs)) = Some (s1, o1) ->
  (processing (vars s) = true
   /\ s1 = MkState (setPending text (vars s)) (phase s) now
   /\ o1 = pre ++ returned c)
  \/ (processing (vars s) = false
      /\ exists v ph obs,
           loop intervalMs now c
                (MkVars (Some text) (lastApplied (vars s)) (lastEditAt (vars s)) true)
           = (v, ph, obs)
           /\ s1 = MkState v ph now /\ o1 = pre ++ obs).
Proof.
  unfold run, setPending. cbn [processing pending lastApplied lastEditAt].
  destruct (processing (vars s)).
  - intros [= <- <-]. left. by destruct c.
  - destruct (loop _ _ _ _) as [[v ph] obs]. intros [= <- <-]. right. eauto 10.
Qed.

Lemma step_call s e s1 o1 :
  step intervalMs s e = Some (s1, o1) ->
  match e with
  | Queue text now =>
      (let '(v, ph, obs) := run intervalMs now ByQueue (setPending text (vars s)) (phase s) in
       Some (MkState v ph now, [] ++ obs)) = Some (s1, o1)
  | Flush text now =>
      (let '(v, ph, obs) :=
         run intervalMs now (ByFlush text) (setPending text (vars s)) (phase s) in
       Some (MkState v ph now, [FlushCalled text] ++ obs)) = Some (s1, o1)
  | _ => True
  end.
Proof.
  unfold step. destruct (eventTime e <? clock s); [done |]. by destruct e.
Qed.

(** ** At most one edit in flight *)

Lemma step_balance s e s1 o1 :
  stateInv intervalMs s ->
  step intervalMs s e = Some (s1, o1) ->
  editing s1 = editing s + inFlightAfter o1
  /\ forall pre post, o1 = pre ++ post -> 0 <= editing s + inFlightAfter pre <= 1.
Proof.
  intros [Hproc _ _ _] Hstep.
  assert (Hcall : forall text now c pre0,
    (pre0 = [] \/ exists t, pre0 = [FlushCalled t]) ->
    (let '(v, ph, obs) := run intervalMs now c (setPending text (vars s)) (phase s) in
     Some (MkState v ph now, pre0 ++ obs)) = Some (s1, o1) ->
    editing s1 = editing s + inFlightAfter o1
    /\ forall pre post, o1 = pre ++ post -> 0 <= editing s + inFlightAfter pre <= 1).
  { intros text now c pre0 Hpre0
      [(Hp & -> & ->) | (Hp & v & ph & obs & Hloop & -> & ->)]%call_cases.
    - unfold editing. cbn [phase].
      split; [by destruct Hpre0 as [-> | [? ->]], c; simpl; lia |].
      intros pre post Heq.
      destruct Hpre0 as [-> | [? ->]], c, (phase s); split_short pre Heq.
    - pose proof (proj1 Hproc Hp) as Hidle. unfold editing. rewrite Hidle.
      destruct (loop_cases now c
                  (MkVars (Some text) (lastApplied (vars s)) (lastEditAt (vars s)) true))
        as [[E _] | [(t' & wk & E & _) | (t' & E & _)]];
        rewrite E in Hloop; injection Hloop as <- <- <-; unfold editing; cbn [phase];
        (split; [by destruct Hpre0 as [-> | [? ->]], c; simpl; lia |]);
        intros pre post Heq;
        destruct Hpre0 as [-> | [? ->]], c; split_short pre Heq. }
  pose proof (step_call s e s1 o1 Hstep) as Hc.
  destruct e as [text now | text now | now | [] now].
  - apply (Hcall text now ByQueue []); auto.
  - apply (Hcall text now (ByFlush text) [FlushCalled text]); eauto.
  - clear Hc Hcall. unfold step, editing in *.
    destruct (eventTime _ <? clock s); [done |].
    destruct (phase s) as [|text wakeAt c|]; try done.
    destruct (now <? wakeAt); [done |]. injection Hstep as <- <-. cbn [phase].
    split; [simpl; lia |]. intros pre post Heq. split_short pre Heq.
  - clear Hc Hcall. unfold step, editing in *.
    destruct (eventTime _ <? clock s); [done |].
    destruct (phase s) as [| |text c]; try done.
    destruct (loop_cases now c
                (MkVars (pending (vars s)) text now (processing (vars s))))
      as [[E _] | [(t' & wk & E & _) | (t' & E & _)]];
      rewrite E in Hstep; injection Hstep as <- <-; cbn [phase];
      (split; [by destruct c; simpl; lia |]);
      intros pre post Heq; destruct c; split_short pre Heq.
  - clear Hc Hcall. unfold step, editing, finish in *.
    destruct (eventTime _ <? clock s); [done |].
    destruct (phase s) as [| |text c]; try done.
    injection Hstep as <- <-. cbn [phase].
    (split; [by destruct c; simpl; lia |]).
    intros pre post Heq; destruct c; split_short pre Heq.
Qed.

Lemma exec_balance es : forall s s' obs,
  stateInv intervalMs s ->
  exec intervalMs s es = Some (s', obs) ->
  editing s' = editing s + inFlightAfter obs
  /\ forall pre post, obs = pre ++ post -> 0 <= editing s + inFlightAfter pre <= 1.
Proof.
  induction es as [|e es IH]; intros s s' obs Hinv; simpl.
  - intros [= <- <-]. split; [simpl; lia |].
    intros pre post Heq. symmetry in Heq. apply app_eq_nil in Heq as [-> _].
    unfold editing. simpl. destruct (phase s); lia.
  - destruct (step intervalMs s e) as [[s1 o1]|] eqn:Es; [| done].
    destruct (exec intervalMs s1 es) as [[s2 o2]|] eqn:Ee; [| done].
    intros [= <- <-].
    destruct (step_spec intervalMs s e s1 o1 Hinv Es) as (Hinv1 & _).
    destruct (step_balance s e s1 o1 Hinv Es) as [Hb1 Hp1].
    destruct (IH s1 s2 o2 Hinv1 Ee) as [Hb2 Hp2].
    split; [rewrite inFlightAfter_app; lia |].
    intros pre post Heq. symmetry in Heq.
    apply List.app_eq_app in Heq as [k [[-> ->] | [-> ->]]].
    + rewrite inFlightAfter_app. specialize (Hp2 k post eq_refl). lia.
    + by apply (Hp1 pre k).
Qed.

(** ** No text is published twice in a row *)

Lemma step_news s e s1 o1 :
  carriesNews s ->
  step intervalMs s e = Some (s1, o1) ->
  carriesNews s1
  /\ lastApplied (vars s1) = shownAfter (lastApplied (vars s)) o1
  /\ forall pre text t post, o1 = pre ++ Publish text t :: post ->
       text <> shownAfter (lastApplied (vars s)) pre.
Proof.
  unfold carriesNews, carried. intros Hnews Hstep.
  assert (Hcall : forall text now c pre0,
    (pre0 = [] \/ exists t, pre0 = [FlushCalled t]) ->
    (let '(v, ph, obs) := run intervalMs now c (setPending text (vars s)) (phase s) in
     Some (MkState v ph now, pre0 ++ obs)) = Some (s1, o1) ->
    (forall text0, match phase s1 with
                   | Idle => None
                   | Sleeping t _ _ | Editing t _ => Some t
                   end = Some text0 -> text0 <> lastApplied (vars s1))
    /\ lastApplied (vars s1) = shownAfter (lastApplied (vars s)) o1
    /\ forall pre text0 t post, o1 = pre ++ Publish text0 t :: post ->
         text0 <> shownAfter (lastApplied (vars s)) pre).
  { intros text now c pre0 Hpre0
      [(Hp & -> & ->) | (Hp & v & ph & obs & Hloop & -> & ->)]%call_cases.
    - cbn [phase vars setPending lastApplied]. split; [exact Hnews |].
      split; [by destruct Hpre0 as [-> | [? ->]], c |].
      intros pre text0 t post Heq.
      destruct Hpre0 as [-> | [? ->]], c; split_short pre Heq.
    - destruct (loop_cases now c
                  (MkVars (Some text) (lastApplied (vars s)) (lastEditAt (vars s)) true))
        as [[E _] | [(t' & wk & E & _ & _ & Hd) | (t' & E & _ & _ & Hd)]];
        rewrite E in Hloop; injection Hloop as <- <- <-;
        cbn [phase vars lastApplied] in *;
        (split; [try done; by intros ? [= <-] |]);
        (split; [by destruct Hpre0 as [-> | [? ->]], c |]);
        intros pre text0 t post Heq;
        destruct Hpre0 as [-> | [? ->]], c; split_short pre Heq. }
  pose proof (step_call s e s1 o1 Hstep) as Hc.
  destruct e as [text now | text now | now | [] now].
  - apply (Hcall text now ByQueue []); auto.
  - apply (Hcall text now (ByFlush text) [FlushCalled text]); eauto.
  - clear Hc Hcall. unfold step in *.
    destruct (eventTime _ <? clock s); [done |].
    destruct (phase s) as [|text wakeAt c|] eqn:Eph; try done.
    destruct (now <? wakeAt); [done |]. injection Hstep as <- <-. cbn [phase vars].
    split; [intros ? [= <-]; by apply Hnews |]. split; [done |].
    intros pre text' t post Heq. split_short pre Heq. by apply Hnews.
  - clear Hc Hcall. unfold step in *.
    destruct (eventTime _ <? clock s); [done |].
    destruct (phase s) as [| |text c] eqn:Eph; try done.
    destruct (loop_cases now c
                (MkVars (pending (vars s)) text now (processing (vars s))))
      as [[E _] | [(t' & wk & E & _ & _ & Hd) | (t' & E & _ & _ & Hd)]];
      rewrite E in Hstep; injection Hstep as <- <-;
      cbn [phase vars lastApplied] in *;
      (split; [try done; by intros ? [= <-] |]);
      (split; [by destruct c |]);
      intros pre text0 t post Heq; destruct c; split_short pre Heq.
  - clear Hc Hcall. unfold step, finish in *.
    destruct (eventTime _ <? clock s); [done |].
    destruct (phase s) as [| |text c] eqn:Eph; try done.
    injection Hstep as <- <-. cbn [phase vars lastApplied].
    split; [done |]. split; [by destruct c |].
    intros pre text' t post Heq; destruct c; split_short pre Heq.
Qed.

Lemma exec_news es : forall s s' obs,
  carriesNews s ->
  exec intervalMs s es = Some (s', obs) ->
  carriesNews s'
  /\ lastApplied (vars s') = shownAfter (lastApplied (vars s)) obs
  /\ forall pre text t post, obs = pre ++ Publish text t :: post ->
       text <> shownAfter (lastApplied (vars s)) pre.
Proof.
  induction es as [|e es IH]; intros s s' obs Hnews; simpl.
  - intros [= <- <-]. split; [done |]. split; [done |].
    intros pre text t post Heq. by destruct pre.
  - destruct (step intervalMs s e) as [[s1 o1]|] eqn:Es; [| done].
    destruct (exec intervalMs s1 es) as [[s2 o2]|] eqn:Ee; [| done].
    intros [= <- <-].
    destruct (step_news s e s1 o1 Hnews Es) as (Hn1 & Hl1 & Hp1).
    destruct (IH s1 s2 o2 Hn1 Ee) as (Hn2 & Hl2 & Hp2).
    split; [done |]. split; [by rewrite shownAfter_app, <- Hl1 |].
    intros pre text t post Heq. symmetry in Heq.
    apply List.app_eq_app in Heq as [k [[-> Hk] | [Ho1 Hk]]].
    + rewrite shownAfter_app, <- Hl1. by apply (Hp2 k text t post).
    + destruct k as [|o k].
      * rewrite app_nil_r in Ho1. cbn [app] in Hk. subst o1 o2.
        rewrite <- Hl1. by apply (Hp2 [] text t post).
      * cbn [app] in Hk. injection Hk as <- ->.
        by apply (Hp1 pre text t k).
Qed.

(** ** The text last submitted *)

Lemma step_upToDate s last e s1 o1 :
  upToDate s last -> noFailure e = true ->
  step intervalMs s e = Some (s1, o1) ->
  upToDate s1 (submittedAfter last [e]).
Proof.
  unfold upToDate, carried. intros Hup Hok Hstep.
  assert (Hcall : forall text now c pre0,
    (let '(v, ph, obs) := run intervalMs now c (setPending text (vars s)) (phase s) in
     Some (MkState v ph now, pre0 ++ obs)) = Some (s1, o1) ->
    match match phase s1 with
          | Idle => None
          | Sleeping t _ _ | Editing t _ => Some t
          end with
    | None =>
        processing (vars s1) = false /\ pending (vars s1) = None
        /\ forall t, Some text = Some t -> t <> "" -> lastApplied (vars s1) = t
    | Some t0 =>
        processing (vars s1) = true
        /\ ((pending (vars s1) = None /\ Some text = Some t0)
            \/ exists t, pending (vars s1) = Some t /\ Some text = Some t)
    end).
  { intros text now c pre0
      [(Hp & -> & ->) | (Hp & v & ph & obs & Hloop & -> & ->)]%call_cases.
    - cbn [phase vars setPending processing pending].
      destruct (phase s); destruct Hup as (Hp' & _); [congruence | |];
        (split; [done |]); right; eauto.
    - destruct (loop_cases now c
                  (MkVars (Some text) (lastApplied (vars s)) (lastEditAt (vars s)) true))
        as [[E Hskip] | [(t' & wk & E & Hpend & _) | (t' & E & Hpend & _)]];
        rewrite E in Hloop; injection Hloop as <- <- <-;
        cbn [phase vars processing pending lastApplied] in *.
      + split_and!; try done. intros t [= <-] Hne.
        destruct Hskip as [? | (t0 & [= <-] & [? | ?])]; done.
      + injection Hpend as <-. split; [done |]. by left.
      + injection Hpend as <-. split; [done |]. by left. }
  pose proof (step_call s e s1 o1 Hstep) as Hc.
  destruct e as [text now | text now | now | [] now]; try done;
    cbn [submittedAfter foldl].
  - by apply (Hcall text now ByQueue []).
  - by apply (Hcall text now (ByFlush text) [FlushCalled text]).
  - clear Hc Hcall. unfold step in *.
    destruct (eventTime _ <? clock s); [done |].
    destruct (phase s) as [|text wakeAt c|]; try done.
    destruct (now <? wakeAt); [done |]. by injection Hstep as <- <-.
  - clear Hc Hcall. unfold step in *.
    destruct (eventTime _ <? clock s); [done |].
    destruct (phase s) as [| |text c]; try done.
    destruct Hup as (Hp & Hlast).
    destruct (loop_cases now c
                (MkVars (pending (vars s)) text now (processing (vars s))))
      as [[E Hskip] | [(t' & wk & E & Hpend & _) | (t' & E & Hpend & _)]];
      rewrite E in Hstep; injection Hstep as <- <-;
      cbn [phase vars processing pending lastApplied] in *.
    + split_and!; try done. intros t -> Hne.
      destruct Hlast as [[_ [= <-]] | (t0 & Hpend & [= <-])]; [done |].
      destruct Hskip as [? | (t1 & Ht1 & [? | ?])]; congruence.
    + split; [done |]. left. split; [done |].
      destruct Hlast as [[? _] | (t0 & ? & ->)]; congruence.
    + split; [done |]. left. split; [done |].
      destruct Hlast as [[? _] | (t0 & ? & ->)]; congruence.
Qed.

Lemma exec_upToDate es : forall s last s' obs,
  upToDate s last -> forallb noFailure es = true ->
  exec intervalMs s es = Some (s', obs) ->
  upToDate s' (submittedAfter last es).
Proof.
  induction es as [|e es IH]; intros s last s' obs Hup Hok; cbn [exec].
  - by intros [= <- <-].
  - cbn [forallb] in Hok. apply andb_prop in Hok as [He Hok].
    destruct (step intervalMs s e) as [[s1 o1]|] eqn:Es; [| done].
    destruct (exec intervalMs s1 es) as [[s2 o2]|] eqn:Ee; [| done].
    intros [= <- <-]. rewrite submittedAfter_cons.
    apply (IH s1 _ s2 o2); [| done | done].
    by apply (step_upToDate s last e s1 o1).
Qed.

End Controller.

(** X16.  At every point of every run, at most one invocation of [edit] is in
    flight: [edit] is not invoked again before the previous invocation has
    settled, and nothing settles that was not invoked. *)
Theorem one_edit_at_a_time
  (intervalMs : Z) (es : list Event) (s : State) (obs pre post : list Obs) :
  exec intervalMs initial es = Some (s, obs) ->
  obs = pre ++ post ->
  0 <= inFlightAfter pre <= 1.
Proof.
  intros Hexec Hsplit.
  destruct (exec_balance intervalMs es initial s obs (initial_inv intervalMs) Hexec)
    as [_ H].
  apply (H pre post Hsplit).
Qed.

Lemma one_edit_at_a_time_witness :
  exec 900 initial [Queue "a" 1000; Queue "ab" 1010; EditSettled true 1100; TimerFired 2000]
  = Some (MkState (MkVars None "a" 1100 true) (Editing "ab" ByQueue) 2000,
          [Publish "a" 1000; Applied "a" 1100] ++ [Publish "ab" 2000])
  /\ 0 <= inFlightAfter [Publish "a" 1000; Applied "a" 1100] <= 1.
Proof.
  split; [reflexivity |].
  apply (one_edit_at_a_time 900
           [Queue "a" 1000; Queue "ab" 1010; EditSettled true 1100; TimerFired 2000]
           (MkState (MkVars None "a" 1100 true) (Editing "ab" ByQueue) 2000)
           ([Publish "a" 1000; Applied "a" 1100] ++ [Publish "ab" 2000])
           [Publish "a" 1000; Applied "a" 1100] [Publish "ab" 2000]); reflexivity.
Defined.

(** X17.  [edit] is never invoked with the text the message already shows: each
    invocation carries a text other than that of the last edit that went
    through before it (the empty text, when none has). *)
Theorem never_publishes_the_text_shown
  (intervalMs : Z) (es : list Event) (s : State) (obs pre post : list Obs)
  (text : string) (t : Z) :
  exec intervalMs initial es = Some (s, obs) ->
  obs = pre ++ Publish text t :: post ->
  text <> shownAfter "" pre.
Proof.
  intros Hexec Hsplit.
  destruct (exec_news intervalMs es initial s obs) as (_ & _ & H); [| done |].
  - intros ? Hc. done.
  - by apply (H pre text t post).
Qed.

Lemma never_publishes_the_text_shown_witness :
  exec 900 initial [Queue "a" 1000; EditSettled true 1100; Queue "a" 1200; Queue "b" 2500]
  = Some (MkState (MkVars None "a" 1100 true) (Editing "b" ByQueue) 2500,
          [Publish "a" 1000; Applied "a" 1100] ++ Publish "b" 2500 :: [])
  /\ "b" <> shownAfter "" [Publish "a" 1000; Applied "a" 1100].
Proof.
  split; [reflexivity |].
  apply (never_publishes_the_text_shown 900
           [Queue "a" 1000; EditSettled true 1100; Queue "a" 1200; Queue "b" 2500]
           (MkState (MkVars None "a" 1100 true) (Editing "b" ByQueue) 2500)
           ([Publish "a" 1000; Applied "a" 1100] ++ Publish "b" 2500 :: [])
           [Publish "a" 1000; Applied "a" 1100] [] "b" 2500); reflexivity.
Defined.

(** X18.  When every edit goes through and the controller has come to rest, the
    message shows the text last handed to [queue] or [flush], unless that
    text is empty: a text submitted while a drain was in progress is picked
    up by that drain, also a text whose [flush] returned before it was
    published. *)
Theorem comes_to_rest_on_the_last_text
  (intervalMs : Z) (es : list Event) (s : State) (obs : list Obs) (text : string) :
  exec intervalMs initial es = Some (s, obs) ->
  forallb noFailure es = true ->
  phase s = Idle ->
  submittedAfter None es = Some text ->
  text <> "" ->
  lastApplied (vars s) = text /\ pending (vars s) = None.
Proof.
  intros Hexec Hok Hidle Hlast Hne.
  assert (Hup : upToDate s (submittedAfter None es)).
  { apply (exec_upToDate intervalMs es initial None s obs); [| done | done].
    split_and!; done. }
  unfold upToDate, carried in Hup. rewrite Hidle in Hup.
  destruct Hup as (_ & Hpend & H). split; [by apply H | done].
Qed.

Lemma comes_to_rest_on_the_last_text_witness :
  exec 900 initial
    [Queue "partial" 1000; Flush "final" 1050; EditSettled true 1100; TimerFired 2000;
     EditSettled true 2100]
  = Some (MkState (MkVars None "final" 2100 false) Idle 2100,
          [Publish "partial" 1000; FlushCalled "final"; FlushReturned "final" true;
           Applied "partial" 1100; Publish "final" 2000; Applied "final" 2100])
  /\ lastApplied (MkVars None "final" 2100 false) = "final".
Proof.
  split; [reflexivity |].
  apply (comes_to_rest_on_the_last_text 900
           [Queue "partial" 1000; Flush "final" 1050; EditSettled true 1100; TimerFired 2000;
            EditSettled true 2100]
           (MkState (MkVars None "final" 2100 false) Idle 2100)
           [Publish "partial" 1000; FlushCalled "final"; FlushReturned "final" true;
            Applied "partial" 1100; Publish "final" 2000; Applied "final" 2100]
           "final"); done.
Defined.

End StreamEditRunsFacts.

(* ===================================================================== *)
(** * Executor: the error stream and the settled promise *)
(* ===================================================================== *)

Module ExecutorRunsFacts.
Import RunJsonlCli ExecutorFacts ExecutorRuns PlatformTextFacts.

(** ** The tail of the error stream *)







Section Executor.

Context {H : Type}.
Variable callbacks : @JsonlCallbacks H.





(** ** One settlement, and silence after a failure *)

Lemma queue_flagged call fn (e : @Exec H) : flagged e -> flagged (queue call fn e).
Proof.
  unfold flagged, queue. intros [Hq Hp].
  destruct (callbackQueue e) as [h|err0] eqn:Eq; [| by rewrite Eq].
  destruct (failed e) eqn:Ef; [by rewrite Eq, Ef |].
  destruct (fn h) as [h'|err]; cbn [callbackQueue failed promise settle]; [| done].
  split; [done | exact Hp].
Qed.

Lemma deliver_flagged line (e : @Exec H) : flagged e -> flagged (deliver callbacks line e).
Proof. unfold deliver. destruct (Js.truthy line); [apply queue_flagged | done]. Qed.

Lemma delivered_flagged lines : forall e : @Exec H,
  flagged e -> flagged (foldl (fun e line => deliver callbacks (Js.trim line) e) e lines).
Proof.
  induction lines as [|l ls IH]; intros e He; [done |].
  simpl. by apply IH, deliver_flagged.
Qed.

Lemma step_flagged (e : @Exec H) ev : flagged e -> flagged (step callbacks e ev).
Proof.
  intros He. destruct ev as [chunk|text|message|exitCode sig]; simpl.
  - rewrite pump_cut. by apply delivered_flagged.
  - destruct (onStderr callbacks); [by apply queue_flagged | exact He].
  - done.
  - destruct (failed e) eqn:Ef; [exact He |].
    pose proof (deliver_flagged (Js.trim (stdoutBuffer e)) e He) as [Hq Hp].
    destruct (callbackQueue (deliver callbacks (Js.trim (stdoutBuffer e)) e))
      as [h|err] eqn:Eq; split; cbn [callbackQueue failed promise settle];
      rewrite ?Eq; try done.
    + destruct (promise (deliver callbacks (Js.trim (stdoutBuffer e)) e)) as [[]|]; done.
    + intros _. by apply (Hq err).
Qed.

Lemma queue_settled call fn (e : @Exec H) r :
  promise e = Some r -> promise (queue call fn e) = Some r.
Proof.
  unfold queue. intros Hp. destruct (callbackQueue e); [| done].
  destruct (failed e); [done |].
  destruct (fn _); cbn [promise settle]; by rewrite Hp.
Qed.

Lemma queue_silent call fn (e : @Exec H) :
  failed e = true ->
  failed (queue call fn e) = true /\ invoked (queue call fn e) = invoked e.
Proof. unfold queue. intros Hf. destruct (callbackQueue e); by rewrite ?Hf. Qed.

Lemma delivered_settled lines : forall (e : @Exec H) r,
  promise e = Some r ->
  promise (foldl (fun e line => deliver callbacks (Js.trim line) e) e lines) = Some r.
Proof.
  induction lines as [|l ls IH]; intros e r He; [done |].
  simpl. apply IH. unfold deliver. destruct (Js.truthy _); [by apply queue_settled | done].
Qed.

Lemma delivered_silent lines : forall e : @Exec H,
  failed e = true ->
  failed (foldl (fun e line => deliver callbacks (Js.trim line) e) e lines) = true
  /\ invoked (foldl (fun e line => deliver callbacks (Js.trim line) e) e lines) = invoked e.
Proof.
  induction lines as [|l ls IH]; intros e He; [done |].
  simpl. unfold deliver at 2 4. destruct (Js.truthy _); [| by apply IH].
  destruct (queue_silent (LineCall (Js.trim l)) (onLine callbacks (Js.trim l)) e He)
    as [Hf Hi].
  destruct (IH _ Hf) as [Hf' Hi']. by rewrite Hf', Hi'.
Qed.

Lemma step_settled (e : @Exec H) ev r :
  promise e = Some r -> promise (step callbacks e ev) = Some r.
Proof.
  intros Hp. destruct ev as [chunk|text|message|exitCode sig]; simpl.
  - rewrite pump_cut. by apply delivered_settled.
  - destruct (onStderr callbacks); [by apply queue_settled | done].
  - by rewrite Hp.
  - destruct (failed e); [done |].
    assert (Hd : promise (deliver callbacks (Js.trim (stdoutBuffer e)) e) = Some r).
    { unfold deliver. destruct (Js.truthy _); [by apply queue_settled | done]. }
    destruct (callbackQueue _); cbn [promise settle]; by rewrite Hd.
Qed.

Lemma step_silent (e : @Exec H) ev :
  failed e = true ->
  failed (step callbacks e ev) = true /\ invoked (step callbacks e ev) = invoked e.
Proof.
  intros Hf. destruct ev as [chunk|text|message|exitCode sig]; simpl.
  - rewrite pump_cut. by apply delivered_silent.
  - destruct (onStderr callbacks) as [f|]; [| done].
    match goal with |- context [queue ?c ?fn ?e1] =>
      by destruct (queue_silent c fn e1 Hf) as [-> ->]
    end.
  - done.
  - by rewrite Hf.
Qed.

End Executor.



(** X20.  Whatever the child does, and whatever it does after that: once the
    promise has settled it keeps its outcome; and once it has been rejected,
    by a failed spawn or by a callback that threw, no callback is invoked
    any more. *)
Theorem settles_once_then_stays_silent
  {H : Type} (callbacks : @JsonlCallbacks H) (h0 : H) (events more : list ChildEvent) :
  (forall r, promise (runJsonlCli callbacks h0 events) = Some r ->
     promise (runJsonlCli callbacks h0 (events ++ more)) = Some r)
  /\ (isRejected (promise (runJsonlCli callbacks h0 events)) = true ->
      invoked (runJsonlCli callbacks h0 (events ++ more))
      = invoked (runJsonlCli callbacks h0 events)).
Proof.
  unfold runJsonlCli. rewrite foldl_app.
  assert (Hflag : flagged (foldl (step callbacks) (start h0) events)).
  { assert (Hgen : forall (e : @Exec H), flagged e ->
                     flagged (foldl (step callbacks) e events)).
    { induction events as [|ev evs IH]; intros e He; [done |].
      simpl. by apply IH, step_flagged. }
    apply Hgen. by split. }
  set (e := foldl (step callbacks) (start h0) events) in *.
  split.
  - intros r Hr. clearbody e. revert e Hr Hflag.
    induction more as [|ev evs IH]; intros e Hr Hflag; [done |].
    simpl. apply IH; [by apply step_settled | by apply step_flagged].
  - intros Hrej. assert (Hf : failed e = true) by (by apply Hflag).
    clearbody e. clear Hrej Hflag. revert e Hf.
    induction more as [|ev evs IH]; intros e Hf; [done |].
    simpl. destruct (step_silent callbacks e ev Hf) as [Hf' Hi].
    by rewrite (IH _ Hf'), Hi.
Qed.

Lemma settles_once_then_stays_silent_witness :
  promise (runJsonlCli (MkCallbacks (fun line (h : list string) => Fulfilled (h ++ [line]))
                                    None) []
             [SpawnError "spawn codex ENOENT"])
  = Some (Rejected "spawn codex ENOENT")
  /\ invoked (runJsonlCli (MkCallbacks (fun line (h : list string) => Fulfilled (h ++ [line]))
                                       None) []
                ([SpawnError "spawn codex ENOENT"]
                   ++ [StdoutData ("late" +:+ nl); Close (Some 0) None]))
     = [].
Proof.
  split; [reflexivity |].
  destruct (settles_once_then_stays_silent
              (MkCallbacks (fun line (h : list string) => Fulfilled (h ++ [line])) None) []
              [SpawnError "spawn codex ENOENT"]
              [StdoutData ("late" +:+ nl); Close (Some 0) None]) as [_ Hsilent].
  rewrite Hsilent; reflexivity.
Defined.

End ExecutorRunsFacts.

(* ===================================================================== *)
(** * The adapters: what [stream] returns and when it fails *)
(* ===================================================================== *)

Module AdapterFacts.
Import Json RunJsonlCli ExecutorFacts CodexFacts.

(** ** Chains of line handlers *)

Lemma feed_rejected {H : Type} (cbs : @JsonlCallbacks H) calls err :
  feed cbs calls (Rejected err) = Rejected err.
Proof. by destruct calls. Qed.

Lemma feed_lines_only {H : Type} (cbs : @JsonlCallbacks H) calls q :
  onStderr cbs = None ->
  feed cbs calls q = feed cbs (LineCall <$> linesOf calls) q.
Proof.
  intros Hno. revert q. induction calls as [|[line|text] calls IH]; intros q; [done | |].
  - simpl. destruct q; [apply IH | done].
  - simpl. rewrite Hno. destruct q as [h|err]; [apply IH |]. by rewrite feed_rejected.
Qed.

(** Once the child has closed, the chain is what the line handler makes of
    the lines handed over, and those are the first few of the lines of the
    output, all of them when the chain is fulfilled; the promise carries the
    error of the chain, or the exit code. *)
Lemma closed_run {H : Type} (cbs : @JsonlCallbacks H) (h0 : H) events exitCode sig :
  onStderr cbs = None ->
  forallb isData events = true ->
  match feed cbs (LineCall <$> trimmedLines (stdoutOf events)) (Fulfilled h0) with
  | Fulfilled h =>
      callbackQueue (runJsonlCli cbs h0 (events ++ [Close exitCode sig])) = Fulfilled h
      /\ exists tail,
           promise (runJsonlCli cbs h0 (events ++ [Close exitCode sig]))
           = Some (Fulfilled (MkResult (default 1 exitCode) sig tail))
  | Rejected err =>
      callbackQueue (runJsonlCli cbs h0 (events ++ [Close exitCode sig])) = Rejected err
      /\ promise (runJsonlCli cbs h0 (events ++ [Close exitCode sig]))
         = Some (Rejected err)
  end.
Proof.
  intros Hno Hdata.
  pose proof (closed_tracking cbs h0 events exitCode sig Hdata) as Hclosed.
  pose proof (run_chained cbs h0 (events ++ [Close exitCode sig])) as Hchain.
  unfold chained in Hchain. rewrite (feed_lines_only cbs _ _ Hno) in Hchain.
  destruct (callbackQueue (runJsonlCli cbs h0 (events ++ [Close exitCode sig])))
    as [h|err] eqn:Eq.
  - destruct Hclosed as [Hall Hp]. rewrite Hall in Hchain. by rewrite <- Hchain.
  - destruct Hclosed as [[k Hk] Hp]. rewrite Hk, fmap_app, feed_app, <- Hchain.
    by rewrite feed_rejected.
Qed.

(** ** The Codex adapter *)

Section Codex.
Import CodexCli CodexLines.

Context {CB : Type}.
Variable JSON_parse : string -> option json.
Variable toDisplay : json -> string.
Variable callbacks : @ProviderStreamCallbacks CB.

Lemma codex_conclude_fulfilled result (l : @Local CB) r :
  conclude result l = Fulfilled r -> r = Js.trim (reply l) /\ r <> "".
Proof.
  unfold conclude.
  destruct (negb (code result =? 0)).
  - destruct (Js.truthy (Js.trim (reply l))) eqn:Et; cbn [andb]; [| done].
    destruct (negb (Js.truthy (cliErrorMessage l))); [| done].
    intros [= <-]. split; [done |]. by apply JsFacts.truthy_true.
  - destruct (Js.truthy (Js.trim (reply l))) eqn:Et; cbn [negb]; [| done].
    intros [= <-]. split; [done |]. by apply JsFacts.truthy_true.
Qed.

Lemma extract_records m :
  Js.truthy (Js.trim m) = true ->
  exists msg, extractCodexErrorMessage JSON_parse (Some (JStr m)) = Fulfilled msg
              /\ Js.truthy msg = true.
Proof.
  intros Ht. unfold extractCodexErrorMessage. cbn [optTrim]. rewrite Ht. cbn [negb].
  eexists. split; [reflexivity |].
  assert (Hbody : forall parsed,
    Js.truthy
      match optTrim (get parsed "detail") with
      | Rejected _ => Js.trim m
      | Fulfilled d =>
          if Js.truthy (default "" d) then default "" d
          else
            match optTrim (get parsed "message") with
            | Rejected _ => Js.trim m
            | Fulfilled m0 => if Js.truthy (default "" m0) then default "" m0 else Js.trim m
            end
      end = true).
  { intros parsed. destruct (optTrim (get parsed "detail")) as [d|]; [| done].
    destruct (Js.truthy (default "" d)) eqn:Ed; [done |].
    destruct (optTrim (get parsed "message")) as [m0|]; [| done].
    by destruct (Js.truthy (default "" m0)) eqn:Em. }
  destruct (JSON_parse (Js.trim m)) as [[]|]; try done; apply Hbody.
Qed.

Lemma handleLine_keeps_error line l l' :
  handleLine JSON_parse toDisplay callbacks line l = Fulfilled l' ->
  Js.truthy (cliErrorMessage l) = true ->
  Js.truthy (cliErrorMessage l') = true.
Proof.
  unfold handleLine, recordError, emitText. intros Hl Ht.
  repeat case_match; simplify_eq; cbn [cliErrorMessage]; done.
Qed.

Lemma handleLine_records line l l' :
  structuredError JSON_parse line = true ->
  handleLine JSON_parse toDisplay callbacks line l = Fulfilled l' ->
  Js.truthy (cliErrorMessage l') = true.
Proof.
  unfold structuredError, handleLine.
  destruct (JSON_parse line) as [[| | | | |fields]|]; try done.
  set (event := JObj fields).
  assert (Hexcl : forall t u, String.eqb t u = false ->
            typeIs event t = true -> typeIs event u = false).
  { intros t u Htu. unfold typeIs. destruct (get event "type") as [[]|]; try done.
    destruct (String.eqb_spec s t) as [-> | ?]; [| done].
    intros _. by rewrite Htu. }
  destruct (typeIs event "error") eqn:Eerr.
  - rewrite (Hexcl "error" "item.started" eq_refl Eerr).
    destruct (get event "message") as [[| | |m| |]|]; try done.
    intros Ht. destruct (extract_records m Ht) as (msg & Hmsg & Htm).
    unfold recordError. rewrite Hmsg, Htm. by intros [= <-].
  - destruct (typeIs event "turn.failed") eqn:Efail; [| done].
    rewrite (Hexcl "turn.failed" "item.started" eq_refl Efail).
    destruct (optGet (get event "error") "message") as [[| | |m| |]|]; try done.
    intros Ht. destruct (extract_records m Ht) as (msg & Hmsg & Htm).
    unfold recordError. rewrite Hmsg, Htm. by intros [= <-].
Qed.

Lemma feed_keeps_error lines : forall l l',
  feed (lineCallbacks JSON_parse toDisplay callbacks) (LineCall <$> lines) (Fulfilled l)
  = Fulfilled l' ->
  Js.truthy (cliErrorMessage l) = true
  \/ (exists line, line ∈ lines /\ structuredError JSON_parse line = true) ->
  Js.truthy (cliErrorMessage l') = true.
Proof.
  induction lines as [|line lines IH]; intros l l'.
  - intros [= <-] [Ht | (line & Hin & _)]; [done | by apply elem_of_nil in Hin].
  - rewrite fmap_cons. cbn [feed invoke lineCallbacks onLine].
    destruct (handleLine JSON_parse toDisplay callbacks line l) as [l1|err] eqn:E1;
      [| by rewrite feed_rejected].
    intros Hfeed Hor. apply (IH l1 l' Hfeed).
    destruct Hor as [Ht | (line' & [-> | Hin]%elem_of_cons & Hs)].
    + left. by eapply handleLine_keeps_error.
    + left. by eapply handleLine_records.
    + right. eauto.
Qed.

End Codex.

(** X21.  Whatever the child does and whatever the callbacks do, a reply the
    Codex adapter returns is never empty and carries no white space at
    either end. *)
Theorem codex_reply_is_trimmed_text
  {CB : Type} (JSON_parse : string -> option json) (toDisplay : json -> string)
  (callbacks : @CodexCli.ProviderStreamCallbacks CB) (cb0 : CB)
  (events : list ChildEvent) (r : string) :
  CodexCli.stream JSON_parse toDisplay callbacks cb0 events = Some (Fulfilled r) ->
  r <> "" /\ Js.trim r = r.
Proof.
  unfold CodexCli.stream.
  destruct (promise _) as [[result|err]|]; try done.
  destruct (callbackQueue _) as [l|err]; [| done].
  intros [= Hc]. apply codex_conclude_fulfilled in Hc as [-> Hne].
  split; [done | apply JsFacts.trim_idem].
Qed.

Lemma codex_reply_is_trimmed_text_witness :
  CodexCli.stream CodexCli.sampleParse (fun _ => "") CodexCli.recorder []
    [StdoutData (CodexCli.finalLine +:+ nl); Close (Some 0) None]
  = Some (Fulfilled "done")
  /\ "done" <> "" /\ Js.trim "done" = "done".
Proof.
  split; [vm_compute; reflexivity |].
  apply (codex_reply_is_trimmed_text CodexCli.sampleParse (fun _ => "") CodexCli.recorder []
           [StdoutData (CodexCli.finalLine +:+ nl); Close (Some 0) None]).
  vm_compute. reflexivity.
Defined.

(** X22.  Once a structured error with a message has been read, a non-zero exit
    (or an end by a signal) always fails the Codex stream, whatever else the
    child wrote and whatever reply text it produced before or after: the
    tolerance for later exit codes never applies. *)
Theorem recorded_error_fails_the_exit
  {CB : Type} (JSON_parse : string -> option json) (toDisplay : json -> string)
  (callbacks : @CodexCli.ProviderStreamCallbacks CB) (cb0 : CB)
  (events : list ChildEvent) (exitCode : option Z) (sig : option string) (line : string) :
  forallb isData events = true ->
  line ∈ trimmedLines (stdoutOf events) ->
  CodexLines.structuredError JSON_parse line = true ->
  default 1 exitCode <> 0 ->
  exists msg,
    CodexCli.stream JSON_parse toDisplay callbacks cb0 (events ++ [Close exitCode sig])
    = Some (Rejected msg).
Proof.
  intros Hdata Hin Herr Hcode. unfold CodexCli.stream.
  pose proof (closed_run (CodexCli.lineCallbacks JSON_parse toDisplay callbacks)
                (CodexCli.MkLocal "" "" cb0) events exitCode sig eq_refl Hdata) as Hrun.
  change (MkCallbacks (CodexCli.handleLine JSON_parse toDisplay callbacks) None)
    with (CodexCli.lineCallbacks JSON_parse toDisplay callbacks).
  destruct (feed _ _ _) as [l|err] eqn:Efeed.
  - destruct Hrun as [-> [tail ->]].
    apply feed_keeps_error in Efeed; [| right; eauto].
    unfold CodexCli.conclude. cbn [code].
    destruct (Z.eqb_spec (default 1 exitCode) 0) as [|_]; [done |]. cbn [negb].
    rewrite Efeed. cbn [negb]. rewrite andb_false_r. eauto.
  - destruct Hrun as [-> ->]. eauto.
Qed.

Lemma recorded_error_fails_the_exit_witness :
  forallb isData [StdoutData (CodexCli.errorLine +:+ nl);
                  StdoutData (CodexCli.finalLine +:+ nl)] = true
  /\ CodexCli.errorLine ∈ trimmedLines (stdoutOf [StdoutData (CodexCli.errorLine +:+ nl);
                                                   StdoutData (CodexCli.finalLine +:+ nl)])
  /\ CodexLines.structuredError CodexCli.sampleParse CodexCli.errorLine = true
  /\ default 1 (Some 2) <> 0
  /\ exists msg,
       CodexCli.stream CodexCli.sampleParse (fun _ => "") CodexCli.recorder []
         ([StdoutData (CodexCli.errorLine +:+ nl); StdoutData (CodexCli.finalLine +:+ nl)]
            ++ [Close (Some 2) None])
       = Some (Rejected msg).
Proof.
  assert (Hin : CodexCli.errorLine
                ∈ trimmedLines (stdoutOf [StdoutData (CodexCli.errorLine +:+ nl);
                                          StdoutData (CodexCli.finalLine +:+ nl)])).
  { vm_compute. apply elem_of_cons. by left. }
  split; [reflexivity |]. split; [exact Hin |]. split; [reflexivity |].
  split; [done |].
  apply (recorded_error_fails_the_exit CodexCli.sampleParse (fun _ => "") CodexCli.recorder
           [] _ (Some 2) None CodexCli.errorLine); [reflexivity | exact Hin | reflexivity | done].
Defined.

(** ** The Claude adapter *)

Section Claude.
Import CodexCli ClaudeCli.

Context {CB : Type}.
Variable JSON_parse : string -> option json.
Variable toDisplay : json -> string.
Variable callbacks : @ProviderStreamCallbacks CB.

Lemma claude_conclude_fulfilled result (l : @Local CB) r :
  conclude result l = Fulfilled r ->
  code result = 0
  /\ r = Js.trim (if Js.truthy (finalResult l) then finalResult l else reply l)
  /\ r <> "".
Proof.
  unfold conclude. destruct (Z.eqb_spec (code result) 0) as [Hc|]; [| done]. cbn [negb].
  destruct (Js.truthy (Js.trim _)) eqn:Et; cbn [negb]; [| done].
  intros [= <-]. split_and!; try done. by apply JsFacts.truthy_true.
Qed.

Lemma handleLine_errorResult line (l : @Local CB) msg :
  errorResult JSON_parse toDisplay line = Some msg ->
  handleLine JSON_parse toDisplay callbacks line l = Rejected msg.
Proof.
  unfold errorResult, handleLine.
  destruct (JSON_parse line) as [[| | | | |fields]|]; try done.
  destruct (typeIs (JObj fields) "result"); [| done]. cbn [andb].
  destruct (truthy (get (JObj fields) "is_error")); [| done].
  by intros [= <-].
Qed.

End Claude.

(** X23.  The Claude adapter is strict: it returns a reply only when the child
    exited with code 0; the reply is then the final result when there is
    one and the streamed text otherwise, trimmed, and is never empty.  Any
    other exit code, or an end by a signal, fails the stream whatever text
    was produced. *)
Theorem claude_returns_text_on_exit_zero_only
  {CB : Type} (JSON_parse : string -> option json) (toDisplay : json -> string)
  (callbacks : @CodexCli.ProviderStreamCallbacks CB) (cb0 : CB)
  (events : list ChildEvent) (exitCode : option Z) (sig : option string) (r : string) :
  forallb isData events = true ->
  ClaudeCli.stream JSON_parse toDisplay callbacks cb0 (events ++ [Close exitCode sig])
  = Some (Fulfilled r) ->
  exitCode = Some 0 /\ r <> "" /\ Js.trim r = r
  /\ exists l,
       feed (ClaudeCli.lineCallbacks JSON_parse toDisplay callbacks)
            (LineCall <$> trimmedLines (stdoutOf events))
            (Fulfilled (ClaudeCli.MkLocal "" "" cb0)) = Fulfilled l
       /\ r = Js.trim (if Js.truthy (ClaudeCli.finalResult l)
                       then ClaudeCli.finalResult l else ClaudeCli.reply l).
Proof.
  intros Hdata. unfold ClaudeCli.stream.
  pose proof (closed_run (ClaudeCli.lineCallbacks JSON_parse toDisplay callbacks)
                (ClaudeCli.MkLocal "" "" cb0) events exitCode sig eq_refl Hdata) as Hrun.
  destruct (feed _ _ _) as [l|err] eqn:Efeed.
  - destruct Hrun as [-> [tail ->]]. intros [= Hc].
    apply claude_conclude_fulfilled in Hc as (Hcode & -> & Hne). cbn [code] in Hcode.
    split_and!; try done.
    + destruct exitCode as [c|]; simpl in Hcode; congruence.
    + apply JsFacts.trim_idem.
    + eauto.
  - by destruct Hrun as [-> ->].
Qed.

Lemma claude_returns_text_on_exit_zero_only_witness :
  forallb isData [StdoutData (ClaudeCli.assistantLine +:+ nl);
                  StdoutData (ClaudeCli.resultLine +:+ nl)] = true
  /\ ClaudeCli.stream ClaudeCli.sampleParse (fun _ => "") CodexCli.recorder []
       ([StdoutData (ClaudeCli.assistantLine +:+ nl);
         StdoutData (ClaudeCli.resultLine +:+ nl)] ++ [Close (Some 0) None])
     = Some (Fulfilled "hi there")
  /\ "hi there" <> "" /\ Js.trim "hi there" = "hi there".
Proof.
  assert (Hrun : ClaudeCli.stream ClaudeCli.sampleParse (fun _ => "") CodexCli.recorder []
                   ([StdoutData (ClaudeCli.assistantLine +:+ nl);
                     StdoutData (ClaudeCli.resultLine +:+ nl)] ++ [Close (Some 0) None])
                 = Some (Fulfilled "hi there")) by (vm_compute; reflexivity).
  split; [reflexivity |]. split; [exact Hrun |].
  destruct (claude_returns_text_on_exit_zero_only ClaudeCli.sampleParse (fun _ => "")
              CodexCli.recorder []
              [StdoutData (ClaudeCli.assistantLine +:+ nl);
               StdoutData (ClaudeCli.resultLine +:+ nl)]
              (Some 0) None "hi there" eq_refl Hrun)
    as (_ & Hne & Htrim & _).
  by split.
Defined.

(** X24.  A line that is a result event with [is_error] set fails the Claude
    stream with the message of that event (or "claude CLI error" when it
    carries none), provided the line handler got through the lines before
    it: whatever the exit code, also 0, and whatever follows. *)
Theorem claude_error_result_fails_the_stream
  {CB : Type} (JSON_parse : string -> option json) (toDisplay : json -> string)
  (callbacks : @CodexCli.ProviderStreamCallbacks CB) (cb0 : CB)
  (events : list ChildEvent) (exitCode : option Z) (sig : option string)
  (pre post : list string) (line msg : string) (l1 : ClaudeCli.Local) :
  forallb isData events = true ->
  trimmedLines (stdoutOf events) = pre ++ [line] ++ post ->
  feed (ClaudeCli.lineCallbacks JSON_parse toDisplay callbacks) (LineCall <$> pre)
       (Fulfilled (ClaudeCli.MkLocal "" "" cb0)) = Fulfilled l1 ->
  ClaudeCli.errorResult JSON_parse toDisplay line = Some msg ->
  ClaudeCli.stream JSON_parse toDisplay callbacks cb0 (events ++ [Close exitCode sig])
  = Some (Rejected msg).
Proof.
  intros Hdata Hlines Hpre Herr. unfold ClaudeCli.stream.
  pose proof (closed_run (ClaudeCli.lineCallbacks JSON_parse toDisplay callbacks)
                (ClaudeCli.MkLocal "" "" cb0) events exitCode sig eq_refl Hdata) as Hrun.
  rewrite Hlines, !fmap_app, !feed_app, Hpre in Hrun.
  cbn [fmap list_fmap feed invoke ClaudeCli.lineCallbacks onLine] in Hrun.
  rewrite (handleLine_errorResult JSON_parse toDisplay callbacks line l1 msg Herr) in Hrun.
  rewrite feed_rejected in Hrun. by destruct Hrun as [-> ->].
Qed.

Lemma claude_error_result_fails_the_stream_witness :
  forallb isData [StdoutData (ClaudeCli.assistantLine +:+ nl);
                  StdoutData (ClaudeCli.errorResultLine +:+ nl)] = true
  /\ trimmedLines (stdoutOf [StdoutData (ClaudeCli.assistantLine +:+ nl);
                             StdoutData (ClaudeCli.errorResultLine +:+ nl)])
     = [ClaudeCli.assistantLine] ++ [ClaudeCli.errorResultLine] ++ []
  /\ ClaudeCli.errorResult ClaudeCli.sampleParse (fun _ => "") ClaudeCli.errorResultLine
     = Some "overloaded"
  /\ ClaudeCli.stream ClaudeCli.sampleParse (fun _ => "") CodexCli.recorder []
       ([StdoutData (ClaudeCli.assistantLine +:+ nl);
         StdoutData (ClaudeCli.errorResultLine +:+ nl)] ++ [Close (Some 0) None])
     = Some (Rejected "overloaded").
Proof.
  split; [reflexivity |]. split; [vm_compute; reflexivity |].
  split; [vm_compute; reflexivity |].
  apply (claude_error_result_fails_the_stream ClaudeCli.sampleParse (fun _ => "")
           CodexCli.recorder [] _ (Some 0) None [ClaudeCli.assistantLine] []
           ClaudeCli.errorResultLine "overloaded" (ClaudeCli.MkLocal "hi" "" ["hi"]));
    vm_compute; reflexivity.
Defined.

End AdapterFacts.

(* ===================================================================== *)
(** * From the conversation to the command line *)
(* ===================================================================== *)

Module CliInvocationFacts.
Import JsText SessionStore StoreOps StoreFacts StoreOpsFacts ChatService ChatCommands.
Import ChatCommandsFacts ExecutorFacts CliInvocation.

Lemma join_snoc sep l x :
  join sep (l ++ [x])
  = match l with
    | [] => x
    | _ :: _ => join sep l +:+ sep +:+ x
    end.
Proof.
  induction l as [|a l IH]; [reflexivity |].
  cbn [app join]. rewrite IH. destruct l as [|b l]; [reflexivity |].
  cbn [app]. by rewrite !append_assoc.
Qed.

Lemma renderCliPrompt_snoc earlier m :
  renderCliPrompt (earlier ++ [m])
  = renderedBefore earlier +:+ renderMessage m +:+ lf +:+ lf +:+ "ASSISTANT:" +:+ lf.
Proof.
  unfold renderCliPrompt, renderedBefore. rewrite fmap_app.
  change (renderMessage <$> [m]) with [renderMessage m]. rewrite join_snoc.
  destruct earlier as [|a l]; [reflexivity |].
  change (renderMessage <$> a :: l) with (renderMessage a :: (renderMessage <$> l)).
  by rewrite !append_assoc.
Qed.

(** X25.  The prompt written to the CLI for a request ends with the new user
    text, trimmed, under the USER label, followed by the cue for the
    assistant; before it come the system prompt and the history of the
    conversation, one labelled message after the other. *)
Theorem prompt_ends_with_the_user_text
  (svc : Service) (k u : string) (io : PersistIO) (w : World) (f : InFlight) (w' : World) :
  askStreamBegin svc k u io w = (Fulfilled f, w') ->
  renderCliPrompt (prompt f)
  = renderedBefore (systemMessages (systemPrompt svc) ++ historyOf k w)
    +:+ "USER:" +:+ lf +:+ Js.trim u +:+ lf +:+ lf +:+ "ASSISTANT:" +:+ lf.
Proof.
  intros (_ & _ & _ & -> & _)%askStreamBegin_session.
  rewrite app_assoc, renderCliPrompt_snoc, historyOf_sessionOf.
  unfold renderMessage. cbn [role content roleLabel]. by rewrite !append_assoc.
Qed.

Lemma prompt_ends_with_the_user_text_witness :
  exists f w',
    askStreamBegin (MkService [(codex, fun _ _ => Fulfilled "ok")] (Some "be brief"))
                   "telegram:1" "  hello " (MkIO "now" true) (create codex 20 None NoFile)
    = (Fulfilled f, w')
    /\ renderCliPrompt (prompt f)
       = "SYSTEM:" +:+ lf +:+ "be brief" +:+ lf +:+ lf
         +:+ "USER:" +:+ lf +:+ "hello" +:+ lf +:+ lf +:+ "ASSISTANT:" +:+ lf.
Proof.
  do 2 eexists. split; [reflexivity |].
  rewrite (prompt_ends_with_the_user_text
             (MkService [(codex, fun _ _ => Fulfilled "ok")] (Some "be brief"))
             "telegram:1" "  hello " (MkIO "now" true) (create codex 20 None NoFile)
             _ _ eq_refl).
  vm_compute. reflexivity.
Defined.

(** X26.  A model chosen for a conversation reaches the command line.  After
    [setModel(key, provider, model)], a request of that conversation served
    by that provider starts the CLI with [--model] and the trimmed model
    when the model is not blank; and with the model the provider was
    configured with, if any, when the override was cleared. *)
Theorem model_override_reaches_the_cli
  (svc : Service) (k u : string) (p : ProviderName) (chosen : option string)
  (io0 io : PersistIO) (w : World) (f : InFlight) (w' : World) (self : CliProvider) :
  askStreamBegin svc k u io (SessionStore.setModel k p chosen io0 w) = (Fulfilled f, w') ->
  providerName f = p ->
  effectiveModel self (Some (options f))
  = (if isBlank chosen then configuredModel self else Js.trim <$> chosen)
  /\ (forall m, chosen = Some m -> Js.trim m <> "" ->
        (exists pre post,
           codexArgs self (Some (options f)) = pre ++ ["--model"; Js.trim m] ++ post)
        /\ exists pre, claudeArgs self (Some (options f)) = pre ++ ["--model"; Js.trim m]).
Proof.
  intros (_ & _ & _ & _ & Hm & _)%askStreamBegin_session Hp. rewrite Hp in Hm.
  unfold SessionStore.setModel in Hm. rewrite sessionOf_mutate in Hm.
  cbn [modelOverrides] in Hm.
  assert (Hmodel : model (options f) = if isBlank chosen then None else Js.trim <$> chosen).
  { rewrite Hm. unfold setOverride. destruct chosen as [m|]; cbn [isBlank].
    - destruct (negb (Js.truthy (Js.trim m)));
        by rewrite ?lookup_delete_eq, ?lookup_insert_eq.
    - by rewrite lookup_delete_eq. }
  assert (Heff : effectiveModel self (Some (options f))
                 = (if isBlank chosen then configuredModel self else Js.trim <$> chosen)).
  { unfold effectiveModel. rewrite Hmodel. destruct chosen as [m|]; cbn [isBlank]; [| done].
    destruct (Js.truthy (Js.trim m)) eqn:Et; cbn [negb fmap option_fmap option_map]; [| done].
    by rewrite JsFacts.trim_idem, Et. }
  split; [exact Heff |].
  intros m -> Hne. apply JsFacts.truthy_true in Hne.
  unfold codexArgs, claudeArgs. rewrite Heff. cbn [isBlank]. rewrite Hne.
  cbn [negb fmap option_fmap option_map whenSet]. rewrite Hne. split.
  - match goal with
    | |- exists pre post, ?a ++ ?b ++ _ ++ ?rest = _ => exists (a ++ b), rest
    end.
    by rewrite <- app_assoc.
  - match goal with
    | |- exists pre, ?a ++ ?b ++ _ = _ => exists (a ++ b)
    end.
    by rewrite <- app_assoc.
Qed.

Lemma model_override_reaches_the_cli_witness :
  exists f w',
    askStreamBegin (MkService [(codex, fun _ _ => Fulfilled "ok")] None)
                   "telegram:1" "hello" (MkIO "t2" true)
                   (SessionStore.setModel "telegram:1" codex (Some " o3 ") (MkIO "t1" true)
                      (create codex 20 None NoFile))
    = (Fulfilled f, w')
    /\ providerName f = codex
    /\ codexArgs (MkCliProvider "codex" "/tmp" (Some "gpt-5") true) (Some (options f))
       = ["exec"; "--json"; "--skip-git-repo-check";
          "--dangerously-bypass-approvals-and-sandbox"; "--model"; "o3"; "-"].
Proof.
  do 2 eexists. split; [reflexivity |]. split; [reflexivity |].
  destruct (model_override_reaches_the_cli
              (MkService [(codex, fun _ _ => Fulfilled "ok")] None)
              "telegram:1" "hello" codex (Some " o3 ") (MkIO "t1" true) (MkIO "t2" true)
              (create codex 20 None NoFile) _ _
              (MkCliProvider "codex" "/tmp" (Some "gpt-5") true) eq_refl eq_refl)
    as [Heff _].
  unfold codexArgs. rewrite Heff. vm_compute. reflexivity.
Defined.

End CliInvocationFacts.

(* ===================================================================== *)
(** * Configuration: the limits the program runs with *)
(* ===================================================================== *)

Module ConfigFacts.
Import JsText SessionStore StoreFacts Config.

Lemma parseBounded_range value fallback lo hi message n :
  parseBounded value fallback lo hi message = Fulfilled n -> lo <= n <= hi.
Proof.
  unfold parseBounded. destruct (parseInt10 _) as [parsed|]; [| done].
  destruct (Z.ltb_spec parsed lo); [done |].
  destruct (Z.gtb_spec parsed hi); [done |].
  intros [= <-]. lia.
Qed.

Lemma normalizeString_Some value s :
  normalizeString value = Some s -> s <> "" /\ Js.trim s = s.
Proof.
  unfold normalizeString. destruct value as [v|]; [| done].
  destruct (Js.truthy (Js.trim v)) eqn:Et; [| done].
  intros [= <-]. split; [by apply JsFacts.truthy_true | apply JsFacts.trim_idem].
Qed.

Lemma normalizeString_default value fallback :
  fallback <> "" -> default fallback (normalizeString value) <> "".
Proof.
  intros Hf. destruct (normalizeString value) as [s|] eqn:E; [| done].
  by apply normalizeString_Some in E as [? _].
Qed.

(** X27.  Whenever [loadConfig] returns, the history limit lies between 2 and
    200 and the edit interval between 200 and 10000 ms, the bot token is
    trimmed and not empty, a configured system prompt is not blank, and
    neither CLI command is empty.  So a store created from the
    configuration, as [main] does, never holds a history of more than 200
    messages, whatever file it starts from. *)
Theorem configured_limits_hold_at_run_time
  (env : string -> option string) (cwd : string) (isAbsolute : string -> bool)
  (join resolve : string -> string -> string) (cfg : AppConfig) :
  loadConfig env cwd isAbsolute join resolve = Fulfilled cfg ->
  2 <= maxHistory cfg <= 200
  /\ 200 <= streamEditIntervalMs cfg <= 10000
  /\ telegramBotToken cfg <> "" /\ Js.trim (telegramBotToken cfg) = telegramBotToken cfg
  /\ systemPrompt cfg <> Some ""
  /\ command (codex cfg) <> "" /\ command (claude cfg) <> ""
  /\ forall d ops k,
       Z.of_nat (length (historyOf k
                   (runOps ops (create (defaultProvider cfg) (maxHistory cfg)
                                       (Some (sessionStorePath cfg)) d)))) <= 200.
Proof.
  unfold loadConfig.
  destruct (normalizeString (env "TELEGRAM_BOT_TOKEN")) as [token|] eqn:Et; [| done].
  destruct (parseMaxHistory (env "MAX_HISTORY")) as [mh|] eqn:Em; [| done].
  destruct (parseEditInterval (env "STREAM_EDIT_INTERVAL_MS")) as [ms|] eqn:Ei; [| done].
  intros [= <-].
  cbn [maxHistory streamEditIntervalMs telegramBotToken systemPrompt codex claude command
       defaultProvider sessionStorePath].
  apply parseBounded_range in Em, Ei.
  apply normalizeString_Some in Et as [Hne Htrim].
  split_and!; try done; try lia.
  - destruct (normalizeString (env "SYSTEM_PROMPT")) as [sp|] eqn:Es; [| done].
    apply normalizeString_Some in Es as [? _]. congruence.
  - by apply normalizeString_default.
  - by apply normalizeString_default.
  - intros d ops k.
    pose proof (bounded_everywhere (normalizeProvider (env "DEFAULT_PROVIDER")) mh
                  (Some (parseSessionStorePath env cwd isAbsolute join resolve
                           (env "SESSION_STORE_PATH"))) d ops k) as Hb.
    unfold bounded in Hb. lia.
Qed.

Lemma configured_limits_hold_at_run_time_witness :
  exists cfg,
    loadConfig sampleEnv "/srv/bot" (fun _ => false) (fun a b => a +:+ "/" +:+ b)
               (fun a b => a +:+ "/" +:+ b) = Fulfilled cfg
    /\ maxHistory cfg = 12 /\ telegramBotToken cfg = "123:abc" /\ systemPrompt cfg = None
    /\ 2 <= maxHistory cfg <= 200.
Proof.
  eexists. split; [vm_compute; reflexivity |].
  split; [reflexivity |]. split; [reflexivity |]. split; [reflexivity |].
  eapply (configured_limits_hold_at_run_time sampleEnv "/srv/bot" (fun _ => false)
            (fun a b => a +:+ "/" +:+ b) (fun a b => a +:+ "/" +:+ b)).
  vm_compute. reflexivity.
Defined.

End ConfigFacts.

(* ===================================================================== *)
(** * Telegram bot: the owner lock and the prompt *)
(* ===================================================================== *)

Module BotFacts.
Import JsText TelegramBot CliInvocationFacts ExecutorFacts.

(** ** Decimal notation holds no white space *)

Lemma trimStartL_solid l :
  Forall (fun c => Js.isWhiteSpace c = false) l -> Js.trimStartL l = l.
Proof. destruct 1 as [|c l Hc _]; [reflexivity |]. simpl. by rewrite Hc. Qed.

Lemma trim_solid s : solid s -> Js.trim s = s.
Proof.
  unfold solid, Js.trim, Js.trimL. intros H.
  rewrite (trimStartL_solid _ H).
  rewrite trimStartL_solid by (by apply Forall_rev).
  by rewrite rev_involutive, string_of_list_ascii_of_string.
Qed.

Lemma pretty_N_char_solid x : Js.isWhiteSpace (pretty_N_char x) = false.
Proof. unfold pretty_N_char. by repeat case_match. Qed.

Lemma pretty_N_go_solid x s : solid s -> solid (pretty_N_go x s).
Proof.
  revert s. induction (N.lt_wf_0 x) as [x _ IH]; intros s Hs.
  assert (x = 0 \/ 0 < x)%N as [-> | Hx] by lia.
  - by rewrite pretty_N_go_0.
  - rewrite pretty_N_go_step by done. apply IH; [by apply N.div_lt |].
    constructor; [apply pretty_N_char_solid | exact Hs].
Qed.

Lemma pretty_N_go_truthy x s : Js.truthy s = true -> Js.truthy (pretty_N_go x s) = true.
Proof.
  revert s. induction (N.lt_wf_0 x) as [x _ IH]; intros s Hs.
  assert (x = 0 \/ 0 < x)%N as [-> | Hx] by lia.
  - by rewrite pretty_N_go_0.
  - rewrite pretty_N_go_step by done. apply IH; [by apply N.div_lt | done].
Qed.

Lemma pretty_N_solid (x : N) : solid (pretty x) /\ Js.truthy (pretty x) = true.
Proof.
  unfold pretty, pretty_N. destruct (decide (x = 0%N)) as [-> | Hx].
  - split; [by repeat constructor | done].
  - split; [apply pretty_N_go_solid; constructor |].
    rewrite pretty_N_go_step by lia. by apply pretty_N_go_truthy.
Qed.

Lemma pretty_Z_solid (z : Z) : solid (pretty z) /\ Js.truthy (pretty z) = true.
Proof.
  destruct z as [|p|p].
  - split; [by repeat constructor | done].
  - apply (pretty_N_solid (Npos p)).
  - split; [| done].
    change (pretty (Z.neg p)) with ("-" +:+ pretty (Npos p)).
    constructor; [done | apply (pretty_N_solid (Npos p))].
Qed.

Lemma trim_pretty (z : Z) : Js.trim (pretty z) = pretty z.
Proof. apply trim_solid, pretty_Z_solid. Qed.

Lemma truthy_pretty (z : Z) : Js.truthy (pretty z) = true.
Proof. apply pretty_Z_solid. Qed.

(** ** The owner check *)

Lemma ensureOwner_fromOwner ctx b : (ensureOwner ctx b).1 = fromOwner ctx b.
Proof.
  unfold ensureOwner, fromOwner, registeredOwner.
  destruct (OwnerStore.getOwnerUserId (owners b)) as [o|]; [| reflexivity].
  destruct (Js.truthy o); [| reflexivity]. cbn [negb].
  by destruct (isOwner (getUserId ctx) o).
Qed.

Lemma isOwner_pretty ctx z :
  isOwner (getUserId ctx) (pretty z) = true
  <-> exists sender, from ctx = Some sender /\ id sender = Some z.
Proof.
  unfold isOwner, getUserId. split.
  - destruct (from ctx) as [sender|]; [| done].
    destruct (id sender) as [i|] eqn:Ei; [| done].
    intros [_ Heq%String.eqb_eq]%andb_true_iff.
    apply (inj pretty) in Heq as ->. eauto.
  - intros (sender & -> & ->). by rewrite truthy_pretty, String.eqb_refl.
Qed.

(** With an owner registered no handler touches the owner store. *)
Lemma handle_keeps_owners cmd ctx io b :
  registeredOwner b <> None -> owners (handle cmd ctx io b).2 = owners b.
Proof.
  intros Ho. destruct cmd; unfold handle.
  - destruct (registeredOwner b); [| done]. by destruct (isOwner _ _).
  - destruct (registeredOwner b); [| done]. by destruct (isOwner _ _).
  - destruct (getUserId ctx) as [u|]; [| done].
    destruct (Js.truthy u); [| done]. cbn [negb].
    destruct (registeredOwner b) as [o|]; [| done]. by destruct (String.eqb o u).
  - by destruct (ensureOwner ctx b) as [[|] ?].
  - destruct (ensureOwner ctx b) as [[|] ?]; [| done].
    destruct (from ctx) as [sender|]; [| done].
    destruct (id sender) as [i|]; [| done]. by destruct (i =? 0).
Qed.

Lemma dispatch_keeps_owners botUserId cmd ctx io b :
  registeredOwner b <> None -> owners (dispatch botUserId cmd ctx io b).2 = owners b.
Proof.
  intros Ho. unfold dispatch. destruct (from ctx) as [sender|]; [| done].
  destruct (_ || _); [done |]. by apply handle_keeps_owners.
Qed.

Lemma registeredOwner_owners b b' :
  owners b' = owners b -> registeredOwner b' = registeredOwner b.
Proof. unfold registeredOwner. by intros ->. Qed.

(** The owner store stays as it is through updates, and through restarts
    too when its file holds what it holds. *)
Lemma run_keeps_owners botUserId steps b :
  registeredOwner b <> None ->
  OwnerStore.restart (owners b) = owners b \/ forallb isUpdate steps = true ->
  owners (run botUserId steps b) = owners b.
Proof.
  revert b. induction steps as [|s steps IH]; intros b Ho Hor; [reflexivity |].
  unfold run. cbn [foldl]. fold (run botUserId steps (step botUserId b s)).
  assert (Hs : owners (step botUserId b s) = owners b).
  { destruct s as [cmd ctx io|]; cbn [step].
    - by apply dispatch_keeps_owners.
    - destruct Hor as [Hsync | Hup]; [exact Hsync | done]. }
  rewrite IH.
  - exact Hs.
  - by rewrite (registeredOwner_owners _ _ Hs).
  - rewrite Hs. destruct Hor as [Hsync | Hup]; [by left | right].
    cbn [forallb] in Hup. by apply andb_true_iff in Hup as [_ Hup].
Qed.

(** What the first [/init] leaves in the owner store. *)
Lemma init_registers botUserId ctx sender i io b :
  registeredOwner b = None ->
  from ctx = Some sender -> id sender = Some i ->
  is_bot sender = false -> i <> botUserId ->
  (dispatch botUserId CmdInit ctx io b).2
  = MkBot (OwnerStore.persist io
             (OwnerStore.MkWorld
                (OwnerStore.MkStore (OwnerStore.persistencePath (OwnerStore.store (owners b)))
                                    (Some (pretty i)))
                (OwnerStore.disk (owners b))))
          (sessions b).
Proof.
  intros Hnone Hfrom Hid Hbot Hne. unfold dispatch. rewrite Hfrom, Hbot.
  rewrite bool_decide_eq_false_2 by (rewrite Hid; congruence). cbn [orb].
  unfold handle, getUserId. rewrite Hfrom, Hid, truthy_pretty. cbn [negb].
  rewrite Hnone. unfold OwnerStore.setOwnerUserId.
  by rewrite trim_pretty, truthy_pretty.
Qed.

Lemma owner_persist_store io w :
  OwnerStore.store (OwnerStore.persist io w) = OwnerStore.store w.
Proof.
  unfold OwnerStore.persist. destruct (Js.truthy _); [| done]. cbn [negb].
  destruct (OwnerStore.ownerUserId _) as [o|]; [| done].
  destruct (Js.truthy o); [| done]. cbn [negb].
  by destruct (SessionStore.writeOk io).
Qed.

(** A file written for a trimmed, non-empty owner loads as that owner. *)
Lemma owner_restart_written io path o disk0 :
  Js.truthy path = true -> SessionStore.writeOk io = true ->
  Js.truthy o = true -> Js.trim o = o ->
  OwnerStore.restart
    (OwnerStore.persist io (OwnerStore.MkWorld (OwnerStore.MkStore path (Some o)) disk0))
  = OwnerStore.persist io (OwnerStore.MkWorld (OwnerStore.MkStore path (Some o)) disk0).
Proof.
  intros Hpath Hok Ho Htrim.
  unfold OwnerStore.restart, OwnerStore.persist, OwnerStore.create, OwnerStore.loadFromDisk.
  cbn [OwnerStore.store OwnerStore.persistencePath OwnerStore.ownerUserId OwnerStore.disk].
  rewrite Hpath, Ho, Hok. cbn [negb].
  cbn [OwnerStore.store OwnerStore.persistencePath OwnerStore.ownerUserId OwnerStore.disk].
  rewrite Hpath. cbn [negb OwnerStore.payload Json.isRecord Json.get Json.assoc String.eqb
                      Ascii.eqb Bool.eqb].
  by rewrite Htrim, Ho.
Qed.



(** X29.  The first [/init] locks the bot to its sender.  When no owner is
    registered and a user (not a bot, not the bot itself) sends [/init],
    that user's id is the owner from then on, through every later update,
    and through restarts as well when the owner file was written; and only
    updates that carry this very id are taken as the owner's. *)
Theorem first_init_locks_the_bot
  (botUserId : Z) (ctx : Context) (sender : Sender) (i : Z)
  (io : SessionStore.PersistIO) (b : Bot) (steps : list Step) :
  registeredOwner b = None ->
  from ctx = Some sender -> id sender = Some i ->
  is_bot sender = false -> i <> botUserId ->
  (Js.truthy (OwnerStore.persistencePath (OwnerStore.store (owners b))) = true
   /\ SessionStore.writeOk io = true)
  \/ forallb isUpdate steps = true ->
  let after := run botUserId steps (dispatch botUserId CmdInit ctx io b).2 in
  registeredOwner after = Some (pretty i)
  /\ forall ctx',
       fromOwner ctx' after = true
       <-> exists sender', from ctx' = Some sender' /\ id sender' = Some i.
Proof.
  intros Hnone Hfrom Hid Hbot Hne Hor after.
  assert (Hreg : registeredOwner after = Some (pretty i)).
  { unfold after. rewrite (init_registers botUserId ctx sender i io b) by done.
    set (b1 := MkBot _ _).
    assert (Hb1 : registeredOwner b1 = Some (pretty i)).
    { unfold registeredOwner, OwnerStore.getOwnerUserId, b1. cbn [owners].
      rewrite owner_persist_store. cbn [OwnerStore.store OwnerStore.ownerUserId].
      by rewrite truthy_pretty. }
    rewrite <- Hb1. apply registeredOwner_owners, run_keeps_owners.
    - by rewrite Hb1.
    - destruct Hor as [[Hpath Hok] | Hup]; [left | by right].
      unfold b1. cbn [owners].
      apply owner_restart_written; auto using truthy_pretty, trim_pretty. }
  split; [exact Hreg |].
  intros ctx'. unfold fromOwner. rewrite Hreg. apply isOwner_pretty.
Qed.

Lemma first_init_locks_the_bot_witness :
  registeredOwner
    (run 99 [Update CmdInit (MkContext (Some (MkSender (Some 8) false)) (Some 8))
                    (SessionStore.MkIO "t1" true);
             Restart;
             Update CmdReset (MkContext (Some (MkSender (Some 8) false)) (Some 8))
                    (SessionStore.MkIO "t2" true)]
       (dispatch 99 CmdInit (MkContext (Some (MkSender (Some 7) false)) (Some 7))
          (SessionStore.MkIO "t0" true)
          (MkBot (OwnerStore.create "owner.json" SessionStore.NoFile)
                 (SessionStore.create SessionStore.codex 20 (Some "store.json")
                                      SessionStore.NoFile))).2)
  = Some "7".
Proof.
  apply (first_init_locks_the_bot 99
           (MkContext (Some (MkSender (Some 7) false)) (Some 7))
           (MkSender (Some 7) false) 7 (SessionStore.MkIO "t0" true)
           (MkBot (OwnerStore.create "owner.json" SessionStore.NoFile)
                  (SessionStore.create SessionStore.codex 20 (Some "store.json")
                                       SessionStore.NoFile))
           [Update CmdInit (MkContext (Some (MkSender (Some 8) false)) (Some 8))
                   (SessionStore.MkIO "t1" true);
            Restart;
            Update CmdReset (MkContext (Some (MkSender (Some 8) false)) (Some 8))
                   (SessionStore.MkIO "t2" true)]).
  - reflexivity.
  - reflexivity.
  - reflexivity.
  - reflexivity.
  - lia.
  - left. split; reflexivity.
Defined.

(** X30.  An update that does not come from the registered owner never touches
    a conversation; and once an owner is registered such an update changes
    nothing at all, whichever of [/start], [/help], [/init], [/reset] and
    [/uid] it carries. *)
Theorem strangers_change_nothing
  (botUserId : Z) (cmd : Command) (ctx : Context)
  (io : SessionStore.PersistIO) (b : Bot) :
  fromOwner ctx b = false ->
  sessions (dispatch botUserId cmd ctx io b).2 = sessions b
  /\ (registeredOwner b <> None -> (dispatch botUserId cmd ctx io b).2 = b).
Proof.
  intros Hs. pose proof (ensureOwner_fromOwner ctx b) as He. rewrite Hs in He.
  assert (Hsess : sessions (dispatch botUserId cmd ctx io b).2 = sessions b).
  { unfold dispatch. destruct (from ctx) as [sender|] eqn:Ef; [| done].
    destruct (_ || _); [done |].
    destruct cmd; unfold handle.
    - destruct (registeredOwner b); [| done]. by destruct (isOwner _ _).
    - destruct (registeredOwner b); [| done]. by destruct (isOwner _ _).
    - destruct (getUserId ctx) as [u|]; [| done].
      destruct (Js.truthy u); [| done]. cbn [negb].
      destruct (registeredOwner b) as [o|]; [by destruct (String.eqb o u) |].
      by destruct (OwnerStore.setOwnerUserId u io (owners b)) as [[|] ?].
    - destruct (ensureOwner ctx b) as [[|] ?]; [done | done].
    - destruct (ensureOwner ctx b) as [[|] ?]; [done | done]. }
  split; [exact Hsess |].
  intros Ho. pose proof (dispatch_keeps_owners botUserId cmd ctx io b Ho) as Hown.
  destruct (dispatch botUserId cmd ctx io b).2 as [o' s'], b as [o s].
  cbn [owners sessions] in *. by subst.
Qed.

Lemma strangers_change_nothing_witness :
  let b := (dispatch 99 CmdInit (MkContext (Some (MkSender (Some 7) false)) (Some 7))
              (SessionStore.MkIO "t0" true)
              (MkBot (OwnerStore.create "owner.json" SessionStore.NoFile)
                     (SessionStore.appendExchange "telegram:7" "hello" "hi"
                        (SessionStore.MkIO "t0" true)
                        (SessionStore.create SessionStore.codex 20 (Some "store.json")
                                             SessionStore.NoFile)))).2 in
  fromOwner (MkContext (Some (MkSender (Some 8) false)) (Some 7)) b = false
  /\ (dispatch 99 CmdReset (MkContext (Some (MkSender (Some 8) false)) (Some 7))
               (SessionStore.MkIO "t1" true) b).2 = b.
Proof.
  intros b. split; [vm_compute; reflexivity |].
  apply (strangers_change_nothing 99 CmdReset
           (MkContext (Some (MkSender (Some 8) false)) (Some 7))
           (SessionStore.MkIO "t1" true) b).
  - vm_compute. reflexivity.
  - vm_compute. discriminate.
Defined.

End BotFacts.
